(** * eve-rolling: wormhole mass intervals, game sessions and random events

    A shallow embedding of [src/wormhole-logic.js] and of the session logic of
    [src/app.js] (classes [GameMode] and [WormholeRollingUI]), followed by the
    properties of the specification that were checked against it.

    Conventions of the embedding.
    - A JavaScript number is an exact rational ([Q]).  The masses of the
      tables are integers, and the products with 0.9, 1.1, 0.5 and 0.1 that
      the program rounds are integers or half-integers for the listed
      capacities, where the double and the rational computation round
      alike.  [===] on numbers is [Qeq_bool], and equalities between numbers
      are stated with [==].  A custom mass need not be an integer: module
      [Double] rounds the subtractions of [Action.applyToMass] as the
      program does, and agrees with the rational computation on integers
      (lemma [applyToMass_double_exact]).
    - An object literal used as a table is the list or map of its own
      properties; where the program reads a table with a key it does not
      control, the names inherited from [Object.prototype] are taken into
      account (module [Js]).
    - [Math.round x] is [floor (x + 1/2)] and [Math.floor] is [floor].
    - The strings naming states, ship modes and directions are enumerations.
    - Every [Math.random()] draw is an explicit input (record [Oracle]).
    - DOM rendering and [console.log] are omitted; [console.error] calls are
      recorded in the [consoleErrors] field of the session. *)

From Stdlib Require Import ZArith QArith Qround Qminmax Qabs Lia Lqa List.
From stdpp Require Import base option list strings gmap.

Open Scope Q_scope.

(** ** JavaScript arithmetic helpers *)

Definition Math_floor (x : Q) : Q := inject_Z (Qfloor x).

Definition Math_round (x : Q) : Q := inject_Z (Qfloor (x + (1 # 2))).

Definition Math_max (a b : Q) : Q := if Qle_bool a b then b else a.

Definition Math_min (a b : Q) : Q := if Qle_bool a b then a else b.

Definition Qlt_bool (a b : Q) : bool := negb (Qle_bool b a).

(** ** wormhole-logic.js *)

Module Logic.

(** An entry of [SHIP_TYPES].  [size] is read by [app.js]
    ([shipData.size]); an entry that does not carry the property yields
    [undefined] there, which is [None] here. *)
Record ShipData := mkShipData {
  name : string;
  cold : Q;
  hot : Q;
  size : option Z
}.

Definition SHIP_TYPES : gmap string ShipData :=
  list_to_map [
    ("rbs"%string, mkShipData "Rolling Battleship" 200 300 None);
    ("rhic"%string, mkShipData "Rolling Hictor" 1 65 None);
    ("carrier"%string, mkShipData "Carrier" 1250 1750 None);
    ("bs"%string, mkShipData "Battleship" 100 150 None);
    ("marauder"%string, mkShipData "Marauder" 160 210 None);
    ("cruiser"%string, mkShipData "Cruiser" 13 63 None)
  ].

Definition WORMHOLE_MASS_TYPES : list Z :=
  [100; 500; 750; 1000; 2000; 3000; 3300; 5000]%Z.

Inductive ShipMode := mode_cold | mode_unknown | mode_hot | mode_custom.

Inductive WhState := fresh | stable | destab | critical | gone.

Definition WhState_eqb (a b : WhState) : bool :=
  match a, b with
  | fresh, fresh | stable, stable | destab, destab
  | critical, critical | gone, gone => true
  | _, _ => false
  end.

Record MassRange := mkRange { min : Q; max : Q }.

Record Wormhole := mkWormhole {
  baseMass : Z;
  state : WhState
}.

Definition variance : Q := 1 # 10.

Definition getMinMass (w : Wormhole) : Q :=
  Math_round (inject_Z (baseMass w) * (1 - variance)).

Definition getMaxMass (w : Wormhole) : Q :=
  Math_round (inject_Z (baseMass w) * (1 + variance)).

Definition getCurrentMassRange (w : Wormhole) : MassRange :=
  let minBase := getMinMass w in
  let maxBase := getMaxMass w in
  match state w with
  | fresh => mkRange minBase maxBase
  | stable => mkRange (Math_round (minBase * (1 # 2))) maxBase
  | destab =>
      mkRange (Math_round (minBase * (1 # 10))) (Math_round (maxBase * (1 # 2)))
  | critical =>
      mkRange (Math_round (minBase * 0)) (Math_round (maxBase * (1 # 10)))
  | gone => mkRange (-5000) 0
  end.

Definition getStateBoundaries (w : Wormhole) : MassRange :=
  let minBase := getMinMass w in
  let maxBase := getMaxMass w in
  match state w with
  | fresh => mkRange (Math_round (minBase * (1 # 2))) maxBase
  | stable => mkRange (Math_round (minBase * (1 # 2))) maxBase
  | destab =>
      mkRange (Math_round (minBase * (1 # 10))) (Math_round (maxBase * (1 # 2)))
  | critical =>
      mkRange (Math_round (minBase * 0)) (Math_round (maxBase * (1 # 10)))
  | gone => mkRange (-5000) 0
  end.

(** The objects passed around as [ship]: instances of [Ship] and
    [CustomMass], and the object literal built by
    [WormholeRollingUI.createEventShip], whose [getMass] closure returns the
    two recorded bounds. *)
Inductive ShipObj :=
| Ship (type : string) (mode : ShipMode)
| CustomMass (mass : Q)
| EventShip (type : string) (massMin massMax : Q).

Inductive Direction := dir_A | dir_B.

Record Action := mkAction {
  ship : ShipObj;
  direction : Direction
}.

Section ShipTable.

(** The table the ship is looked up in ([SHIP_TYPES] of the running page). *)
Variable TYPES : gmap string ShipData.

Definition getMass (s : ShipObj) : MassRange :=
  match s with
  | Ship type mode =>
      match TYPES !! type with
      | None => mkRange 0 0
      | Some shipData =>
          match mode with
          | mode_unknown => mkRange (cold shipData) (hot shipData)
          | mode_cold => mkRange (cold shipData) (cold shipData)
          | mode_hot => mkRange (hot shipData) (hot shipData)
          | mode_custom => mkRange 0 0
          end
      end
  | CustomMass mass => mkRange mass mass
  | EventShip _ lo hi => mkRange lo hi
  end.

(** Intersection with the boundaries of a state, the three assignments that
    follow every boundary lookup in the sources. *)
Definition constrain (m b : MassRange) : MassRange :=
  let min1 := Math_max (min m) (min b) in
  let max1 := Math_min (max m) (max b) in
  mkRange (Math_min min1 max1) max1.

(** [Action.applyToMass] over the rationals, where the two subtractions are
    exact; [Double.applyToMass] is the same function with the subtractions
    rounded to double precision. *)
Definition applyToMass (a : Action) (currentMass : MassRange)
    (wormholeState : option Wormhole) : MassRange :=
  let shipMass := getMass (ship a) in
  let newMass :=
    if Qeq_bool (min shipMass) (max shipMass) then
      let massToSubtract := min shipMass in
      mkRange (Math_max 0 (min currentMass - massToSubtract))
              (Math_max 0 (max currentMass - massToSubtract))
    else
      mkRange (Math_max 0 (min currentMass - max shipMass))
              (Math_max 0 (max currentMass - min shipMass)) in
  match wormholeState with
  | Some w => constrain newMass (getStateBoundaries w)
  | None => newMass
  end.

End ShipTable.

End Logic.

(** ** app.js *)

Module App.
Import Logic.

(** The value of [outcome.newState] and of [entry.stateChange]: the string
    ['no-change'] or the name of a state. *)
Inductive StateChange := no_change | change_to (s : WhState).

(** [outcome.type]; [type_undefined] stands for an outcome literal written
    without the property. *)
Inductive OutcomeType :=
| type_collapse | type_critical | type_destab | type_stable | type_success
| type_undefined.

(** The object returned by [determineOutcome] (its [message] is display
    text determined by [type]). *)
Record Outcome := mkOutcome {
  newState : StateChange;
  type : OutcomeType
}.

(** A sub-action of a random event.  [getMassImpact] is a method of the
    entries of [RANDOM_EVENTS]; its results are inputs ([impacts]). *)
Record EventAction := mkEventAction {
  shipType : string;
  ev_direction : string
}.

Record RandomEvent := mkRandomEvent {
  ev_name : string;
  displayName : string;
  probability : Q;
  ev_actions : list EventAction
}.

Inductive EntryKind := kind_normal | kind_event.

(** An element of [committedActions].  Properties an entry does not carry
    are [None] ([timestamp] is omitted). *)
Record Entry := mkEntry {
  entry_type : EntryKind;
  actions : list Action;
  eventData : option RandomEvent;
  actualMassUsed : option Q;
  entry_remainingMass : option Q;
  outcome : option Outcome;
  stateChange : StateChange;
  currentState : WhState;
  finalMass : option MassRange;
  passedMass : option Q;
  totalPassedMass : option Q;
  entry_shipsOnFarSide : gmap string nat;
  actionsProcessed : option nat;
  totalActions : option nat
}.

Inductive Mode := trackerMode | gameMode.

Definition Mode_eqb (a b : Mode) : bool :=
  match a, b with
  | trackerMode, trackerMode | gameMode, gameMode => true
  | _, _ => false
  end.

Inductive ConsoleError :=
| OutsideDisplayedRange (actual : Q) (shown : MassRange)
| CollapsedButPositive (actual : Q).

(** The [WormholeRollingUI] object together with the fields of its
    [GameMode] instance ([remainingMass], [initialActualMass],
    [randomEventOccurred]).  [completion] records the verdict computed by
    [handleWormholeCompletion] ([hasStrandedShips]). *)
Record UI := mkUI {
  committedActions : list Entry;
  stagedActions : list Action;
  initialWhSize : Z;
  initialWhState : WhState;
  initialWhRestriction : Z;
  initialFarSideFleet : gmap string nat;
  currentWhState : WhState;
  isTracking : bool;
  shipsOnFarSide : gmap string nat;
  currentMode : Mode;
  remainingMass : Q;
  initialActualMass : Q;
  randomEventOccurred : bool;
  consoleErrors : list ConsoleError;
  completion : option bool
}.

Definition set_committedActions (v : list Entry) (u : UI) : UI :=
  mkUI v (stagedActions u) (initialWhSize u) (initialWhState u)
    (initialWhRestriction u) (initialFarSideFleet u) (currentWhState u)
    (isTracking u) (shipsOnFarSide u) (currentMode u) (remainingMass u)
    (initialActualMass u) (randomEventOccurred u) (consoleErrors u)
    (completion u).

Definition set_stagedActions (v : list Action) (u : UI) : UI :=
  mkUI (committedActions u) v (initialWhSize u) (initialWhState u)
    (initialWhRestriction u) (initialFarSideFleet u) (currentWhState u)
    (isTracking u) (shipsOnFarSide u) (currentMode u) (remainingMass u)
    (initialActualMass u) (randomEventOccurred u) (consoleErrors u)
    (completion u).

Definition set_currentWhState (v : WhState) (u : UI) : UI :=
  mkUI (committedActions u) (stagedActions u) (initialWhSize u)
    (initialWhState u) (initialWhRestriction u) (initialFarSideFleet u) v
    (isTracking u) (shipsOnFarSide u) (currentMode u) (remainingMass u)
    (initialActualMass u) (randomEventOccurred u) (consoleErrors u)
    (completion u).

Definition set_shipsOnFarSide (v : gmap string nat) (u : UI) : UI :=
  mkUI (committedActions u) (stagedActions u) (initialWhSize u)
    (initialWhState u) (initialWhRestriction u) (initialFarSideFleet u)
    (currentWhState u) (isTracking u) v (currentMode u) (remainingMass u)
    (initialActualMass u) (randomEventOccurred u) (consoleErrors u)
    (completion u).

Definition set_remainingMass (v : Q) (u : UI) : UI :=
  mkUI (committedActions u) (stagedActions u) (initialWhSize u)
    (initialWhState u) (initialWhRestriction u) (initialFarSideFleet u)
    (currentWhState u) (isTracking u) (shipsOnFarSide u) (currentMode u) v
    (initialActualMass u) (randomEventOccurred u) (consoleErrors u)
    (completion u).

Definition set_initialActualMass (v : Q) (u : UI) : UI :=
  mkUI (committedActions u) (stagedActions u) (initialWhSize u)
    (initialWhState u) (initialWhRestriction u) (initialFarSideFleet u)
    (currentWhState u) (isTracking u) (shipsOnFarSide u) (currentMode u)
    (remainingMass u) v (randomEventOccurred u) (consoleErrors u)
    (completion u).

Definition set_randomEventOccurred (v : bool) (u : UI) : UI :=
  mkUI (committedActions u) (stagedActions u) (initialWhSize u)
    (initialWhState u) (initialWhRestriction u) (initialFarSideFleet u)
    (currentWhState u) (isTracking u) (shipsOnFarSide u) (currentMode u)
    (remainingMass u) (initialActualMass u) v (consoleErrors u)
    (completion u).

Definition set_consoleErrors (v : list ConsoleError) (u : UI) : UI :=
  mkUI (committedActions u) (stagedActions u) (initialWhSize u)
    (initialWhState u) (initialWhRestriction u) (initialFarSideFleet u)
    (currentWhState u) (isTracking u) (shipsOnFarSide u) (currentMode u)
    (remainingMass u) (initialActualMass u) (randomEventOccurred u) v
    (completion u).

Definition set_completion (v : option bool) (u : UI) : UI :=
  mkUI (committedActions u) (stagedActions u) (initialWhSize u)
    (initialWhState u) (initialWhRestriction u) (initialFarSideFleet u)
    (currentWhState u) (isTracking u) (shipsOnFarSide u) (currentMode u)
    (remainingMass u) (initialActualMass u) (randomEventOccurred u)
    (consoleErrors u) v.

(** The [Math.random()] draws and [getMassImpact()] results consumed while
    one player action is handled: [coin] resolves an unknown mass, [rolls i]
    is the trigger draw of the [i]-th entry of [RANDOM_EVENTS], [pick]
    selects among the valid events, [impacts i] is the mass impact of the
    [i]-th sub-action of the executed event. *)
Record Oracle := mkOracle {
  coin : Q;
  rolls : nat -> Q;
  pick : Q;
  impacts : nat -> Q
}.

(** [ship.type] when it is truthy: [CustomMass] has no such property and the
    empty string is falsy. *)
Definition shipKeyOf (s : ShipObj) : option string :=
  match s with
  | Ship k _ | EventShip k _ _ => if String.eqb k "" then None else Some k
  | CustomMass _ => None
  end.

(** The far-side bookkeeping written out twice in the sources
    ([GameMode.handleAddAction] and [commitStagingToLog]). *)
Definition trackFarSide (d : Direction) (s : ShipObj)
    (far : gmap string nat) : gmap string nat :=
  match shipKeyOf s with
  | None => far
  | Some shipKey =>
      match d with
      | dir_B => <[shipKey := (default 0%nat (far !! shipKey) + 1)%nat]> far
      | dir_A =>
          match far !! shipKey with
          | Some (S n) =>
              if Nat.eqb n 0 then delete shipKey far else <[shipKey := n]> far
          | _ => far
          end
      end
  end.

Definition getCurrentWormhole (u : UI) : Wormhole :=
  mkWormhole (initialWhSize u) (currentWhState u).

Definition calculateCurrentMass (u : UI) : MassRange :=
  fold_left
    (fun currentMass entry =>
       match finalMass entry with
       | Some m => m
       | None => currentMass
       end)
    (committedActions u)
    (getCurrentMassRange (mkWormhole (initialWhSize u) (initialWhState u))).

(** [GameMode.determineOutcome].  The division is the rational one; the
    divisor [initialActualMass] is positive in every started game. *)
Definition determineOutcome (u : UI) : Outcome :=
  let percentRemaining := (remainingMass u / initialActualMass u) * 100 in
  let currentState := currentWhState u in
  let targetState :=
    if Qle_bool (remainingMass u) 0 then gone
    else if Qle_bool percentRemaining 10 then critical
    else if Qle_bool percentRemaining 50 then destab
    else stable in
  if WhState_eqb targetState gone then mkOutcome (change_to gone) type_collapse
  else if negb (WhState_eqb targetState currentState) then
    match targetState with
    | critical => mkOutcome (change_to critical) type_critical
    | destab => mkOutcome (change_to destab) type_destab
    | stable => mkOutcome (change_to stable) type_stable
    | _ => mkOutcome no_change type_success
    end
  else mkOutcome no_change type_success.

Definition applyOutcomeState (o : Outcome) (u : UI) : UI :=
  match newState o with
  | no_change => u
  | change_to s => set_currentWhState s u
  end.

Definition isGone (c : StateChange) : bool :=
  match c with
  | change_to gone => true
  | _ => false
  end.

Definition hasStrandedShips (far : gmap string nat) : bool :=
  Nat.ltb 0 (map_fold (fun _ count sum => (sum + count)%nat) 0%nat far).

Definition handleWormholeCompletion (u : UI) : UI :=
  set_completion (Some (hasStrandedShips (shipsOnFarSide u))) u.

Section Session.

(** The two tables of the running page that the session code reads:
    [SHIP_TYPES] (with the [size] classes) and [RANDOM_EVENTS]. *)
Variable TYPES : gmap string ShipData.
Variable RANDOM_EVENTS : list RandomEvent.

(** *** Random events *)

Fixpoint triggeredFrom (o : Oracle) (i : nat) (events : list RandomEvent)
    : list RandomEvent :=
  match events with
  | [] => []
  | event :: rest =>
      if Qlt_bool (rolls o i) (probability event)
      then event :: triggeredFrom o (S i) rest
      else triggeredFrom o (S i) rest
  end.

Definition checkForRandomEvents (u : UI) (o : Oracle) : list RandomEvent :=
  if negb (Mode_eqb (currentMode u) gameMode) then []
  else if randomEventOccurred u then []
  else triggeredFrom o 0 RANDOM_EVENTS.

(** The predicate given to [event.actions.every]. *)
Definition shipFits (currentRestriction : Z) (action : EventAction) : bool :=
  match TYPES !! shipType action with
  | Some shipData =>
      match size shipData with
      | Some s => Z.leb s currentRestriction
      | None => false
      end
  | None => false
  end.

Definition eventFits (currentRestriction : Z) (event : RandomEvent) : bool :=
  forallb (shipFits currentRestriction) (ev_actions event).

(** [createEventShip].  The fallback reads [SHIP_TYPES.cruiser]; it is only
    reached for a ship type outside the table, which the restriction filter
    excludes ([0] stands for the read of a missing [cruiser] entry). *)
Definition createEventShip (eventAction : EventAction) : ShipObj :=
  match TYPES !! shipType eventAction with
  | None =>
      match TYPES !! "cruiser"%string with
      | Some c => EventShip "cruiser" (cold c) (hot c)
      | None => EventShip "cruiser" 0 0
      end
  | Some shipData =>
      EventShip (shipType eventAction) (cold shipData) (hot shipData)
  end.

Record ProcessedAction := mkProcessed {
  pa_action : Action;
  massImpact : Q;
  pa_outcome : Outcome;
  displayedMass : MassRange
}.

(** The local variables of [processRandomEventAsAction]. *)
Record EventRun := mkEventRun {
  processedActions : list ProcessedAction;
  totalMassImpact : Q;
  currentDisplayedMass : MassRange;
  eventCompleted : bool;
  eventStateChange : StateChange
}.

(** The [for] loop of [processRandomEventAsAction], from index [i] on. *)
Fixpoint eventLoop (o : Oracle) (i : nat) (todo : list EventAction)
    (u : UI) (r : EventRun) : UI * EventRun :=
  match todo with
  | [] => (u, r)
  | eventAction :: rest =>
      if WhState_eqb (currentWhState u) gone then (u, r)
      else
        let eventShip := createEventShip eventAction in
        let direction :=
          if String.eqb (ev_direction eventAction) "outgoing"
          then dir_B else dir_A in
        let action := mkAction eventShip direction in
        let massImpact := impacts o i in
        let total := totalMassImpact r + massImpact in
        let u1 := set_remainingMass (remainingMass u - massImpact) u in
        let displayedResultMass :=
          constrain (applyToMass TYPES action (currentDisplayedMass r) None)
                    (getStateBoundaries (getCurrentWormhole u1)) in
        let outcome := determineOutcome u1 in
        let u2 := applyOutcomeState outcome u1 in
        let change :=
          match newState outcome, eventStateChange r with
          | change_to s, no_change => change_to s
          | _, c => c
          end in
        let processed :=
          processedActions r ++
          [mkProcessed action massImpact outcome displayedResultMass] in
        if isGone (newState outcome)
        then (u2, mkEventRun processed total displayedResultMass true change)
        else eventLoop o (S i) rest u2
               (mkEventRun processed total displayedResultMass
                  (eventCompleted r) change)
  end.

Definition processRandomEventAsAction (u : UI) (event : RandomEvent)
    (o : Oracle) : UI :=
  let u0 := set_randomEventOccurred true u in
  let '(u1, r) :=
    eventLoop o 0 (ev_actions event) u0
      (mkEventRun [] 0 (calculateCurrentMass u0) false no_change) in
  let farSideSnapshot := shipsOnFarSide u1 in
  let finalOutcome :=
    match last (processedActions r) with
    | Some pa => pa_outcome pa
    | None => mkOutcome no_change type_undefined
    end in
  let u2 :=
    set_committedActions
      (committedActions u1 ++
       [mkEntry kind_event (map pa_action (processedActions r)) (Some event)
          (Some (totalMassImpact r)) (Some (remainingMass u1))
          (Some finalOutcome) (eventStateChange r) (currentWhState u1)
          (Some (currentDisplayedMass r)) None None farSideSnapshot
          (Some (length (processedActions r)))
          (Some (length (ev_actions event)))]) u1 in
  if WhState_eqb (currentWhState u2) gone
  then handleWormholeCompletion u2
  else u2.

(** [Math.floor(Math.random() * validEvents.length)]. *)
Definition randomIndex (o : Oracle) (n : nat) : nat :=
  Z.to_nat (Qfloor (pick o * inject_Z (Z.of_nat n))).

(** [processRandomEventsAfterAction].  The index is within the array for
    every draw in [0, 1) (lemma [randomIndex_lt]); the [None] branch of the
    lookup stands for the read past the end that cannot happen. *)
Definition processRandomEventsAfterAction (u : UI) (o : Oracle) : UI :=
  if negb (Mode_eqb (currentMode u) gameMode) || Qle_bool (remainingMass u) 0
  then u
  else
    let randomEvents := checkForRandomEvents u o in
    if Nat.ltb 0 (length randomEvents) then
      let currentRestriction := initialWhRestriction u in
      let validEvents := List.filter (eventFits currentRestriction) randomEvents in
      if Nat.ltb 0 (length validEvents) then
        match validEvents !! randomIndex o (length validEvents) with
        | Some event => processRandomEventAsAction u event o
        | None => u
        end
      else u
    else u.

(** *** Game mode *)

Definition consistencyCheck (o : Outcome) (displayed : MassRange) (u : UI)
    : UI :=
  if negb (isGone (newState o)) && Qlt_bool 0 (remainingMass u)
     && (Qlt_bool (remainingMass u) (min displayed)
         || Qlt_bool (max displayed) (remainingMass u))
  then set_consoleErrors
         (consoleErrors u ++ [OutsideDisplayedRange (remainingMass u) displayed])
         u
  else if isGone (newState o) && Qlt_bool 0 (remainingMass u)
  then set_consoleErrors
         (consoleErrors u ++ [CollapsedButPositive (remainingMass u)]) u
  else u.

(** [GameMode.handleAddAction] up to, and without, its last statement (the
    call of [processRandomEventsAfterAction]).  The call of
    [renderActionsList] is left out: it returns for the ships that
    [stageAction] builds, whose types are keys of [SHIP_TYPES], and throws
    when the log holds a [Ship] that has no display name
    ([Display.getDisplayName]). *)
Definition resolveAction (u : UI) (direction : Direction) (ship : ShipObj)
    (o : Oracle) : UI :=
  let action := mkAction ship direction in
  let shipMass := getMass TYPES ship in
  let actualMassUsed :=
    if Qeq_bool (min shipMass) (max shipMass) then min shipMass
    else if Qlt_bool (coin o) (1 # 2) then min shipMass else max shipMass in
  let u1 := set_remainingMass (remainingMass u - actualMassUsed) u in
  let u2 :=
    set_shipsOnFarSide (trackFarSide direction ship (shipsOnFarSide u1)) u1 in
  let outcome := determineOutcome u2 in
  let u3 := applyOutcomeState outcome u2 in
  let displayedResultMass :=
    if isGone (newState outcome) then mkRange 0 0
    else
      constrain (applyToMass TYPES action (calculateCurrentMass u3) None)
                (getStateBoundaries (getCurrentWormhole u3)) in
  let farSideSnapshot := shipsOnFarSide u3 in
  let u4 :=
    set_committedActions
      (committedActions u3 ++
       [mkEntry kind_normal [action] None (Some actualMassUsed)
          (Some (remainingMass u3)) (Some outcome) (newState outcome)
          (currentWhState u3) (Some displayedResultMass) None None
          farSideSnapshot None None]) u3 in
  let u5 :=
    if isGone (newState outcome) then handleWormholeCompletion u4 else u4 in
  consistencyCheck outcome displayedResultMass u5.

Definition handleAddAction (u : UI) (direction : Direction) (ship : ShipObj)
    (o : Oracle) : UI :=
  processRandomEventsAfterAction (resolveAction u direction ship o) o.

(** [GameMode.initializeGame]; [r1] is the draw of the original capacity and
    [r2] the draw of the remaining fraction. *)
Definition initializeGame (u : UI) (r1 r2 : Q) : UI :=
  let u0 := set_randomEventOccurred false u in
  let baseSize := inject_Z (initialWhSize u0) in
  let variance := 1 # 10 in
  let minOriginal := Math_round (baseSize * (1 - variance)) in
  let maxOriginal := Math_round (baseSize * (1 + variance)) in
  let originalWormholeMass :=
    Math_floor (r1 * (maxOriginal - minOriginal + 1)) + minOriginal in
  let remainingPercent :=
    match initialWhState u0 with
    | fresh => 1
    | stable => (1 # 2) + r2 * (1 # 2)
    | destab => (1 # 10) + r2 * (4 # 10)
    | critical => r2 * (1 # 10)
    | gone => 1
    end in
  set_initialActualMass originalWormholeMass
    (set_remainingMass (Math_floor (originalWormholeMass * remainingPercent))
       u0).

(** *** Session set-up *)

(** The object built by the constructor, with [currentMode] as chosen by the
    mode tabs and the far-side fleet as chosen in the set-up panel.  The
    fields that hold [null] until [startTracking] assigns them carry a
    placeholder ([0], [fresh]). *)
Definition newUI (mode : Mode) (fleet : gmap string nat) : UI :=
  mkUI [] [] 0%Z fresh 0%Z fleet fresh false ∅ mode 0 0 false [] None.

(** [resetAll]: the log, the queue, the set-up values and the far-side map
    are cleared and the completion section is removed; the fields of the
    [GameMode] instance are left as they are. *)
Definition resetAll (u : UI) : UI :=
  mkUI [] [] 0%Z fresh 0%Z (initialFarSideFleet u) fresh false ∅
    (currentMode u) (remainingMass u) (initialActualMass u)
    (randomEventOccurred u) (consoleErrors u) None.

Definition startTracking (u : UI) (whSize : Z) (whState : WhState)
    (whRestriction : Z) (r1 r2 : Q) : UI :=
  let u1 :=
    mkUI (committedActions u) (stagedActions u) whSize whState whRestriction
      (initialFarSideFleet u)
      (match whState with fresh => stable | s => s end)
      true (initialFarSideFleet u) (currentMode u) (remainingMass u)
      (initialActualMass u) (randomEventOccurred u) (consoleErrors u)
      (completion u) in
  if Mode_eqb (currentMode u1) gameMode then initializeGame u1 r1 r2 else u1.

(** *** Tracker mode *)

(** The [forEach] of [commitStagingToLog]: the running [entryPassedMass]
    and far-side map. *)
Definition commitStep (acc : Q * gmap string nat) (action : Action)
    : Q * gmap string nat :=
  let shipMass := getMass TYPES (ship action) in
  let entryPassedMass :=
    if Qeq_bool (min shipMass) (max shipMass)
    then fst acc + min shipMass
    else fst acc + (min shipMass + max shipMass) / 2 in
  (entryPassedMass, trackFarSide (direction action) (ship action) (snd acc)).

Definition commitStagingToLog (u : UI) (actions : list Action)
    (stateChange : StateChange) (finalMass : MassRange) : UI :=
  let '(entryPassedMass, far) :=
    fold_left commitStep actions (0, shipsOnFarSide u) in
  let u1 := set_shipsOnFarSide far u in
  let previousTotal :=
    fold_left (fun total entry => total + default 0 (passedMass entry))
              (committedActions u1) 0 in
  let totalPassedMass := previousTotal + entryPassedMass in
  let farSideSnapshot := shipsOnFarSide u1 in
  set_committedActions
    (committedActions u1 ++
     [mkEntry kind_normal actions None None None None stateChange
        (currentWhState u1) (Some finalMass) (Some entryPassedMass)
        (Some totalPassedMass) farSideSnapshot None None]) u1.

(** [applyStaging]; an empty queue only shows a message. *)
Definition applyStaging (u : UI) (stateChange : StateChange) : UI :=
  match stagedActions u with
  | [] => u
  | _ :: _ =>
      let appliedActions := stagedActions u in
      let currentMass :=
        fold_left
          (fun currentMass action => applyToMass TYPES action currentMass None)
          appliedActions (calculateCurrentMass u) in
      let finalState :=
        match stateChange with
        | no_change => currentWhState u
        | change_to s => s
        end in
      let u1 :=
        match stateChange with
        | no_change => u
        | change_to s => set_currentWhState s u
        end in
      let finalWormhole := mkWormhole (initialWhSize u1) finalState in
      let stateBoundaries := getStateBoundaries finalWormhole in
      let currentMass := constrain currentMass stateBoundaries in
      let u2 := commitStagingToLog u1 appliedActions stateChange currentMass in
      let u3 := set_stagedActions [] u2 in
      if isGone stateChange then handleWormholeCompletion u3 else u3
  end.

(** [TrackerMode.handleAddAction]. *)
Definition trackerAddAction (u : UI) (direction : Direction) (ship : ShipObj)
    : UI :=
  set_stagedActions (stagedActions u ++ [mkAction ship direction]) u.

(** [stageAction] after the ship object has been built from the selection;
    a custom mass that is not positive is refused with a message. *)
Definition stageAction (u : UI) (direction : Direction) (ship : ShipObj)
    (o : Oracle) : UI :=
  let accepted :=
    match ship with
    | CustomMass customMass => Qlt_bool 0 customMass
    | _ => true
    end in
  if accepted then
    match currentMode u with
    | trackerMode => trackerAddAction u direction ship
    | gameMode => handleAddAction u direction ship o
    end
  else u.

(** A game session after a sequence of player actions, each with its own
    draws. *)
Definition playAll (u : UI) (steps : list (Direction * ShipObj * Oracle))
    : UI :=
  fold_left (fun u s => handleAddAction u (fst (fst s)) (snd (fst s)) (snd s))
            steps u.

End Session.

End App.

(** * Vocabulary of the specification *)

Module Spec.
Import Logic App.

(** Width of an interval. *)
Definition width (m : MassRange) : Q := max m - min m.

(** A ship whose mass is known exactly (cold, hot or custom mode), with the
    scalar [m] it subtracts from both bounds. *)
Inductive ExactShip (TYPES : gmap string ShipData) : ShipObj -> Q -> Prop :=
| exact_cold key d :
    TYPES !! key = Some d -> ExactShip TYPES (Ship key mode_cold) (cold d)
| exact_hot key d :
    TYPES !! key = Some d -> ExactShip TYPES (Ship key mode_hot) (hot d)
| exact_custom m : ExactShip TYPES (CustomMass m) m.

(** Automatic derivation of the state, in the words of the specification:
    the percentage [currentRemaining / originalCapacity * 100] against the
    thresholds 0, 10 and 50. *)
Definition percentRemaining (currentRemaining originalCapacity : Q) : Q :=
  currentRemaining / originalCapacity * 100.

Definition derivedState (currentRemaining originalCapacity : Q) : WhState :=
  if Qle_bool currentRemaining 0 then gone
  else if Qle_bool (percentRemaining currentRemaining originalCapacity) 10
  then critical
  else if Qle_bool (percentRemaining currentRemaining originalCapacity) 50
  then destab
  else stable.

(** Number of random events executed so far: every executed event leaves
    exactly one entry of type ['event'] in the log. *)
Definition isEvent (e : Entry) : bool :=
  match entry_type e with
  | kind_event => true
  | kind_normal => false
  end.

Definition eventsExecuted (u : UI) : nat :=
  length (List.filter isEvent (committedActions u)).

(** The part of the session that neither the event loop nor the state
    update touches. *)
Definition sameLedger (u u' : UI) : Prop :=
  committedActions u' = committedActions u
  /\ shipsOnFarSide u' = shipsOnFarSide u
  /\ randomEventOccurred u' = randomEventOccurred u
  /\ currentMode u' = currentMode u
  /\ initialWhRestriction u' = initialWhRestriction u
  /\ consoleErrors u' = consoleErrors u.

(** The restriction rule of the event injector in the words of the
    specification: every sub-action's ship has a size class that is at most
    the restriction level. *)
Definition withinRestriction (TYPES : gmap string ShipData)
    (restriction : Z) (event : RandomEvent) : Prop :=
  forall a, In a (ev_actions event) ->
    exists d s, TYPES !! shipType a = Some d /\ size d = Some s
                /\ (s <= restriction)%Z.

(** The consistency invariant of a game session: unless the wormhole is
    gone, the hidden remaining mass lies within the displayed interval. *)
Definition consistent (u : UI) : Prop :=
  currentWhState u <> gone ->
  min (calculateCurrentMass u) <= remainingMass u
  /\ remainingMass u <= max (calculateCurrentMass u).

(** Passed-mass estimate of one staged action: the exact mass when it is
    known, the midpoint of the range otherwise. *)
Definition passedMassEstimate (TYPES : gmap string ShipData) (a : Action)
    : Q :=
  let m := getMass TYPES (ship a) in
  if Qeq_bool (min m) (max m) then min m else (min m + max m) / 2.

Definition Qsum (l : list Q) : Q := fold_right Qplus 0 l.

(** The state whose boundaries a commit uses: the declared one, or the
    current one when the declaration is ['no-change']. *)
Definition declaredState (u : UI) (stateChange : StateChange) : WhState :=
  match stateChange with
  | no_change => currentWhState u
  | change_to s => s
  end.

End Spec.

(** * Sample tables

    [sizedShips] is [SHIP_TYPES] with the size classes asserted by the
    project's test-suite (cruiser and rolling hictor 2, the battleship hulls
    3, carrier 5).  [sureEvents] holds the two neutral-traffic events that
    the log renderer of [app.js] knows by name (two cruiser jumps, two
    carrier jumps), with the trigger probability forced to 1. *)

Module Sample.
Import Logic App.

Definition sizedShips : gmap string ShipData :=
  list_to_map [
    ("rbs"%string, mkShipData "Rolling Battleship" 200 300 (Some 3%Z));
    ("rhic"%string, mkShipData "Rolling Hictor" 1 65 (Some 2%Z));
    ("carrier"%string, mkShipData "Carrier" 1250 1750 (Some 5%Z));
    ("bs"%string, mkShipData "Battleship" 100 150 (Some 3%Z));
    ("marauder"%string, mkShipData "Marauder" 160 210 (Some 3%Z));
    ("cruiser"%string, mkShipData "Cruiser" 13 63 (Some 2%Z))
  ].

Definition cruiserJump : RandomEvent :=
  mkRandomEvent "neutral_cruiser_jump" "Neutral cruiser jumps through" 1
    [mkEventAction "cruiser" "outgoing"; mkEventAction "cruiser" "incoming"].

Definition carrierJump : RandomEvent :=
  mkRandomEvent "neutral_carrier_jump" "Neutral carrier jumps through" 1
    [mkEventAction "carrier" "outgoing"; mkEventAction "carrier" "incoming"].

Definition sureEvents : list RandomEvent := [cruiserJump; carrierJump].

(** Draws: the coin picks the cold mass, every trigger roll is [1/4], the
    selection draw is [pick], every sub-action weighs 40 Gg. *)
Definition draws (pick : Q) : Oracle :=
  mkOracle (1 # 4) (fun _ => 1 # 4) pick (fun _ => 40).

(** A 3000 Gg game started fresh with battleship restriction; the capacity
    draw [1/2] yields an original capacity of 3000 Gg. *)
Definition game3000 : UI :=
  startTracking (newUI gameMode ∅) 3000 fresh 3 (1 # 2) 0.

(** Draws for the event scenario: every trigger roll is [1/4] and every
    sub-action weighs 63 Gg (the hot mass of a cruiser). *)
Definition heavyDraws : Oracle :=
  mkOracle (1 # 4) (fun _ => 1 # 4) 0 (fun _ => 63).

End Sample.

(** * The JavaScript run time *)

Module Js.

(** The property names that every object literal inherits from
    [Object.prototype].  A read [obj[key]] of one of them, when [obj] has no
    own property of that name, does not yield [undefined] but the inherited
    function (for [__proto__], the prototype object itself): a truthy value
    that carries none of the properties the program stores in its tables. *)
Definition OBJECT_PROTOTYPE : list string :=
  ["constructor"; "hasOwnProperty"; "isPrototypeOf"; "propertyIsEnumerable";
   "toLocaleString"; "toString"; "valueOf"; "__proto__";
   "__defineGetter__"; "__defineSetter__"; "__lookupGetter__";
   "__lookupSetter__"]%string.

Definition inherited (key : string) : bool :=
  existsb (String.eqb key) OBJECT_PROTOTYPE.

(** The result of [obj[key]] on an object literal given by its own
    properties: an own value, an inherited one, or [undefined] ([None]). *)
Inductive Member (A : Type) :=
| own (v : A)
| fromPrototype.

Arguments own {A} v.
Arguments fromPrototype {A}.

(** The [name] property of an inherited value, as a template literal prints
    it: the functions carry their own name, [Object.prototype.constructor]
    is [Object], and the prototype object has no [name]. *)
Definition inheritedName (key : string) : string :=
  if String.eqb key "constructor" then "Object"%string
  else if String.eqb key "__proto__" then "undefined"%string
  else key.

End Js.

(** * Double precision *)

(** The numbers of the program are IEEE 754 doubles.  A finite double is a
    rational; [fl] rounds a rational to the nearest double, ties to even,
    subnormal numbers included (overflow to [Infinity], beyond [2^1024], is
    not represented).  Every arithmetic operation of the program returns
    the rounded exact result, and [parseFloat] returns the rounded decimal
    it reads. *)
Module Double.
Import Logic.

Definition pow2 (e : Z) : Q :=
  if (0 <=? e)%Z then inject_Z (2 ^ e) else / inject_Z (2 ^ (- e)).

(** The integer [e] with [2^e <= |x| < 2^(e+1)], for [x] other than 0. *)
Definition exponent (x : Q) : Z :=
  let k := (Z.log2 (Z.abs (Qnum x)) - Z.log2 (Zpos (Qden x)))%Z in
  if Qle_bool (pow2 k) (Qabs x) then k else (k - 1)%Z.

(** Nearest integer, ties to even. *)
Definition roundEven (x : Q) : Z :=
  let f := Qfloor x in
  let r := x - inject_Z f in
  if Qlt_bool r (1 # 2) then f
  else if Qlt_bool (1 # 2) r then (f + 1)%Z
  else if Z.even f then f else (f + 1)%Z.

(** 53 significant bits; the smallest exponent of a normal number is
    [-1022], below it the spacing stays [2^-1074]. *)
Definition fl (x : Q) : Q :=
  if Qeq_bool x 0 then 0
  else
    let e := Z.max (exponent x) (-1022) in
    let ulp := pow2 (e - 52) in
    inject_Z (roundEven (x / ulp)) * ulp.

(** [a - b] on doubles. *)
Definition sub (a b : Q) : Q := fl (a - b).

(** [parseFloat] on a decimal numeral of value [x]. *)
Definition parseFloat (x : Q) : Q := fl x.

Section ShipTable.

Variable TYPES : gmap string ShipData.

(** [Action.applyToMass] with its two subtractions rounded as the program
    computes them; [Math.max], [Math.min] and [===] are exact on doubles. *)
Definition applyToMass (a : Action) (currentMass : MassRange)
    (wormholeState : option Wormhole) : MassRange :=
  let shipMass := getMass TYPES (ship a) in
  let newMass :=
    if Qeq_bool (min shipMass) (max shipMass) then
      let massToSubtract := min shipMass in
      mkRange (Math_max 0 (sub (min currentMass) massToSubtract))
              (Math_max 0 (sub (max currentMass) massToSubtract))
    else
      mkRange (Math_max 0 (sub (min currentMass) (max shipMass)))
              (Math_max 0 (sub (max currentMass) (min shipMass))) in
  match wormholeState with
  | Some w => constrain newMass (getStateBoundaries w)
  | None => newMass
  end.

End ShipTable.

End Double.

(** * wormhole-logic.js: display names *)

Module Display.
Import Logic.

Definition SHIP_MODES (mode : ShipMode) : string :=
  match mode with
  | mode_cold => "Cold"
  | mode_unknown => "Unknown"
  | mode_hot => "Hot"
  | mode_custom => "Custom"
  end.

(** [Ship.getDisplayName].  [SHIP_TYPES[this.type]] is [undefined] for a
    type that is neither a key of the table nor inherited, and reading
    [.name] of it throws a [TypeError]: [None]. *)
Definition getDisplayName (TYPES : gmap string ShipData) (type : string)
    (mode : ShipMode) : option string :=
  let shipName :=
    match TYPES !! type with
    | Some shipData => Some (name shipData)
    | None =>
        if Js.inherited type then Some (Js.inheritedName type) else None
    end in
  match shipName with
  | Some n => Some (n ++ " (" ++ SHIP_MODES mode ++ ")")%string
  | None => None
  end.

End Display.

(** * wormhole-data.js *)

Module Data.

(** An entry of [WORMHOLE_DATA] or [SPECIAL_WORMHOLES]; [special] is absent
    from the entries of [WORMHOLE_DATA]. *)
Record WhData := mkWhData {
  totalMass : Z;
  restriction : Z;
  destination : string;
  special : option string
}.

Definition RESTRICTION_LEVELS : list (Z * string) :=
  [(1%Z, "up to Destroyer"%string);
   (2%Z, "up to Battlecruiser"%string);
   (3%Z, "up to Battleship"%string);
   (4%Z, "up to Freighter"%string);
   (5%Z, "up to Capital"%string)].

(** The object literal, as the list of its properties in source order (the
    order [Object.entries] enumerates them in). *)
Definition WORMHOLE_DATA : list (string * WhData) :=
  [
    ("A009"%string, mkWhData 3000 1 "C13" None);
    ("C008"%string, mkWhData 3000 1 "C5" None);
    ("E004"%string, mkWhData 3000 1 "C1" None);
    ("G008"%string, mkWhData 3000 1 "C6" None);
    ("L005"%string, mkWhData 3000 1 "C2" None);
    ("M001"%string, mkWhData 3000 1 "C4" None);
    ("Q003"%string, mkWhData 3000 1 "NS" None);
    ("Z006"%string, mkWhData 3000 1 "C3" None);
    ("C125"%string, mkWhData 1000 2 "C2" None);
    ("H121"%string, mkWhData 500 2 "C1" None);
    ("J244"%string, mkWhData 1000 2 "LS" None);
    ("J377"%string, mkWhData 1000 2 "LS" None);
    ("J492"%string, mkWhData 1000 2 "LS" None);
    ("L614"%string, mkWhData 1000 2 "C5" None);
    ("M609"%string, mkWhData 1000 2 "C4" None);
    ("N110"%string, mkWhData 1000 2 "HS" None);
    ("O883"%string, mkWhData 1000 2 "C3" None);
    ("P060"%string, mkWhData 500 2 "C1" None);
    ("Q063"%string, mkWhData 500 2 "HS" None);
    ("Q317"%string, mkWhData 500 2 "C1" None);
    ("S804"%string, mkWhData 1000 2 "C6" None);
    ("T458"%string, mkWhData 500 2 "Thera" None);
    ("V301"%string, mkWhData 500 2 "C1" None);
    ("Y790"%string, mkWhData 500 2 "C1" None);
    ("Z060"%string, mkWhData 1000 2 "NS" None);
    ("Z647"%string, mkWhData 500 2 "C1" None);
    ("Z971"%string, mkWhData 100 2 "C1" None);
    ("F353"%string, mkWhData 100 2 "Thera" None);
    ("A239"%string, mkWhData 2000 3 "LS" None);
    ("A982"%string, mkWhData 3000 3 "C6" None);
    ("B274"%string, mkWhData 2000 3 "HS" None);
    ("C247"%string, mkWhData 2000 3 "C3" None);
    ("D364"%string, mkWhData 1000 3 "C2" None);
    ("D382"%string, mkWhData 2000 3 "C2" None);
    ("D845"%string, mkWhData 5000 3 "HS" None);
    ("E175"%string, mkWhData 2000 3 "C4" None);
    ("E545"%string, mkWhData 2000 3 "NS" None);
    ("F135"%string, mkWhData 750 3 "Thera" None);
    ("F216"%string, mkWhData 1000 3 "Pochven" None);
    ("G024"%string, mkWhData 2000 3 "C2" None);
    ("I182"%string, mkWhData 2000 3 "C2" None);
    ("K329"%string, mkWhData 3000 3 "NS" None);
    ("K346"%string, mkWhData 3000 3 "NS" None);
    ("L477"%string, mkWhData 2000 3 "C3" None);
    ("M267"%string, mkWhData 1000 3 "C3" None);
    ("N062"%string, mkWhData 3000 3 "C5" None);
    ("N290"%string, mkWhData 3000 3 "LS" None);
    ("N766"%string, mkWhData 2000 3 "C2" None);
    ("N770"%string, mkWhData 3000 3 "C5" None);
    ("N968"%string, mkWhData 2000 3 "C3" None);
    ("O128"%string, mkWhData 1000 3 "C4" None);
    ("O477"%string, mkWhData 2000 3 "C3" None);
    ("R943"%string, mkWhData 750 3 "C2" None);
    ("S047"%string, mkWhData 3000 3 "HS" None);
    ("T405"%string, mkWhData 2000 3 "C4" None);
    ("U210"%string, mkWhData 3000 3 "LS" None);
    ("U574"%string, mkWhData 3000 3 "C6" None);
    ("X702"%string, mkWhData 1000 3 "C3" None);
    ("X877"%string, mkWhData 2000 3 "C4" None);
    ("Y683"%string, mkWhData 2000 3 "C4" None);
    ("Z457"%string, mkWhData 2000 3 "C4" None);
    ("H900"%string, mkWhData 3000 3 "C5" None);
    ("R474"%string, mkWhData 3000 3 "C6" None);
    ("B735"%string, mkWhData 750 3 "Drifter" None);
    ("C414"%string, mkWhData 750 3 "Drifter" None);
    ("R259"%string, mkWhData 750 3 "Drifter" None);
    ("S877"%string, mkWhData 750 3 "Drifter" None);
    ("V928"%string, mkWhData 750 3 "Drifter" None);
    ("R081"%string, mkWhData 1000 3 "C4" None);
    ("X450"%string, mkWhData 1000 3 "NS" None);
    ("U372"%string, mkWhData 1000 3 "Pochven" None);
    ("A641"%string, mkWhData 2000 4 "HS" None);
    ("B041"%string, mkWhData 3000 4 "C6" None);
    ("B449"%string, mkWhData 2000 4 "HS" None);
    ("B520"%string, mkWhData 3000 4 "HS" None);
    ("D792"%string, mkWhData 3000 4 "HS" None);
    ("E587"%string, mkWhData 3000 4 "NS" None);
    ("L031"%string, mkWhData 3000 4 "Thera" None);
    ("M164"%string, mkWhData 2000 4 "Thera" None);
    ("M555"%string, mkWhData 3000 4 "C5" None);
    ("R051"%string, mkWhData 3000 4 "LS" None);
    ("V283"%string, mkWhData 3000 4 "NS" None);
    ("V898"%string, mkWhData 2000 4 "LS" None);
    ("C729"%string, mkWhData 1000 4 "Pochven" None);
    ("C140"%string, mkWhData 3300 5 "LS" None);
    ("C248"%string, mkWhData 3300 5 "NS" None);
    ("C391"%string, mkWhData 3300 5 "LS" None);
    ("H296"%string, mkWhData 3300 5 "C5" None);
    ("N432"%string, mkWhData 3300 5 "C5" None);
    ("N944"%string, mkWhData 3300 5 "LS" None);
    ("S199"%string, mkWhData 3300 5 "NS" None);
    ("U319"%string, mkWhData 3300 5 "C6" None);
    ("V753"%string, mkWhData 3300 5 "C6" None);
    ("V911"%string, mkWhData 3300 5 "C5" None);
    ("W237"%string, mkWhData 3300 5 "C6" None);
    ("Z142"%string, mkWhData 3300 5 "NS" None)
  ]%Z.

Definition SPECIAL_WORMHOLES : list (string * WhData) :=
  [("K162"%string,
    mkWhData 0 0 "Variable" (Some "Exit hole - varies by origin"%string));
   ("⛮"%string, mkWhData 0 0 "Drifter" (Some "Drifter wormhole"%string))].

(** The own property [key] of an object given by its property list, as
    [Object.entries] and [Object.keys] see it. *)
Fixpoint getProp {A : Type} (obj : list (string * A)) (key : string)
    : option A :=
  match obj with
  | [] => None
  | (k, v) :: rest => if String.eqb k key then Some v else getProp rest key
  end.

(** The read [obj[key]], which falls back on [Object.prototype]. *)
Definition getMember {A : Type} (obj : list (string * A)) (key : string)
    : option (Js.Member A) :=
  match getProp obj key with
  | Some v => Some (Js.own v)
  | None => if Js.inherited key then Some Js.fromPrototype else None
  end.

Fixpoint getLevel (levels : list (Z * string)) (r : Z) : option string :=
  match levels with
  | [] => None
  | (k, v) :: rest => if Z.eqb k r then Some v else getLevel rest r
  end.

(** The object returned by [getWormholeInfo]; [None] in a numeric or
    string field is [undefined], and in [info_special] it is [null]. *)
Record WhInfo := mkWhInfo {
  code : string;
  info_totalMass : option Z;
  info_restriction : option Z;
  restrictionText : string;
  info_destination : option string;
  info_special : option string
}.

(** [wh.special || null]: the empty string is falsy. *)
Definition specialOrNull (s : option string) : option string :=
  match s with
  | Some t => if String.eqb t "" then None else Some t
  | None => None
  end.

(** [getWormholeInfo].  Every value of the two tables, and every inherited
    value, is truthy, so [||] and [!wh] only test for [undefined].  On an
    inherited value the four properties read are [undefined], and
    [RESTRICTION_LEVELS[undefined]] is [undefined] as well. *)
Definition getWormholeInfo (whCode : string) : option WhInfo :=
  let wh :=
    match getMember WORMHOLE_DATA whCode with
    | Some v => Some v
    | None => getMember SPECIAL_WORMHOLES whCode
    end in
  match wh with
  | None => None
  | Some (Js.own wh) =>
      Some (mkWhInfo whCode (Some (totalMass wh)) (Some (restriction wh))
              (default "Variable"%string
                 (getLevel RESTRICTION_LEVELS (restriction wh)))
              (Some (destination wh)) (specialOrNull (special wh)))
  | Some Js.fromPrototype =>
      Some (mkWhInfo whCode None None "Variable"%string None None)
  end.

Definition getWormholesByRestriction (restrictionLevel : Z) : list string :=
  map fst
    (List.filter (fun e => Z.eqb (restriction (snd e)) restrictionLevel)
       WORMHOLE_DATA).

Definition getWormholesByDestination (dest : string) : list string :=
  map fst
    (List.filter (fun e => String.eqb (destination (snd e)) dest)
       WORMHOLE_DATA).

Definition getWormholesByMassRange (minMass maxMass : Q) : list string :=
  map fst
    (List.filter
       (fun e => Qle_bool minMass (inject_Z (totalMass (snd e)))
                 && Qle_bool (inject_Z (totalMass (snd e))) maxMass)
       WORMHOLE_DATA).

End Data.

(** * app.js: set-up panel and tracker buttons *)

Module Setup.
Import Logic App.

(** [ship.size <= restrictionLevel]; a missing [size] compares false. *)
Definition sizeFits (ship : ShipData) (restrictionLevel : Z) : bool :=
  match size ship with
  | Some s => Z.leb s restrictionLevel
  | None => false
  end.

(** [randomizeFarSideFleet]: [roll k] and [amount k] are the two draws made
    for the ship type [k]. *)
Definition randomizeFarSideFleet (TYPES : gmap string ShipData)
    (fleet : gmap string nat) (restrictionLevel : Z)
    (roll amount : string -> Q) : gmap string nat :=
  map_imap
    (fun shipKey ship =>
       Some (if sizeFits ship restrictionLevel
                && Qlt_bool (3 # 4) (roll shipKey)
             then Z.to_nat (Qfloor (amount shipKey * 5) + 1)
             else 0%nat))
    TYPES
  ∪ fleet.

(** The [disabled] flags that [updateApplyButtonStates] leaves on the three
    state buttons. *)
Record ApplyButtons := mkButtons {
  destabDisabled : bool;
  criticalDisabled : bool;
  goneDisabled : bool
}.

Definition updateApplyButtonStates (u : UI) : ApplyButtons :=
  match currentWhState u with
  | destab => mkButtons true false false
  | critical => mkButtons true true false
  | gone => mkButtons true true true
  | _ => mkButtons false false false
  end.

(** Whether the button that declares [declared] accepts a click. *)
Definition buttonEnabled (u : UI) (declared : StateChange) : bool :=
  match declared with
  | change_to destab => negb (destabDisabled (updateApplyButtonStates u))
  | change_to critical => negb (criticalDisabled (updateApplyButtonStates u))
  | change_to gone => negb (goneDisabled (updateApplyButtonStates u))
  | _ => true
  end.

(** The matching step of [autoSelectWormholeType] and the value it leaves
    in [selectedWormholeType]. *)
Definition matchingWormholes (currentMass currentRestriction : Z)
    : list string :=
  map fst
    (List.filter
       (fun e => Z.eqb (Data.totalMass (snd e)) currentMass
                 && Z.eqb (Data.restriction (snd e)) currentRestriction)
       Data.WORMHOLE_DATA).

Definition autoSelectWormholeType (currentMass currentRestriction : Z)
    : option string :=
  match matchingWormholes currentMass currentRestriction with
  | [whCode] => Some whCode
  | _ => None
  end.

(** The wormhole type and the initial state drawn by [randomizeSetup]. *)
Definition randomizeSetup (r1 r2 : Q) : option string * option WhState :=
  let allCodes := map fst Data.WORMHOLE_DATA in
  let initialStates := [fresh; stable; destab; critical] in
  (allCodes !! Z.to_nat (Qfloor (r1 * inject_Z (Z.of_nat (length allCodes)))),
   initialStates
     !! Z.to_nat (Qfloor (r2 * inject_Z (Z.of_nat (length initialStates))))).

(** What the click handlers of [setupEventListeners] do once a ship has
    been selected: the two direction buttons call [stageAction], the four
    apply buttons call [applyStaging], and nothing happens unless a session
    is being tracked. *)
Inductive Command :=
| cmd_stage (direction : Direction) (ship : ShipObj) (o : Oracle)
| cmd_apply (declared : StateChange).

Definition execute (TYPES : gmap string ShipData)
    (EVENTS : list RandomEvent) (u : UI) (c : Command) : UI :=
  if isTracking u then
    match c with
    | cmd_stage direction ship o => stageAction TYPES EVENTS u direction ship o
    | cmd_apply declared => applyStaging TYPES u declared
    end
  else u.

Definition run (TYPES : gmap string ShipData) (EVENTS : list RandomEvent)
    (u : UI) (commands : list Command) : UI :=
  fold_left (execute TYPES EVENTS) commands u.

End Setup.

(** * Further vocabulary *)

Module Notions.
Import Logic App.

(** Position of a state in the progression fresh, stable, destab, critical,
    gone ([fresh] counts as [stable]). *)
Definition severity (s : WhState) : nat :=
  match s with
  | fresh | stable => 0
  | destab => 1
  | critical => 2
  | gone => 3
  end.

(** Number of ships of a type on the far side; an absent key counts 0. *)
Definition count (far : gmap string nat) (shipKey : string) : nat :=
  default 0%nat (far !! shipKey).

Definition ordered (m : MassRange) : Prop := min m <= max m.

(** Both bounds are the same numbers. *)
Definition sameRange (a b : MassRange) : Prop :=
  min a == min b /\ max a == max b.

(** The mass a ship object subtracts is a range of non-negative numbers. *)
Definition massOK (TYPES : gmap string ShipData) (s : ShipObj) : Prop :=
  0 <= min (getMass TYPES s) /\ min (getMass TYPES s) <= max (getMass TYPES s).

(** Every interval recorded in the log is ordered. *)
Definition logOrdered (u : UI) : Prop :=
  Forall (fun e => match finalMass e with
                   | Some m => ordered m
                   | None => True
                   end) (committedActions u).

End Notions.

(** * Properties *)

Import Logic App Spec.

(** ** Arithmetic of the helpers *)

Lemma Math_max_spec (a b : Q) :
  (a <= b /\ Math_max a b = b) \/ (b < a /\ Math_max a b = a).
Proof.
  unfold Math_max. destruct (Qle_bool a b) eqn:E.
  - left. split; [now apply Qle_bool_iff | reflexivity].
  - right. split; [| reflexivity].
    apply Qnot_le_lt. intro H. apply Qle_bool_iff in H. congruence.
Qed.

Lemma Math_min_spec (a b : Q) :
  (a <= b /\ Math_min a b = a) \/ (b < a /\ Math_min a b = b).
Proof.
  unfold Math_min. destruct (Qle_bool a b) eqn:E.
  - left. split; [now apply Qle_bool_iff | reflexivity].
  - right. split; [| reflexivity].
    apply Qnot_le_lt. intro H. apply Qle_bool_iff in H. congruence.
Qed.

Lemma Qlt_bool_iff (a b : Q) : Qlt_bool a b = true <-> a < b.
Proof.
  unfold Qlt_bool. rewrite negb_true_iff. split.
  - intro E. apply Qnot_le_lt. intro H. apply Qle_bool_iff in H. congruence.
  - intro H. destruct (Qle_bool b a) eqn:E; [| reflexivity].
    apply Qle_bool_iff in E. exfalso. lra.
Qed.

Ltac case_max a b :=
  let H := fresh "Hmax" in let E := fresh "Emax" in
  destruct (Math_max_spec a b) as [[H E] | [H E]]; rewrite E in *.

Ltac case_min a b :=
  let H := fresh "Hmin" in let E := fresh "Emin" in
  destruct (Math_min_spec a b) as [[H E] | [H E]]; rewrite E in *.

(** ** Interval arithmetic ([Action.applyToMass]) *)

Lemma applyToMass_exact TYPES a cur :
  min (getMass TYPES (ship a)) == max (getMass TYPES (ship a)) ->
  applyToMass TYPES a cur None =
  mkRange (Math_max 0 (min cur - min (getMass TYPES (ship a))))
          (Math_max 0 (max cur - min (getMass TYPES (ship a)))).
Proof.
  intro H. unfold applyToMass. apply Qeq_bool_iff in H. now rewrite H.
Qed.

Lemma applyToMass_range TYPES a cur :
  ~ min (getMass TYPES (ship a)) == max (getMass TYPES (ship a)) ->
  applyToMass TYPES a cur None =
  mkRange (Math_max 0 (min cur - max (getMass TYPES (ship a))))
          (Math_max 0 (max cur - min (getMass TYPES (ship a)))).
Proof.
  intro H. unfold applyToMass.
  destruct (Qeq_bool _ _) eqn:E; [| reflexivity].
  apply Qeq_bool_iff in E. contradiction.
Qed.

(** When does a raw application keep the interval at least as wide?  The
    clamp at zero is harmless exactly when the lower bound is at least the
    lighter ship mass, or when the interval is a single point. *)
Lemma applyToMass_width_ge_iff TYPES a cur :
  min cur <= max cur ->
  min (getMass TYPES (ship a)) <= max (getMass TYPES (ship a)) ->
  max cur - min cur <=
  max (applyToMass TYPES a cur None) - min (applyToMass TYPES a cur None)
  <-> min (getMass TYPES (ship a)) <= min cur \/ min cur == max cur.
Proof.
  intros Hord Hship.
  set (lo := min (getMass TYPES (ship a))) in *.
  set (hi := max (getMass TYPES (ship a))) in *.
  assert (Hnew :
    applyToMass TYPES a cur None
    = mkRange (Math_max 0 (min cur - hi)) (Math_max 0 (max cur - lo))
    \/ (lo == hi
        /\ applyToMass TYPES a cur None
           = mkRange (Math_max 0 (min cur - lo)) (Math_max 0 (max cur - lo)))).
  { destruct (Qeq_dec lo hi) as [E | E].
    - right. split; [exact E | now apply applyToMass_exact].
    - left. now apply applyToMass_range. }
  destruct Hnew as [E | [Eq E]]; rewrite E; simpl.
  - case_max 0 (min cur - hi); case_max 0 (max cur - lo);
      (split;
       [intro H; destruct (Qlt_le_dec (min cur) lo); [right | left]; lra
       | intros [H | H]; lra]).
  - case_max 0 (min cur - lo); case_max 0 (max cur - lo);
      (split;
       [intro H; destruct (Qlt_le_dec (min cur) lo); [right | left]; lra
       | intros [H | H]; lra]).
Qed.

Lemma getMass_exact TYPES s m :
  ExactShip TYPES s m ->
  min (getMass TYPES s) = m /\ max (getMass TYPES s) = m.
Proof.
  intros [key d H | key d H | m']; simpl; try rewrite H; auto.
Qed.

(** Width after subtracting the same scalar from both bounds, with the clamp
    at zero taken into account. *)
Lemma applyToMass_width_exact_iff TYPES a cur :
  min (getMass TYPES (ship a)) == max (getMass TYPES (ship a)) ->
  min cur <= max cur ->
  width (applyToMass TYPES a cur None) == width cur
  <-> min (getMass TYPES (ship a)) <= min cur \/ min cur == max cur.
Proof.
  intros E Hord. unfold width.
  rewrite (applyToMass_exact _ _ _ E). simpl.
  set (m := min (getMass TYPES (ship a))).
  case_max 0 (min cur - m); case_max 0 (max cur - m);
    (split;
     [intro H; destruct (Qlt_le_dec (min cur) m); [right | left]; lra
     | intros [H | H]; lra]).
Qed.

(** C2, as stated, fails: an unknown battleship (cold 100, hot 150) applied
    to the interval [50, 200] gives [0, 100], which is narrower, because the
    lower bound is clamped at zero. *)
Lemma C2_unknown_narrows_counterexample :
  ~ (forall (TYPES : gmap string ShipData) key d dir (cur : MassRange),
        TYPES !! key = Some d -> cold d <= hot d ->
        0 <= min cur -> min cur <= max cur ->
        width cur <=
        width (applyToMass TYPES (mkAction (Ship key mode_unknown) dir) cur None)).
Proof.
  intro H.
  specialize (H SHIP_TYPES "bs"%string
                (mkShipData "Battleship" 100 150 None) dir_A (mkRange 50 200)).
  assert (Hlook : SHIP_TYPES !! "bs"%string
                  = Some (mkShipData "Battleship" 100 150 None))
    by (vm_compute; reflexivity).
  assert (Hle : width (mkRange 50 200) <=
                width (applyToMass SHIP_TYPES
                         (mkAction (Ship "bs" mode_unknown) dir_A)
                         (mkRange 50 200) None))
    by (apply H; [exact Hlook | simpl; lra ..]).
  vm_compute in Hle. apply Hle. reflexivity.
Qed.

(** C2 (amended): for an interval with [0 <= min <= max] and an
    unknown-mode ship with [cold <= hot], the raw application does not
    narrow the interval if and only if the lower bound is at least the cold
    mass ([cold <= min]) or the interval is a single point; otherwise the
    clamp of the bounds at zero narrows it. *)
Theorem C2_unknown_never_narrows
    (TYPES : gmap string ShipData) key d dir (cur : MassRange) :
  TYPES !! key = Some d -> cold d <= hot d ->
  0 <= min cur -> min cur <= max cur ->
  width cur <=
  width (applyToMass TYPES (mkAction (Ship key mode_unknown) dir) cur None)
  <-> cold d <= min cur \/ min cur == max cur.
Proof.
  intros Hk Hch H0 Hord. unfold width.
  rewrite applyToMass_width_ge_iff; simpl; rewrite ?Hk; simpl;
    [reflexivity | assumption ..].
Qed.

Lemma C2_unknown_never_narrows_witness :
  width (mkRange 2700 3300) <=
  width (applyToMass SHIP_TYPES (mkAction (Ship "bs" mode_unknown) dir_A)
           (mkRange 2700 3300) None).
Proof.
  apply (C2_unknown_never_narrows SHIP_TYPES "bs"%string
           (mkShipData "Battleship" 100 150 None) dir_A (mkRange 2700 3300));
    simpl; first [lra | vm_compute; reflexivity | left; lra].
Defined.

(** C3, as stated, fails: a hot battleship (150 exactly) applied to the
    interval [100, 200] gives [0, 50]; the width drops from 100 to 50 because
    the lower bound is clamped at zero. *)
Lemma C3_exact_width_counterexample :
  ~ (forall (TYPES : gmap string ShipData) s m dir (cur : MassRange),
        ExactShip TYPES s m ->
        0 <= min cur -> min cur <= max cur ->
        width (applyToMass TYPES (mkAction s dir) cur None) == width cur).
Proof.
  intro H.
  assert (Hex : ExactShip SHIP_TYPES (Ship "bs" mode_hot) 150).
  { apply (exact_hot SHIP_TYPES "bs"%string
             (mkShipData "Battleship" 100 150 None)).
    vm_compute; reflexivity. }
  assert (Heq : width (applyToMass SHIP_TYPES
                         (mkAction (Ship "bs" mode_hot) dir_A)
                         (mkRange 100 200) None)
                == width (mkRange 100 200))
    by (apply (H SHIP_TYPES _ _ dir_A (mkRange 100 200) Hex); simpl; lra).
  vm_compute in Heq. discriminate Heq.
Qed.

(** ** Double precision: where the rational model is exact *)

Lemma pow2_pos (e : Z) : 0 < Double.pow2 e.
Proof.
  unfold Double.pow2. destruct (0 <=? e)%Z eqn:E.
  - apply Z.leb_le in E. change 0 with (inject_Z 0). rewrite <- Zlt_Qlt.
    apply Z.pow_pos_nonneg; lia.
  - apply Z.leb_gt in E. apply Qinv_lt_0_compat.
    change 0 with (inject_Z 0). rewrite <- Zlt_Qlt.
    apply Z.pow_pos_nonneg; lia.
Qed.

Lemma roundEven_int (x : Q) (w : Z) : x == inject_Z w -> Double.roundEven x = w.
Proof.
  intro E. unfold Double.roundEven.
  rewrite (Qfloor_comp _ _ E), Qfloor_Z.
  assert (Hr : Qlt_bool (x - inject_Z w) (1 # 2) = true).
  { unfold Qlt_bool. apply negb_true_iff.
    destruct (Qle_bool (1 # 2) (x - inject_Z w)) eqn:B; [| reflexivity].
    apply Qle_bool_iff in B. lra. }
  now rewrite Hr.
Qed.

Lemma exponent_int (z : Z) :
  (Z.abs z <= 2 ^ 53)%Z -> z <> 0%Z ->
  (Double.exponent (inject_Z z) <= 53)%Z
  /\ (Double.exponent (inject_Z z) = 53%Z -> Z.abs z = (2 ^ 53)%Z).
Proof.
  intros Hb Hz. unfold Double.exponent. simpl Qnum. simpl Qden.
  change (Z.log2 1) with 0%Z. rewrite Z.sub_0_r.
  assert (Hk : (Z.log2 (Z.abs z) <= 53)%Z).
  { rewrite <- (Z.log2_pow2 53) by lia. now apply Z.log2_le_mono. }
  assert (Hlow : (2 ^ Z.log2 (Z.abs z) <= Z.abs z)%Z)
    by (apply Z.log2_spec; lia).
  destruct (Qle_bool _ _); split; try lia.
  intro E. rewrite E in Hlow. lia.
Qed.

Lemma fl_grid (x : Q) (w : Z) :
  ~ x == 0 ->
  x == inject_Z w * Double.pow2 (Z.max (Double.exponent x) (-1022) - 52) ->
  Double.fl x == x.
Proof.
  intros Hx E. unfold Double.fl.
  destruct (Qeq_bool x 0) eqn:B; [apply Qeq_bool_iff in B; contradiction |].
  set (ulp := Double.pow2 _) in *.
  pose proof (pow2_pos (Z.max (Double.exponent x) (-1022) - 52)) as Hp.
  fold ulp in Hp.
  assert (Ediv : x / ulp == inject_Z w).
  { rewrite E. field. lra. }
  rewrite (roundEven_int _ _ Ediv). now rewrite <- E.
Qed.

Lemma fl_int (z : Z) :
  (Z.abs z <= 2 ^ 53)%Z -> Double.fl (inject_Z z) == inject_Z z.
Proof.
  intro Hb. destruct (Z.eq_dec z 0%Z) as [-> | Hz]; [reflexivity |].
  destruct (exponent_int z Hb Hz) as [He H53].
  assert (Hx : ~ inject_Z z == 0).
  { intro E. unfold Qeq in E. simpl in E. lia. }
  set (t := (Z.max (Double.exponent (inject_Z z)) (-1022) - 52)%Z).
  assert (Ht : (t <= 1)%Z) by (unfold t; lia).
  destruct (Z.eq_dec t 1%Z) as [E1 | N1].
  - (* the exponent is 53 and |z| = 2^53 *)
    assert (Ha : Z.abs z = (2 ^ 53)%Z) by (apply H53; unfold t in E1; lia).
    apply (fl_grid _ (z / 2)); [exact Hx |]. fold t. rewrite E1.
    change (Double.pow2 1) with (inject_Z 2).
    rewrite <- inject_Z_mult. apply inject_Z_injective.
    assert (z = (2 ^ 53)%Z \/ z = (- 2 ^ 53)%Z) by lia.
    destruct H as [-> | ->]; reflexivity.
  - apply (fl_grid _ (z * 2 ^ (- t))); [exact Hx |]. fold t.
    assert (Hpow : Double.pow2 t == / inject_Z (2 ^ (- t))).
    { unfold Double.pow2. destruct (0 <=? t)%Z eqn:B; [| reflexivity].
      apply Z.leb_le in B. assert (t = 0%Z) by lia. subst t. rewrite H.
      reflexivity. }
    rewrite Hpow, inject_Z_mult.
    assert (0 < inject_Z (2 ^ (- t))).
    { change 0 with (inject_Z 0). rewrite <- Zlt_Qlt.
      apply Z.pow_pos_nonneg; lia. }
    field. lra.
Qed.

Lemma sub_int (a b : Z) :
  (Z.abs a <= 2 ^ 52)%Z -> (Z.abs b <= 2 ^ 52)%Z ->
  Double.sub (inject_Z a) (inject_Z b) == inject_Z (a - b).
Proof.
  intros Ha Hb. unfold Double.sub.
  assert (E : inject_Z a - inject_Z b = inject_Z (a - b)).
  { unfold Qminus, Qplus, Qopp, inject_Z. simpl.
    rewrite !Z.mul_1_r. reflexivity. }
  rewrite E. apply fl_int.
  change (2 ^ 53)%Z with (2 ^ 52 + 2 ^ 52)%Z. lia.
Qed.

(** [fl] rounds to the nearest point of the binary grid at [x]. *)

Lemma pow2_quot (a b : Z) :
  (0 <= a)%Z -> (0 <= b)%Z ->
  Double.pow2 (a - b) * inject_Z (2 ^ b) == inject_Z (2 ^ a).
Proof.
  intros Ha Hb. unfold Double.pow2.
  assert (Hpb : 0 < inject_Z (2 ^ b)).
  { change 0 with (inject_Z 0). rewrite <- Zlt_Qlt.
    apply Z.pow_pos_nonneg; lia. }
  destruct (0 <=? a - b)%Z eqn:E.
  - apply Z.leb_le in E. rewrite <- inject_Z_mult.
    rewrite <- Z.pow_add_r by lia. now replace (a - b + b)%Z with a by lia.
  - apply Z.leb_gt in E.
    assert (Hp : 0 < inject_Z (2 ^ (- (a - b)))).
    { change 0 with (inject_Z 0). rewrite <- Zlt_Qlt.
      apply Z.pow_pos_nonneg; lia. }
    assert (Eb : inject_Z (2 ^ b)
                 == inject_Z (2 ^ (- (a - b))) * inject_Z (2 ^ a)).
    { rewrite <- inject_Z_mult, <- Z.pow_add_r by lia.
      now replace (- (a - b) + a)%Z with b by lia. }
    rewrite Eb. field. lra.
Qed.

Lemma Qabs_frac (x : Q) :
  Qabs x * inject_Z (Zpos (Qden x)) == inject_Z (Z.abs (Qnum x)).
Proof.
  destruct x as [n d]. unfold Qabs, Qeq, Qmult, inject_Z. simpl.
  rewrite !Z.mul_1_r, ?Pos.mul_1_r. reflexivity.
Qed.

(** [exponent] is the binary exponent: [2^e <= |x| < 2^(e+1)]. *)
Lemma exponent_spec (x : Q) :
  ~ x == 0 ->
  Double.pow2 (Double.exponent x) <= Qabs x
  /\ Qabs x < Double.pow2 (Double.exponent x + 1).
Proof.
  intro Hx.
  set (n := Z.abs (Qnum x)). set (d := Zpos (Qden x)).
  assert (Hn : (0 < n)%Z).
  { unfold n. destruct x as [[| p | p] q]; simpl; try lia.
    exfalso. apply Hx. reflexivity. }
  assert (Hd : (0 < d)%Z) by (unfold d; lia).
  destruct (Z.log2_spec n Hn) as [Hn1 Hn2].
  destruct (Z.log2_spec d Hd) as [Hd1 Hd2].
  pose proof (Z.log2_nonneg n) as Ha. pose proof (Z.log2_nonneg d) as Hb.
  set (a := Z.log2 n) in *. set (b := Z.log2 d) in *.
  pose proof (Qabs_frac x) as Ef. fold n d in Ef.
  assert (HdQ : 0 < inject_Z d)
    by (change 0 with (inject_Z 0); rewrite <- Zlt_Qlt; exact Hd).
  assert (Hlt : forall e : Z, (0 <= e)%Z ->
             0 < inject_Z (2 ^ e)).
  { intros e He. change 0 with (inject_Z 0). rewrite <- Zlt_Qlt.
    apply Z.pow_pos_nonneg; lia. }
  (* bounds on |x| from the bounds on n and d *)
  assert (Hup : Qabs x < Double.pow2 (a - b + 1)).
  { pose proof (pow2_quot (a + 1) b ltac:(lia) Hb) as Eq.
    replace (a + 1 - b)%Z with (a - b + 1)%Z in Eq by lia.
    pose proof (pow2_pos (a - b + 1)) as Hp.
    (* |x| d = n < 2^(a+1) = pow2 (..) 2^b <= pow2 (..) d *)
    assert (inject_Z n < inject_Z (2 ^ (a + 1)))
      by (rewrite <- Zlt_Qlt; replace (a + 1)%Z with (Z.succ a) by lia; exact Hn2).
    assert (inject_Z (2 ^ b) <= inject_Z d) by (rewrite <- Zle_Qle; exact Hd1).
    assert (Double.pow2 (a - b + 1) * inject_Z (2 ^ b)
            <= Double.pow2 (a - b + 1) * inject_Z d)
      by (apply Qmult_le_l; lra).
    assert (Qabs x * inject_Z d < Double.pow2 (a - b + 1) * inject_Z d) by lra.
    apply Qmult_lt_r in H2; assumption. }
  assert (Hlow : Double.pow2 (a - b - 1) <= Qabs x).
  { pose proof (pow2_quot a (b + 1) Ha ltac:(lia)) as Eq.
    replace (a - (b + 1))%Z with (a - b - 1)%Z in Eq by lia.
    pose proof (pow2_pos (a - b - 1)) as Hp.
    assert (inject_Z (2 ^ a) <= inject_Z n) by (rewrite <- Zle_Qle; exact Hn1).
    assert (inject_Z d <= inject_Z (2 ^ (b + 1)))
      by (rewrite <- Zle_Qle; replace (b + 1)%Z with (Z.succ b) by lia; lia).
    assert (Double.pow2 (a - b - 1) * inject_Z d
            <= Double.pow2 (a - b - 1) * inject_Z (2 ^ (b + 1)))
      by (apply Qmult_le_l; lra).
    assert (Double.pow2 (a - b - 1) * inject_Z d <= Qabs x * inject_Z d) by lra.
    apply Qmult_le_r in H2; assumption. }
  unfold Double.exponent. fold n d. fold a b.
  destruct (Qle_bool (Double.pow2 (a - b)) (Qabs x)) eqn:B.
  - apply Qle_bool_iff in B. split; assumption.
  - assert (Hnb : Qabs x < Double.pow2 (a - b)).
    { apply Qnot_le_lt. intro H. apply Qle_bool_iff in H. congruence. }
    replace (a - b - 1 + 1)%Z with (a - b)%Z by lia. split; assumption.
Qed.

Lemma roundEven_near (y : Q) :
  Qabs (inject_Z (Double.roundEven y) - y) <= 1 # 2.
Proof.
  unfold Double.roundEven.
  pose proof (Qfloor_le y) as H1. pose proof (Qlt_floor y) as H2.
  rewrite inject_Z_plus in H2. change (inject_Z 1) with 1 in H2.
  set (f := Qfloor y) in *.
  assert (Hlt : forall a b, Qlt_bool a b = true -> a < b).
  { intros a b H. unfold Qlt_bool in H. apply negb_true_iff in H.
    apply Qnot_le_lt. intro C. apply Qle_bool_iff in C. congruence. }
  assert (Hge : forall a b, Qlt_bool a b = false -> b <= a).
  { intros a b H. unfold Qlt_bool in H. apply negb_false_iff in H.
    now apply Qle_bool_iff. }
  apply Qabs_Qle_condition.
  destruct (Qlt_bool (y - inject_Z f) (1 # 2)) eqn:A.
  - apply Hlt in A. split; lra.
  - apply Hge in A.
    destruct (Qlt_bool (1 # 2) (y - inject_Z f)) eqn:B.
    + rewrite inject_Z_plus. change (inject_Z 1) with 1. split; lra.
    + apply Hge in B. destruct (Z.even f);
        [| rewrite inject_Z_plus; change (inject_Z 1) with 1]; split; lra.
Qed.

(** [fl x] is a multiple of the spacing at [x], at most half a spacing
    away from [x]. *)
Lemma fl_nearest (x : Q) :
  let ulp := Double.pow2 (Z.max (Double.exponent x) (-1022) - 52) in
  (exists k : Z, Double.fl x == inject_Z k * ulp)
  /\ Qabs (Double.fl x - x) <= ulp * (1 # 2).
Proof.
  intro ulp.
  pose proof (pow2_pos (Z.max (Double.exponent x) (-1022) - 52)) as Hp.
  unfold Double.fl. cbv zeta. fold ulp. fold ulp in Hp. clearbody ulp.
  destruct (Qeq_bool x 0) eqn:B.
  - apply Qeq_bool_iff in B. split.
    + exists 0%Z. ring.
    + assert (E : 0 - x == 0) by (rewrite B; ring).
      rewrite E. apply Qabs_Qle_condition. split; lra.
  - set (y := x / ulp).
    pose proof (roundEven_near y) as Hn.
    split; [eexists; reflexivity |].
    assert (E : inject_Z (Double.roundEven y) * ulp - x
                == (inject_Z (Double.roundEven y) - y) * ulp)
      by (unfold y; field; lra).
    rewrite E, Qabs_Qmult, (Qabs_pos ulp) by lra.
    rewrite (Qmult_comm ulp). apply Qmult_le_r; [exact Hp | exact Hn].
Qed.

Lemma Math_max_comp (a b a' b' : Q) :
  a == a' -> b == b' -> Math_max a b == Math_max a' b'.
Proof.
  intros Ea Eb.
  destruct (Math_max_spec a b) as [[H E] | [H E]]; rewrite E;
    destruct (Math_max_spec a' b') as [[H' E'] | [H' E']]; rewrite E'; lra.
Qed.

Lemma Math_min_comp (a b a' b' : Q) :
  a == a' -> b == b' -> Math_min a b == Math_min a' b'.
Proof.
  intros Ea Eb.
  destruct (Math_min_spec a b) as [[H E] | [H E]]; rewrite E;
    destruct (Math_min_spec a' b') as [[H' E'] | [H' E']]; rewrite E'; lra.
Qed.

Lemma constrain_comp (m m' b : MassRange) :
  Notions.sameRange m m' ->
  Notions.sameRange (constrain m b) (constrain m' b).
Proof.
  intros [Hmin Hmax]. unfold Notions.sameRange, constrain.
  cbn [Logic.min Logic.max].
  assert (E2 : Math_min (max m) (max b) == Math_min (max m') (max b))
    by (apply Math_min_comp; [exact Hmax | reflexivity]).
  split; [| exact E2].
  apply Math_min_comp; [| exact E2].
  apply Math_max_comp; [exact Hmin | reflexivity].
Qed.

(** On integers of magnitude at most [2^52] the two subtractions of
    [Action.applyToMass] are exact: the double computation and the rational
    one return the same interval, with or without a boundary state. *)
Lemma applyToMass_double_exact
    (TYPES : gmap string ShipData) (a : Action) (mlo mhi lo hi : Z)
    (w : option Wormhole) :
  getMass TYPES (ship a) = mkRange (inject_Z mlo) (inject_Z mhi) ->
  (Z.abs mlo <= 2 ^ 52)%Z -> (Z.abs mhi <= 2 ^ 52)%Z ->
  (Z.abs lo <= 2 ^ 52)%Z -> (Z.abs hi <= 2 ^ 52)%Z ->
  Notions.sameRange
    (Double.applyToMass TYPES a (mkRange (inject_Z lo) (inject_Z hi)) w)
    (applyToMass TYPES a (mkRange (inject_Z lo) (inject_Z hi)) w).
Proof.
  intros Hm Hmlo Hmhi Hlo Hhi.
  assert (Hsub : forall x y : Z,
             (Z.abs x <= 2 ^ 52)%Z -> (Z.abs y <= 2 ^ 52)%Z ->
             Math_max 0 (Double.sub (inject_Z x) (inject_Z y))
             == Math_max 0 (inject_Z x - inject_Z y)).
  { intros x y Hx Hy. apply Math_max_comp; [reflexivity |].
    rewrite sub_int by assumption.
    unfold Zminus. rewrite inject_Z_plus, inject_Z_opp. ring. }
  unfold Double.applyToMass, applyToMass. rewrite Hm.
  cbn [Logic.min Logic.max].
  assert (Hraw : Notions.sameRange
            (if Qeq_bool (inject_Z mlo) (inject_Z mhi)
             then mkRange
                    (Math_max 0 (Double.sub (inject_Z lo) (inject_Z mlo)))
                    (Math_max 0 (Double.sub (inject_Z hi) (inject_Z mlo)))
             else mkRange
                    (Math_max 0 (Double.sub (inject_Z lo) (inject_Z mhi)))
                    (Math_max 0 (Double.sub (inject_Z hi) (inject_Z mlo))))
            (if Qeq_bool (inject_Z mlo) (inject_Z mhi)
             then mkRange (Math_max 0 (inject_Z lo - inject_Z mlo))
                          (Math_max 0 (inject_Z hi - inject_Z mlo))
             else mkRange (Math_max 0 (inject_Z lo - inject_Z mhi))
                          (Math_max 0 (inject_Z hi - inject_Z mlo)))).
  { destruct (Qeq_bool _ _); split; cbn [Logic.min Logic.max];
      apply Hsub; assumption. }
  destruct w as [w |]; [apply constrain_comp |]; exact Hraw.
Qed.

(** Without integrality the double computation leaves the rational one: a
    custom mass typed as 0.1 takes [1, 2] to an interval of width
    [1 - 2^-53], although no bound is clamped. *)
Example custom_mass_rounding :
  let m := Double.parseFloat (1 # 10) in
  let r := Double.applyToMass SHIP_TYPES (mkAction (CustomMass m) dir_B)
             (mkRange 1 2) None in
  m <= 1
  /\ width r == 1 - (1 # 2 ^ 53)
  /\ ~ width r == width (mkRange 1 2)
  /\ width (applyToMass SHIP_TYPES (mkAction (CustomMass m) dir_B)
              (mkRange 1 2) None) == width (mkRange 1 2).
Proof.
  cbv zeta. repeat split; vm_compute; congruence.
Qed.

(** C3 (amended): for an interval with integer bounds [0 <= min <= max] and
    an exact-mass ship (cold, hot or custom mode) of integer mass [m], all
    of magnitude at most [2^52] so that the subtractions are exact in double
    precision, the raw application preserves the width if and only if no
    bound is clamped at zero ([m <= min]) or the interval is a single
    point. *)
Theorem C3_exact_preserves_width
    (TYPES : gmap string ShipData) s (m lo hi : Z) dir :
  ExactShip TYPES s (inject_Z m) ->
  (Z.abs m <= 2 ^ 52)%Z ->
  (0 <= lo)%Z -> (lo <= hi)%Z -> (hi <= 2 ^ 52)%Z ->
  let cur := mkRange (inject_Z lo) (inject_Z hi) in
  width (Double.applyToMass TYPES (mkAction s dir) cur None) == width cur
  <-> (m <= lo)%Z \/ lo = hi.
Proof.
  intros Hex Hm H0 Hord Hhi cur.
  destruct (getMass_exact _ _ _ Hex) as [Emin Emax].
  assert (Hmass : getMass TYPES (ship (mkAction s dir))
                  = mkRange (inject_Z m) (inject_Z m)).
  { cbn [ship]. destruct (getMass TYPES s) as [a b].
    cbn [Logic.min Logic.max] in Emin, Emax. now subst. }
  destruct (applyToMass_double_exact TYPES (mkAction s dir) m m lo hi None
              Hmass) as [Rmin Rmax]; try lia.
  fold cur in Rmin, Rmax.
  assert (Hw : width (Double.applyToMass TYPES (mkAction s dir) cur None)
               == width (applyToMass TYPES (mkAction s dir) cur None))
    by (unfold width; rewrite Rmin, Rmax; reflexivity).
  rewrite Hw, applyToMass_width_exact_iff;
    [| rewrite Hmass; reflexivity
     | unfold cur; cbn [Logic.min Logic.max]; rewrite <- Zle_Qle; exact Hord].
  rewrite Hmass. unfold cur. cbn [Logic.min Logic.max].
  rewrite <- Zle_Qle. split; (intros [H | H]; [now left | right]).
  - now apply inject_Z_injective.
  - now rewrite H.
Qed.

Lemma C3_exact_preserves_width_witness :
  width (Double.applyToMass SHIP_TYPES (mkAction (CustomMass 500) dir_B)
           (mkRange 2700 3300) None) == width (mkRange 2700 3300).
Proof.
  apply (C3_exact_preserves_width SHIP_TYPES (CustomMass 500) 500 2700 3300
           dir_B); first [apply exact_custom | lia | left; lia].
Defined.

(** ** State boundaries ([Wormhole.getStateBoundaries]) *)

Lemma Math_round_zero (x : Q) : Math_round (x * 0) = 0.
Proof.
  unfold Math_round.
  assert (E : x * 0 + (1 # 2) == 1 # 2) by ring.
  rewrite (Qfloor_comp _ _ E). reflexivity.
Qed.

(** C8: for every base capacity of [WORMHOLE_MASS_TYPES] and every state the
    boundaries are ordered ([min <= max]); the critical boundaries start at
    exactly 0 whatever the capacity; the boundaries of [gone] are exactly
    [-5000, 0]. *)
Theorem C8_state_boundaries :
  Forall (fun base =>
            forall s, min (getStateBoundaries (mkWormhole base s))
                      <= max (getStateBoundaries (mkWormhole base s)))
         WORMHOLE_MASS_TYPES
  /\ (forall base, min (getStateBoundaries (mkWormhole base critical)) = 0)
  /\ (forall base,
        getStateBoundaries (mkWormhole base gone) = mkRange (-5000) 0).
Proof.
  split; [| split].
  - unfold WORMHOLE_MASS_TYPES.
    repeat (apply Forall_cons; split; [intros []; vm_compute; discriminate |]).
    apply Forall_nil; exact I.
  - intro base. unfold getStateBoundaries. simpl. apply Math_round_zero.
  - intro base. reflexivity.
Qed.

(** C9: the fresh 3000 Gg display range is [2700, 3300]; an unknown
    battleship (cold 100, hot 150) applied without boundary state gives
    [2550, 3200], and a hot battleship (150 exactly) then gives
    [2400, 3050]. *)
Theorem C9_battleship_scenario :
  let fresh3000 := getCurrentMassRange (mkWormhole 3000 fresh) in
  let afterUnknown :=
    applyToMass SHIP_TYPES (mkAction (Ship "bs" mode_unknown) dir_A)
      fresh3000 None in
  let afterHot :=
    applyToMass SHIP_TYPES (mkAction (Ship "bs" mode_hot) dir_A)
      afterUnknown None in
  fresh3000 = mkRange 2700 3300
  /\ getMass SHIP_TYPES (Ship "bs" mode_unknown) = mkRange 100 150
  /\ getMass SHIP_TYPES (Ship "bs" mode_hot) = mkRange 150 150
  /\ afterUnknown = mkRange 2550 3200
  /\ afterHot = mkRange 2400 3050.
Proof.
  vm_compute. repeat split; reflexivity.
Qed.

(** ** Automatic state derivation ([GameMode.determineOutcome]) *)

Lemma WhState_eqb_eq (a b : WhState) : WhState_eqb a b = true <-> a = b.
Proof. destruct a, b; simpl; split; congruence. Qed.

Lemma determineOutcome_newState (u : UI) :
  newState (determineOutcome u) =
  let t := derivedState (remainingMass u) (initialActualMass u) in
  if WhState_eqb t gone then change_to gone
  else if WhState_eqb t (currentWhState u) then no_change
  else change_to t.
Proof.
  unfold determineOutcome, derivedState, percentRemaining.
  destruct (Qle_bool (remainingMass u) 0); [reflexivity |].
  destruct (Qle_bool (remainingMass u / initialActualMass u * 100) 10);
    [destruct (currentWhState u); reflexivity |].
  destruct (Qle_bool (remainingMass u / initialActualMass u * 100) 50);
    destruct (currentWhState u); reflexivity.
Qed.

Lemma determineOutcome_state (u : UI) :
  currentWhState (applyOutcomeState (determineOutcome u) u)
  = derivedState (remainingMass u) (initialActualMass u).
Proof.
  unfold applyOutcomeState. rewrite determineOutcome_newState. simpl.
  destruct (derivedState (remainingMass u) (initialActualMass u));
    simpl; try reflexivity;
    destruct (currentWhState u) eqn:Ec; simpl; first [reflexivity | exact Ec].
Qed.

Lemma derivedState_spec (rem orig : Q) :
  0 < orig ->
  (rem <= 0 -> derivedState rem orig = gone)
  /\ (0 < rem -> percentRemaining rem orig <= 10 ->
      derivedState rem orig = critical)
  /\ (10 < percentRemaining rem orig -> percentRemaining rem orig <= 50 ->
      derivedState rem orig = destab)
  /\ (50 < percentRemaining rem orig -> derivedState rem orig = stable).
Proof.
  intro Hpos.
  assert (Hneg : rem <= 0 -> percentRemaining rem orig <= 0).
  { intro Hr. unfold percentRemaining.
    assert (rem / orig <= 0) by (apply Qle_shift_div_r; [exact Hpos | lra]).
    lra. }
  unfold derivedState.
  destruct (Qle_bool rem 0) eqn:E0.
  - apply Qle_bool_iff in E0. specialize (Hneg E0).
    repeat split; intros; solve [reflexivity | exfalso; lra].
  - assert (H0 : ~ rem <= 0)
      by (intro H; apply Qle_bool_iff in H; congruence).
    destruct (Qle_bool (percentRemaining rem orig) 10) eqn:E1.
    + apply Qle_bool_iff in E1.
      repeat split; intros; solve [reflexivity | exfalso; lra].
    + assert (H1 : ~ percentRemaining rem orig <= 10)
        by (intro H; apply Qle_bool_iff in H; congruence).
      destruct (Qle_bool (percentRemaining rem orig) 50) eqn:E2.
      * apply Qle_bool_iff in E2.
        repeat split; intros; solve [reflexivity | exfalso; lra].
      * assert (H2 : ~ percentRemaining rem orig <= 50)
          by (intro H; apply Qle_bool_iff in H; congruence).
        repeat split; intros; solve [reflexivity | exfalso; lra].
Qed.

(** C4, as stated, fails: in a fresh 3000 Gg game with all of the capacity
    left the derived state is [stable], the state the session is already in,
    and [determineOutcome] returns ['no-change'], not the state. *)
Lemma C4_returns_no_change_counterexample :
  ~ (forall u : UI,
        0 < initialActualMass u ->
        newState (determineOutcome u)
        = change_to (derivedState (remainingMass u) (initialActualMass u))).
Proof.
  intro H.
  assert (E : newState (determineOutcome Sample.game3000)
              = change_to (derivedState (remainingMass Sample.game3000)
                             (initialActualMass Sample.game3000)))
    by (apply H; vm_compute; reflexivity).
  vm_compute in E. discriminate E.
Qed.

(** C4 (amended): with [percentRemaining = remainingMass /
    initialActualMass * 100], the state derived by [determineOutcome] is
    [gone] when [remainingMass <= 0], [critical] when [percentRemaining <=
    10], [destab] when [percentRemaining <= 50] and [stable] otherwise.  The
    collapse outcome is returned whenever [remainingMass <= 0], whatever the
    prior state.  Otherwise the returned [newState] is the derived state
    when it differs from the current state and ['no-change'] when it equals
    it, so that the session state after the update is exactly the derived
    state. *)
Theorem C4_determineOutcome (u : UI) :
  0 < initialActualMass u ->
  let rem := remainingMass u in
  let pct := percentRemaining (remainingMass u) (initialActualMass u) in
  let t := currentWhState (applyOutcomeState (determineOutcome u) u) in
  (rem <= 0 -> t = gone
               /\ determineOutcome u = mkOutcome (change_to gone) type_collapse)
  /\ (0 < rem -> pct <= 10 -> t = critical)
  /\ (10 < pct -> pct <= 50 -> t = destab)
  /\ (50 < pct -> t = stable)
  /\ (0 < rem ->
      newState (determineOutcome u)
      = if WhState_eqb t (currentWhState u) then no_change else change_to t).
Proof.
  intros Hpos rem pct t. subst rem pct t.
  rewrite determineOutcome_state.
  destruct (derivedState_spec (remainingMass u) (initialActualMass u) Hpos)
    as (Hgone & Hcrit & Hdestab & Hstable).
  split; [| split; [| split; [| split]]]; auto.
  - intro Hr. split; [auto |].
    unfold determineOutcome. apply Qle_bool_iff in Hr. now rewrite Hr.
  - intro Hr. rewrite determineOutcome_newState. simpl.
    destruct (derivedState (remainingMass u) (initialActualMass u)) eqn:Ed;
      try reflexivity.
    revert Ed. unfold derivedState.
    destruct (Qle_bool (remainingMass u) 0) eqn:E0;
      [apply Qle_bool_iff in E0; lra |].
    repeat (destruct (Qle_bool _ _)); discriminate.
Qed.

Lemma C4_determineOutcome_witness :
  0 < initialActualMass (set_remainingMass 1200 Sample.game3000)
  /\ currentWhState
       (applyOutcomeState
          (determineOutcome (set_remainingMass 1200 Sample.game3000))
          (set_remainingMass 1200 Sample.game3000)) = destab.
Proof.
  assert (Hpos : 0 < initialActualMass (set_remainingMass 1200 Sample.game3000))
    by (vm_compute; reflexivity).
  split; [exact Hpos |].
  apply (C4_determineOutcome (set_remainingMass 1200 Sample.game3000) Hpos);
    vm_compute; first [reflexivity | discriminate].
Defined.

(** ** Frame properties of the session operations *)

Lemma sameLedger_refl u : sameLedger u u.
Proof. repeat split. Qed.

Lemma sameLedger_trans u v w :
  sameLedger u v -> sameLedger v w -> sameLedger u w.
Proof.
  intros (a1 & a2 & a3 & a4 & a5 & a6) (b1 & b2 & b3 & b4 & b5 & b6).
  repeat split; congruence.
Qed.

Lemma applyOutcomeState_ledger o u : sameLedger u (applyOutcomeState o u).
Proof. unfold applyOutcomeState. destruct (newState o); repeat split. Qed.

Lemma set_remainingMass_ledger v u : sameLedger u (set_remainingMass v u).
Proof. repeat split. Qed.

Lemma eventLoop_ledger TYPES o todo :
  forall i u r, sameLedger u (fst (eventLoop TYPES o i todo u r)).
Proof.
  induction todo as [| eventAction rest IH]; intros i u r; simpl.
  - apply sameLedger_refl.
  - destruct (WhState_eqb (currentWhState u) gone); [apply sameLedger_refl |].
    set (u1 := set_remainingMass _ u).
    assert (H2 : sameLedger u (applyOutcomeState (determineOutcome u1) u1)).
    { eapply sameLedger_trans;
        [apply set_remainingMass_ledger | apply applyOutcomeState_ledger]. }
    destruct (isGone (newState (determineOutcome u1))); simpl; [exact H2 |].
    eapply sameLedger_trans; [exact H2 | apply IH].
Qed.

(** What [processRandomEventAsAction] leaves behind: one more log entry,
    of type ['event'], the flag raised, the far-side map as it was. *)
Lemma processRandomEventAsAction_effect TYPES u event o :
  let u' := processRandomEventAsAction TYPES u event o in
  (exists entry,
      committedActions u' = committedActions u ++ [entry]
      /\ entry_type entry = kind_event
      /\ eventData entry = Some event
      /\ entry_shipsOnFarSide entry = shipsOnFarSide u)
  /\ shipsOnFarSide u' = shipsOnFarSide u
  /\ randomEventOccurred u' = true
  /\ currentMode u' = currentMode u
  /\ consoleErrors u' = consoleErrors u.
Proof.
  unfold processRandomEventAsAction.
  set (u0 := set_randomEventOccurred true u).
  pose proof (eventLoop_ledger TYPES o (ev_actions event) 0 u0
                (mkEventRun [] 0 (calculateCurrentMass u0) false no_change))
    as (Hc & Hs & Hf & Hm & _ & He).
  destruct (eventLoop TYPES o 0 (ev_actions event) u0 _) as [u1 r].
  simpl in Hc, Hs, Hf, Hm, He. simpl.
  match goal with
  | |- context [if ?b then _ else _] => destruct b
  end; simpl; rewrite ?Hc, ?Hs, ?Hf, ?Hm, ?He; simpl;
    (split; [eexists; repeat split | repeat split]).
Qed.

Lemma consistencyCheck_effect o d u :
  let u' := consistencyCheck o d u in
  committedActions u' = committedActions u
  /\ shipsOnFarSide u' = shipsOnFarSide u
  /\ randomEventOccurred u' = randomEventOccurred u
  /\ currentMode u' = currentMode u.
Proof.
  unfold consistencyCheck.
  repeat match goal with
         | |- context [if ?b then _ else _] => destruct b
         end; repeat split.
Qed.

(** What the resolution of a player action leaves behind. *)
Lemma resolveAction_effect TYPES u d s o :
  let u' := resolveAction TYPES u d s o in
  (exists entry,
      committedActions u' = committedActions u ++ [entry]
      /\ entry_type entry = kind_normal)
  /\ shipsOnFarSide u' = trackFarSide d s (shipsOnFarSide u)
  /\ randomEventOccurred u' = randomEventOccurred u
  /\ currentMode u' = currentMode u.
Proof.
  unfold resolveAction.
  set (u1 := set_remainingMass _ u).
  set (u2 := set_shipsOnFarSide _ u1).
  set (out := determineOutcome u2).
  pose proof (applyOutcomeState_ledger out u2) as (Hc & Hs & Hf & Hm & _).
  set (u3 := applyOutcomeState out u2) in *.
  set (shown := if isGone (newState out) then _ else _).
  set (u4 := set_committedActions _ u3).
  set (u5 := if isGone (newState out) then _ else _).
  pose proof (consistencyCheck_effect out shown u5) as (Kc & Ks & Kf & Km).
  simpl. rewrite Kc, Ks, Kf, Km. subst u5.
  destruct (isGone (newState out)); simpl; rewrite Hc, Hs, Hf, Hm; simpl;
    (split; [eexists; repeat split | repeat split]).
Qed.

Lemma checkForRandomEvents_blocked EVENTS u o :
  randomEventOccurred u = true -> checkForRandomEvents EVENTS u o = [].
Proof.
  intro H. unfold checkForRandomEvents. rewrite H.
  now destruct (negb _).
Qed.

(** The two ways [processRandomEventsAfterAction] can end. *)
Lemma processRandomEventsAfterAction_cases TYPES EVENTS u o :
  processRandomEventsAfterAction TYPES EVENTS u o = u
  \/ (randomEventOccurred u = false
      /\ exists event,
           In event (List.filter (eventFits TYPES (initialWhRestriction u))
                       (checkForRandomEvents EVENTS u o))
           /\ processRandomEventsAfterAction TYPES EVENTS u o
              = processRandomEventAsAction TYPES u event o).
Proof.
  unfold processRandomEventsAfterAction.
  destruct (negb _ || _); [now left |].
  destruct (Nat.ltb 0 (length (checkForRandomEvents EVENTS u o))) eqn:El;
    [| now left].
  destruct (Nat.ltb 0 (length (List.filter _ _))); [| now left].
  destruct (_ !! _) as [event |] eqn:Ek; [| now left].
  right. split.
  - destruct (randomEventOccurred u) eqn:Ef; [| reflexivity].
    rewrite (checkForRandomEvents_blocked _ _ _ Ef) in El. discriminate El.
  - exists event. split; [| reflexivity].
    apply list_elem_of_In. eapply list_elem_of_lookup_2. exact Ek.
Qed.

Lemma eventsExecuted_snoc u u' entry :
  committedActions u' = committedActions u ++ [entry] ->
  eventsExecuted u' =
  (eventsExecuted u + if isEvent entry then 1 else 0)%nat.
Proof.
  intro H. unfold eventsExecuted. rewrite H, List.filter_app, length_app.
  simpl. now destruct (isEvent entry).
Qed.

(** ** The far-side ledger and random events *)

(** C10: executing a random event leaves the far-side fleet ledger as it
    was (and the snapshot stored with the event entry is that same map),
    whereas the resolution of a player action updates it with
    [trackFarSide]: an outgoing ship of a known type is counted, an incoming
    one is discounted. *)
Theorem C10_event_keeps_far_side
    (TYPES : gmap string ShipData) (u : UI) (event : RandomEvent)
    (o : Oracle) :
  shipsOnFarSide (processRandomEventAsAction TYPES u event o)
  = shipsOnFarSide u
  /\ (exists entry,
        last (committedActions (processRandomEventAsAction TYPES u event o))
        = Some entry
        /\ entry_shipsOnFarSide entry = shipsOnFarSide u)
  /\ hasStrandedShips
       (shipsOnFarSide (processRandomEventAsAction TYPES u event o))
     = hasStrandedShips (shipsOnFarSide u)
  /\ (forall d s o',
        shipsOnFarSide (resolveAction TYPES u d s o')
        = trackFarSide d s (shipsOnFarSide u)).
Proof.
  destruct (processRandomEventAsAction_effect TYPES u event o)
    as ((entry & Hlog & _ & _ & Hsnap) & Hfar & _).
  repeat split.
  - exact Hfar.
  - exists entry. split; [| exact Hsnap]. rewrite Hlog. apply last_snoc.
  - now rewrite Hfar.
  - intros d s o'. apply resolveAction_effect.
Qed.

(** ** The one-shot cap on random events *)

Lemma handleAddAction_events TYPES EVENTS u d s o :
  let u' := handleAddAction TYPES EVENTS u d s o in
  (randomEventOccurred u = true ->
   randomEventOccurred u' = true /\ eventsExecuted u' = eventsExecuted u)
  /\ (randomEventOccurred u = false ->
      (randomEventOccurred u' = false /\ eventsExecuted u' = eventsExecuted u)
      \/ (randomEventOccurred u' = true
          /\ eventsExecuted u' = S (eventsExecuted u))).
Proof.
  unfold handleAddAction.
  destruct (resolveAction_effect TYPES u d s o)
    as ((e1 & Hlog1 & Hk1) & _ & Hf1 & _).
  set (v := resolveAction TYPES u d s o) in *.
  assert (Hn : eventsExecuted v = eventsExecuted u).
  { rewrite (eventsExecuted_snoc u v e1 Hlog1). unfold isEvent.
    rewrite Hk1. lia. }
  destruct (processRandomEventsAfterAction_cases TYPES EVENTS v o)
    as [Hsame | (Hflag & event & _ & Hrun)]; simpl.
  - rewrite Hsame, Hf1, Hn. split; intro E; [| left]; auto.
  - rewrite Hrun.
    destruct (processRandomEventAsAction_effect TYPES v event o)
      as ((e2 & Hlog2 & Hk2 & _) & _ & Hf2 & _).
    rewrite Hf2.
    rewrite (eventsExecuted_snoc v _ e2 Hlog2). unfold isEvent.
    rewrite Hk2, Hn. split; intro E.
    + congruence.
    + right. split; [reflexivity | lia].
Qed.

Lemma playAll_events TYPES EVENTS steps :
  forall u,
    (eventsExecuted u <= 1)%nat ->
    (randomEventOccurred u = false -> eventsExecuted u = 0%nat) ->
    (eventsExecuted (playAll TYPES EVENTS u steps) <= 1)%nat.
Proof.
  induction steps as [| [[d s] o] rest IH]; intros u Hle Hzero; simpl.
  - exact Hle.
  - destruct (handleAddAction_events TYPES EVENTS u d s o) as [Ht Hf].
    simpl in Ht, Hf.
    apply IH.
    + destruct (randomEventOccurred u) eqn:E.
      * destruct (Ht eq_refl) as [_ Hn]. lia.
      * specialize (Hzero eq_refl).
        destruct (Hf eq_refl) as [[_ Hn] | [_ Hn]]; lia.
    + intro E'. destruct (randomEventOccurred u) eqn:E.
      * destruct (Ht eq_refl) as [Hb _]. congruence.
      * specialize (Hzero eq_refl).
        destruct (Hf eq_refl) as [[_ Hn] | [Hb _]]; [lia | congruence].
Qed.

Lemma startTracking_log u whSize whState whRestriction r1 r2 :
  committedActions (startTracking u whSize whState whRestriction r1 r2)
  = committedActions u.
Proof.
  unfold startTracking. simpl. now destruct (Mode_eqb (currentMode u) gameMode).
Qed.

Lemma session_events TYPES EVENTS u whSize whState whRestriction r1 r2 steps :
  committedActions u = [] ->
  (eventsExecuted
     (playAll TYPES EVENTS
        (startTracking u whSize whState whRestriction r1 r2) steps) <= 1)%nat.
Proof.
  intro Hlog.
  assert (H0 : eventsExecuted
                 (startTracking u whSize whState whRestriction r1 r2) = 0%nat)
    by (unfold eventsExecuted; now rewrite startTracking_log, Hlog).
  apply playAll_events; [lia | auto].
Qed.

(** C5: whatever the ship table, the event table (probabilities equal to 1
    included), the set-up and the sequence of player actions and draws, a
    session started on a new page or after a reset executes at most one
    random event.  Once [randomEventOccurred] is true,
    [checkForRandomEvents] returns no event, and a further player action
    neither executes an event nor lowers the flag. *)
Theorem C5_at_most_one_event
    (TYPES : gmap string ShipData) (EVENTS : list RandomEvent) :
  (forall mode fleet whSize whState whRestriction r1 r2 steps,
      (eventsExecuted
         (playAll TYPES EVENTS
            (startTracking (newUI mode fleet) whSize whState
               whRestriction r1 r2) steps) <= 1)%nat)
  /\ (forall old whSize whState whRestriction r1 r2 steps,
        (eventsExecuted
           (playAll TYPES EVENTS
              (startTracking (resetAll old) whSize whState
                 whRestriction r1 r2) steps) <= 1)%nat)
  /\ (forall u o,
        randomEventOccurred u = true ->
        checkForRandomEvents EVENTS u o = []
        /\ processRandomEventsAfterAction TYPES EVENTS u o = u)
  /\ (forall u d s o,
        randomEventOccurred u = true ->
        randomEventOccurred (handleAddAction TYPES EVENTS u d s o) = true
        /\ eventsExecuted (handleAddAction TYPES EVENTS u d s o)
           = eventsExecuted u).
Proof.
  split; [| split; [| split]].
  - intros. now apply session_events.
  - intros. now apply session_events.
  - intros u o H. split; [now apply checkForRandomEvents_blocked |].
    destruct (processRandomEventsAfterAction_cases TYPES EVENTS u o)
      as [E | (E & _)]; [exact E | congruence].
  - intros u d s o H.
    now apply (handleAddAction_events TYPES EVENTS u d s o).
Qed.

Lemma C5_at_most_one_event_witness :
  let u := handleAddAction Sample.sizedShips Sample.sureEvents Sample.game3000
             dir_B (Ship "bs" mode_hot) (Sample.draws (1 # 2)) in
  randomEventOccurred u = true
  /\ eventsExecuted u = 1%nat
  /\ eventsExecuted
       (handleAddAction Sample.sizedShips Sample.sureEvents u dir_A
          (Ship "bs" mode_hot) (Sample.draws 0)) = eventsExecuted u.
Proof.
  intro u.
  assert (Hflag : randomEventOccurred u = true) by (vm_compute; reflexivity).
  split; [exact Hflag |]. split; [vm_compute; reflexivity |].
  apply (C5_at_most_one_event Sample.sizedShips Sample.sureEvents).
  exact Hflag.
Defined.

(** ** Selection of the event to execute *)

Lemma shipFits_spec TYPES restriction a :
  shipFits TYPES restriction a = true <->
  exists d s, TYPES !! shipType a = Some d /\ size d = Some s
              /\ (s <= restriction)%Z.
Proof.
  unfold shipFits. split.
  - destruct (TYPES !! shipType a) as [d |]; [| discriminate].
    destruct (size d) as [s |] eqn:Es; [| discriminate].
    intro H. exists d, s. repeat split; auto. now apply Z.leb_le.
  - intros (d & s & Hd & Hs & Hle). rewrite Hd, Hs. now apply Z.leb_le.
Qed.

Lemma eventFits_spec TYPES restriction event :
  eventFits TYPES restriction event = true <->
  withinRestriction TYPES restriction event.
Proof.
  unfold eventFits, withinRestriction. rewrite forallb_forall.
  split; intros H a Ha; apply shipFits_spec; auto.
Qed.

(** [Math.floor(r * n)] for a draw [r] of [0, 1) is an index below [n], and
    it equals [i] exactly on the draws of the interval [i/n, (i+1)/n): the
    [n] indices have preimages of the same length [1/n]. *)
Lemma randomIndex_spec (o : Oracle) (n : nat) :
  (0 < n)%nat -> 0 <= pick o -> pick o < 1 ->
  (randomIndex o n < n)%nat
  /\ forall i : nat,
       randomIndex o n = i <->
       inject_Z (Z.of_nat i) / inject_Z (Z.of_nat n) <= pick o
       /\ pick o < (inject_Z (Z.of_nat i) + 1) / inject_Z (Z.of_nat n).
Proof.
  intros Hn H0 H1. unfold randomIndex.
  set (N := inject_Z (Z.of_nat n)).
  assert (HN : 0 < N).
  { unfold N. change 0 with (inject_Z 0). rewrite <- Zlt_Qlt. lia. }
  assert (HNz : ~ N == 0) by lra.
  set (x := pick o * N).
  assert (Hx0 : 0 <= x) by (unfold x; apply Qmult_le_0_compat; lra).
  assert (HxN : x < N).
  { assert (pick o * N < 1 * N) by (apply Qmult_lt_compat_r; assumption).
    unfold x. lra. }
  pose proof (Qfloor_le x) as Hfl.
  pose proof (Qlt_floor x) as Hfu.
  assert (Hz0 : (0 <= Qfloor x)%Z).
  { change 0%Z with (Qfloor 0). now apply Qfloor_resp_le. }
  assert (HzN : (Qfloor x < Z.of_nat n)%Z).
  { rewrite Zlt_Qlt. fold N. lra. }
  split; [lia |].
  intro i.
  assert (Hdiv : forall a : Q, a / N * N == a)
    by (intro a; field; exact HNz).
  split.
  - intro E.
    assert (Ez : Qfloor x = Z.of_nat i) by lia.
    rewrite Ez in Hfl, Hfu. rewrite inject_Z_plus in Hfu.
    change (inject_Z 1) with 1 in Hfu. split.
    + apply Qle_shift_div_r; [exact HN | exact Hfl].
    + apply Qlt_shift_div_l; [exact HN | exact Hfu].
  - intros [Hlo Hhi].
    assert (Hlo' : inject_Z (Z.of_nat i) <= x).
    { rewrite <- (Hdiv (inject_Z (Z.of_nat i))). unfold x.
      apply Qmult_le_compat_r; lra. }
    assert (Hhi' : x < inject_Z (Z.of_nat i) + 1).
    { rewrite <- (Hdiv (inject_Z (Z.of_nat i) + 1)). unfold x.
      apply Qmult_lt_compat_r; lra. }
    assert (Ez : Qfloor x = Z.of_nat i).
    { assert (Z.of_nat i <= Qfloor x)%Z.
      { rewrite <- (Qfloor_Z (Z.of_nat i)). now apply Qfloor_resp_le. }
      assert (Qfloor x < Z.of_nat i + 1)%Z.
      { rewrite Zlt_Qlt. rewrite inject_Z_plus.
        change (inject_Z 1) with 1. lra. }
      lia. }
    lia.
Qed.

(** C7: in a running game ([remainingMass > 0]) the events that may be
    executed after a player action are the triggered events all of whose
    sub-actions use a ship whose size class is at most the restriction
    level; a triggered event with a sub-action whose
    ship exceeds the restriction is discarded; when no valid event remains
    nothing is executed; otherwise the event at index [floor (pick * n)] of
    the [n] valid events is executed, and each index is selected by the
    draws of an interval of length [1/n]. *)
Theorem C7_event_selection
    (TYPES : gmap string ShipData) (EVENTS : list RandomEvent)
    (u : UI) (o : Oracle) :
  currentMode u = gameMode -> 0 < remainingMass u ->
  0 <= pick o -> pick o < 1 ->
  let triggered := checkForRandomEvents EVENTS u o in
  let valid :=
    List.filter (eventFits TYPES (initialWhRestriction u)) triggered in
  let n := length valid in
  (forall e, In e valid <->
             In e triggered /\ withinRestriction TYPES (initialWhRestriction u) e)
  /\ (forall e a d s,
        In e triggered -> In a (ev_actions e) ->
        TYPES !! shipType a = Some d -> size d = Some s ->
        (initialWhRestriction u < s)%Z -> ~ In e valid)
  /\ (valid = [] -> processRandomEventsAfterAction TYPES EVENTS u o = u)
  /\ (valid <> [] ->
      exists e entry,
        valid !! randomIndex o n = Some e
        /\ processRandomEventsAfterAction TYPES EVENTS u o
           = processRandomEventAsAction TYPES u e o
        /\ committedActions (processRandomEventsAfterAction TYPES EVENTS u o)
           = committedActions u ++ [entry]
        /\ eventData entry = Some e)
  /\ (forall i : nat,
        (i < n)%nat ->
        (randomIndex o n = i <->
         inject_Z (Z.of_nat i) / inject_Z (Z.of_nat n) <= pick o
         /\ pick o < (inject_Z (Z.of_nat i) + 1) / inject_Z (Z.of_nat n))).
Proof.
  intros Hmode Hrem H0 H1 triggered valid n.
  assert (Hvalid : forall e, In e valid <->
             In e triggered
             /\ withinRestriction TYPES (initialWhRestriction u) e).
  { intro e. unfold valid. rewrite filter_In, eventFits_spec. tauto. }
  split; [exact Hvalid |]. split; [| split; [| split]].
  - intros e a d s He Ha Hd Hs Hlt Hin.
    apply Hvalid in Hin. destruct Hin as [_ Hw].
    destruct (Hw a Ha) as (d' & s' & Hd' & Hs' & Hle).
    rewrite Hd in Hd'. injection Hd' as <-. rewrite Hs in Hs'.
    injection Hs' as <-. lia.
  - intro Hnil. unfold processRandomEventsAfterAction.
    destruct (negb _ || _); [reflexivity |].
    destruct (Nat.ltb 0 (length (checkForRandomEvents EVENTS u o)));
      [| reflexivity].
    fold triggered. fold valid. now rewrite Hnil.
  - intro Hne.
    assert (Hn : (0 < n)%nat).
    { unfold n. destruct valid; [congruence | simpl; lia]. }
    destruct (randomIndex_spec o n Hn H0 H1) as [Hidx _].
    destruct (lookup_lt_is_Some_2 valid (randomIndex o n) Hidx) as [e He].
    assert (Hrun : processRandomEventsAfterAction TYPES EVENTS u o
                   = processRandomEventAsAction TYPES u e o).
    { unfold processRandomEventsAfterAction. rewrite Hmode. simpl.
      destruct (Qle_bool (remainingMass u) 0) eqn:E0;
        [apply Qle_bool_iff in E0; lra |].
      fold triggered.
      assert (Ht : Nat.ltb 0 (length triggered) = true).
      { apply Nat.ltb_lt. destruct triggered; [| simpl; lia].
        simpl in valid. unfold valid in Hne. congruence. }
      rewrite Ht. fold valid. fold n.
      assert (Hv : Nat.ltb 0 n = true) by now apply Nat.ltb_lt.
      rewrite Hv, He. reflexivity. }
    destruct (processRandomEventAsAction_effect TYPES u e o)
      as ((entry & Hlog & _ & Hdata & _) & _).
    exists e, entry. rewrite Hrun. auto.
  - intros i Hi. apply randomIndex_spec; auto. lia.
Qed.

Lemma C7_event_selection_witness :
  let u := resolveAction Sample.sizedShips Sample.game3000 dir_B
             (Ship "bs" mode_hot) (Sample.draws (1 # 2)) in
  checkForRandomEvents Sample.sureEvents u (Sample.draws (1 # 2))
  = [Sample.cruiserJump; Sample.carrierJump]
  /\ ~ In Sample.carrierJump
        (List.filter (eventFits Sample.sizedShips (initialWhRestriction u))
           (checkForRandomEvents Sample.sureEvents u (Sample.draws (1 # 2)))).
Proof.
  intro u. split; [vm_compute; reflexivity |].
  assert (Hmode : currentMode u = gameMode) by (vm_compute; reflexivity).
  assert (Hrem : 0 < remainingMass u) by (vm_compute; reflexivity).
  assert (Hp0 : 0 <= pick (Sample.draws (1 # 2))) by (vm_compute; discriminate).
  assert (Hp1 : pick (Sample.draws (1 # 2)) < 1) by (vm_compute; reflexivity).
  destruct (C7_event_selection Sample.sizedShips Sample.sureEvents u
              (Sample.draws (1 # 2)) Hmode Hrem Hp0 Hp1)
    as (_ & Hdiscard & _).
  apply (Hdiscard Sample.carrierJump (mkEventAction "carrier" "outgoing")
           (mkShipData "Carrier" 1250 1750 (Some 5%Z)) 5%Z).
  - vm_compute. tauto.
  - simpl. tauto.
  - vm_compute. reflexivity.
  - reflexivity.
  - vm_compute. reflexivity.
Defined.

(** ** Tracker mode: committing the staged queue *)




Lemma commitStep_fold TYPES (l : list Action) :
  forall acc far,
    fst (fold_left (commitStep TYPES) l (acc, far))
    == acc + Qsum (map (passedMassEstimate TYPES) l).
Proof.
  induction l as [| a rest IH]; intros acc far; simpl.
  - ring.
  - unfold commitStep at 2. simpl. rewrite IH.
    unfold passedMassEstimate at 2.
    destruct (Qeq_bool _ _); ring.
Qed.

Lemma calculateCurrentMass_snoc u l e m :
  committedActions u = l ++ [e] -> finalMass e = Some m ->
  calculateCurrentMass u = m.
Proof.
  intros Hl Hm. unfold calculateCurrentMass.
  rewrite Hl, fold_left_app. simpl. now rewrite Hm.
Qed.

Lemma commitStagingToLog_effect TYPES u acts sc final :
  exists entry passed,
    committedActions (commitStagingToLog TYPES u acts sc final)
    = committedActions u ++ [entry]
    /\ actions entry = acts
    /\ stateChange entry = sc
    /\ finalMass entry = Some final
    /\ passedMass entry = Some passed
    /\ passed == Qsum (map (passedMassEstimate TYPES) acts)
    /\ stagedActions (commitStagingToLog TYPES u acts sc final)
       = stagedActions u.
Proof.
  unfold commitStagingToLog.
  pose proof (commitStep_fold TYPES acts 0 (shipsOnFarSide u)) as Hsum.
  destruct (fold_left (commitStep TYPES) acts (0, shipsOnFarSide u))
    as [entryPassedMass far].
  simpl in Hsum. eexists. exists entryPassedMass. simpl.
  repeat split. rewrite Hsum. ring.
Qed.



(** ** The consistency invariant of a game session *)

Lemma handleAddAction_keeps_errors TYPES EVENTS u d s o :
  consoleErrors (handleAddAction TYPES EVENTS u d s o)
  = consoleErrors (resolveAction TYPES u d s o).
Proof.
  unfold handleAddAction.
  destruct (processRandomEventsAfterAction_cases TYPES EVENTS
              (resolveAction TYPES u d s o) o)
    as [E | (_ & event & _ & E)]; rewrite E; [reflexivity |].
  apply processRandomEventAsAction_effect.
Qed.

Lemma handleAddAction_no_events TYPES u d s o :
  handleAddAction TYPES [] u d s o = resolveAction TYPES u d s o.
Proof.
  unfold handleAddAction.
  generalize (resolveAction TYPES u d s o). intro v.
  unfold processRandomEventsAfterAction, checkForRandomEvents.
  destruct (negb (Mode_eqb (currentMode v) gameMode)); simpl;
    [reflexivity |].
  destruct (Qle_bool (remainingMass v) 0); [reflexivity |].
  destruct (randomEventOccurred v); reflexivity.
Qed.

(** A session whose state is not [gone] and whose hidden mass is below the
    displayed minimum is not consistent. *)
Lemma below_display_inconsistent (u : UI) :
  WhState_eqb (currentWhState u) gone = false ->
  Qlt_bool (remainingMass u) (min (calculateCurrentMass u)) = true ->
  ~ consistent u.
Proof.
  intros Hs Hlt Hc. apply Qlt_bool_iff in Hlt.
  destruct Hc as [Hlo _].
  - intro E. rewrite E in Hs. discriminate Hs.
  - lra.
Qed.

(** C1 (the code breaks the invariant): a 750 Gg game started in state
    [stable] with the draws [r1 = 0] (original capacity 675 Gg) and
    [r2 = 0] hides [floor (675 / 2) = 337] Gg while the display starts at
    [round (675 / 2) = 338].  After one cold cruiser (13 Gg) the hidden mass
    is 324 Gg, the derived state is [destab] and the displayed interval is
    [325, 413]: the hidden mass lies below the displayed minimum, and the
    consistency check of [handleAddAction] itself reports the error,
    whatever the events table and the other draws. *)
Theorem C1_consistency_violated :
  let u0 := startTracking (newUI gameMode ∅) 750 stable 3 0 0 in
  let step := fun EVENTS o =>
    handleAddAction SHIP_TYPES EVENTS u0 dir_B (Ship "cruiser" mode_cold) o in
  initialActualMass u0 = 675
  /\ remainingMass u0 = 337
  /\ calculateCurrentMass u0 = mkRange 338 825
  /\ ~ consistent u0
  /\ (forall o,
        currentWhState (step [] o) = destab
        /\ remainingMass (step [] o) == 324
        /\ calculateCurrentMass (step [] o) = mkRange 325 413
        /\ ~ consistent (step [] o))
  /\ (forall EVENTS o,
        consoleErrors (step EVENTS o)
        = [OutsideDisplayedRange 324 (mkRange 325 413)]).
Proof.
  intros u0 step.
  split; [vm_compute; reflexivity |].
  split; [vm_compute; reflexivity |].
  split; [vm_compute; reflexivity |].
  split; [apply below_display_inconsistent; vm_compute; reflexivity |].
  split.
  - intro o. unfold step. rewrite handleAddAction_no_events.
    split; [vm_compute; reflexivity |].
    split; [vm_compute; reflexivity |].
    split; [vm_compute; reflexivity |].
    apply below_display_inconsistent; vm_compute; reflexivity.
  - intros EVENTS o. unfold step. rewrite handleAddAction_keeps_errors.
    vm_compute; reflexivity.
Qed.

(** The same invariant is broken on a 3000 Gg wormhole by the event path:
    the event loop clamps the displayed interval with the boundaries of the
    state held before the sub-action, and derives the new state only
    afterwards.  Game started [stable] with 2700 Gg capacity and 1400 Gg
    left; a cold cruiser leaves 1387 Gg (still [stable], displayed
    [1350, 3287]); the cruiser event then takes 63 Gg twice. *)
Example event_path_violation :
  let u0 := startTracking (newUI gameMode ∅) 3000 stable 3 0 (1 # 27) in
  let u1 := resolveAction Sample.sizedShips u0 dir_B
              (Ship "cruiser" mode_cold) Sample.heavyDraws in
  let u2 := handleAddAction Sample.sizedShips [Sample.cruiserJump] u0 dir_B
              (Ship "cruiser" mode_cold) Sample.heavyDraws in
  (currentWhState u1 = stable /\ remainingMass u1 == 1387
   /\ calculateCurrentMass u1 = mkRange 1350 3287)
  /\ currentWhState u2 = destab
  /\ remainingMass u2 == 1261
  /\ calculateCurrentMass u2 = mkRange 1287 1650
  /\ consoleErrors u2 = []
  /\ ~ consistent u2.
Proof.
  intros u0 u1 u2.
  split; [repeat split; vm_compute; reflexivity |].
  split; [vm_compute; reflexivity |].
  split; [vm_compute; reflexivity |].
  split; [vm_compute; reflexivity |].
  split; [vm_compute; reflexivity |].
  apply below_display_inconsistent; vm_compute; reflexivity.
Qed.

(** * Further properties of the code *)

Import Setup Notions.

(** ** Interval arithmetic *)

Lemma Math_round_mono (x y : Q) : x <= y -> Math_round x <= Math_round y.
Proof.
  intro H. unfold Math_round. rewrite <- Zle_Qle.
  apply Qfloor_resp_le. lra.
Qed.

Lemma Math_round_nonneg (x : Q) : 0 <= x -> 0 <= Math_round x.
Proof.
  intro H. pose proof (Math_round_mono 0 x H) as H1.
  assert (E : Math_round 0 = 0) by reflexivity.
  now rewrite E in H1.
Qed.

(** The two shapes of a raw application. *)
Lemma applyToMass_shape TYPES a cur :
  let lo := min (getMass TYPES (ship a)) in
  let hi := max (getMass TYPES (ship a)) in
  applyToMass TYPES a cur None
  = mkRange (Math_max 0 (min cur - hi)) (Math_max 0 (max cur - lo))
  \/ (lo == hi
      /\ applyToMass TYPES a cur None
         = mkRange (Math_max 0 (min cur - lo)) (Math_max 0 (max cur - lo))).
Proof.
  intros lo hi. destruct (Qeq_dec lo hi) as [E | E].
  - right. split; [exact E | now apply applyToMass_exact].
  - left. now apply applyToMass_range.
Qed.

(** X1: a raw application returns bounds that are never negative, and an
    ordered interval whenever the current interval is ordered and the ship
    mass is a range [lo <= hi]. *)
Theorem applyToMass_nonneg_ordered
    (TYPES : gmap string ShipData) (a : Action) (cur : MassRange) :
  min cur <= max cur ->
  min (getMass TYPES (ship a)) <= max (getMass TYPES (ship a)) ->
  0 <= min (applyToMass TYPES a cur None)
  /\ 0 <= max (applyToMass TYPES a cur None)
  /\ min (applyToMass TYPES a cur None) <= max (applyToMass TYPES a cur None).
Proof.
  intros Hord Hship.
  destruct (applyToMass_shape TYPES a cur) as [E | [Eq E]]; rewrite E; simpl.
  - case_max 0 (min cur - max (getMass TYPES (ship a)));
    case_max 0 (max cur - min (getMass TYPES (ship a)));
      repeat split; lra.
  - case_max 0 (min cur - min (getMass TYPES (ship a)));
    case_max 0 (max cur - min (getMass TYPES (ship a)));
      repeat split; lra.
Qed.

Lemma applyToMass_nonneg_ordered_witness :
  min (applyToMass SHIP_TYPES (mkAction (Ship "carrier" mode_unknown) dir_B)
         (mkRange 900 1100) None)
  <= max (applyToMass SHIP_TYPES (mkAction (Ship "carrier" mode_unknown) dir_B)
            (mkRange 900 1100) None).
Proof.
  apply (applyToMass_nonneg_ordered SHIP_TYPES
           (mkAction (Ship "carrier" mode_unknown) dir_B) (mkRange 900 1100));
    vm_compute; discriminate.
Defined.

(** X2: with a non-negative ship mass and a non-negative current interval,
    a raw application never raises a bound; and a ship whose lighter mass
    is at least the current upper bound leaves the interval [0, 0]. *)
Theorem applyToMass_never_raises
    (TYPES : gmap string ShipData) (a : Action) (cur : MassRange) :
  massOK TYPES (ship a) ->
  0 <= min cur -> min cur <= max cur ->
  min (applyToMass TYPES a cur None) <= min cur
  /\ max (applyToMass TYPES a cur None) <= max cur
  /\ (max cur <= min (getMass TYPES (ship a)) ->
      sameRange (applyToMass TYPES a cur None) (mkRange 0 0)).
Proof.
  intros [Hlo Hship] H0 Hord. unfold sameRange.
  destruct (applyToMass_shape TYPES a cur) as [E | [Eq E]]; rewrite E; simpl.
  - case_max 0 (min cur - max (getMass TYPES (ship a)));
    case_max 0 (max cur - min (getMass TYPES (ship a)));
      repeat split; intros; lra.
  - case_max 0 (min cur - min (getMass TYPES (ship a)));
    case_max 0 (max cur - min (getMass TYPES (ship a)));
      repeat split; intros; lra.
Qed.

Lemma applyToMass_never_raises_witness :
  sameRange
    (applyToMass SHIP_TYPES (mkAction (CustomMass 1200) dir_B)
       (mkRange 900 1100) None)
    (mkRange 0 0).
Proof.
  apply (applyToMass_never_raises SHIP_TYPES
           (mkAction (CustomMass 1200) dir_B) (mkRange 900 1100));
    vm_compute; try split; discriminate.
Defined.

(** Case analysis on a [Math.max] or [Math.min] that records the value as
    an equation between rationals. *)
Ltac q_max a b :=
  let H := fresh "Hq" in let E := fresh "Eq" in let E' := fresh "Ev" in
  destruct (Math_max_spec a b) as [[H E] | [H E]];
  [assert (E' : Math_max a b == b) by (rewrite E; reflexivity)
  | assert (E' : Math_max a b == a) by (rewrite E; reflexivity)];
  clear E.

Ltac q_min a b :=
  let H := fresh "Hq" in let E := fresh "Eq" in let E' := fresh "Ev" in
  destruct (Math_min_spec a b) as [[H E] | [H E]];
  [assert (E' : Math_min a b == a) by (rewrite E; reflexivity)
  | assert (E' : Math_min a b == b) by (rewrite E; reflexivity)];
  clear E.

Lemma constrain_ordered (m b : MassRange) :
  min (constrain m b) <= max (constrain m b)
  /\ max (constrain m b) <= max b
  /\ max (constrain m b) <= max m.
Proof.
  unfold constrain. simpl.
  q_max (min m) (min b); q_min (max m) (max b);
    q_min (Math_max (min m) (min b)) (Math_min (max m) (max b));
    repeat split; lra.
Qed.

Lemma constrain_idem (m b : MassRange) :
  sameRange (constrain (constrain m b) b) (constrain m b).
Proof.
  unfold sameRange, constrain. simpl.
  set (x := Math_max (min m) (min b)).
  set (y := Math_min (max m) (max b)).
  set (z := Math_min x y).
  assert (Hy : y <= max b) by (unfold y; q_min (max m) (max b); lra).
  assert (Hx : min b <= x) by (unfold x; q_max (min m) (min b); lra).
  assert (Hz : z <= y /\ (z == x \/ z == y))
    by (unfold z; q_min x y;
        (split; [lra | first [left; lra | right; lra]])).
  destruct Hz as [Hzy Hz].
  q_min y (max b); q_max z (min b);
    q_min (Math_max z (min b)) (Math_min y (max b));
    split; destruct Hz; lra.
Qed.

(** X3: an application with a boundary state always returns an ordered
    interval whose upper bound is at most the upper boundary of that state,
    whatever the inputs; it is the raw application followed by the clamp,
    and clamping a second time changes nothing. *)
Theorem applyToMass_with_state
    (TYPES : gmap string ShipData) (a : Action) (cur : MassRange)
    (w : Wormhole) :
  let r := applyToMass TYPES a cur (Some w) in
  min r <= max r
  /\ max r <= max (getStateBoundaries w)
  /\ r = constrain (applyToMass TYPES a cur None) (getStateBoundaries w)
  /\ sameRange (constrain r (getStateBoundaries w)) r.
Proof.
  intro r.
  assert (Er : r = constrain (applyToMass TYPES a cur None)
                     (getStateBoundaries w)) by reflexivity.
  destruct (constrain_ordered (applyToMass TYPES a cur None)
              (getStateBoundaries w)) as (H1 & H2 & _).
  rewrite <- Er in H1, H2.
  split; [exact H1 |]. split; [exact H2 |]. split; [exact Er |].
  rewrite Er. apply constrain_idem.
Qed.

(** ** State boundaries for every capacity *)

Lemma getMinMass_nonneg (w : Wormhole) :
  (0 <= baseMass w)%Z -> 0 <= getMinMass w.
Proof.
  intro H. unfold getMinMass. apply Math_round_nonneg.
  assert (0 <= inject_Z (baseMass w))
    by (change 0 with (inject_Z 0); now rewrite <- Zle_Qle).
  unfold variance. nra.
Qed.

Lemma getMin_le_getMax (w : Wormhole) :
  (0 <= baseMass w)%Z -> getMinMass w <= getMaxMass w.
Proof.
  intro H. unfold getMinMass, getMaxMass. apply Math_round_mono.
  assert (0 <= inject_Z (baseMass w))
    by (change 0 with (inject_Z 0); now rewrite <- Zle_Qle).
  unfold variance. nra.
Qed.

(** Half of a non-negative integer, rounded, is at most that integer. *)
Lemma Math_round_half_le (z : Z) :
  (0 <= z)%Z -> Math_round (inject_Z z * (1 # 2)) <= inject_Z z.
Proof.
  intro H. unfold Math_round. rewrite <- Zle_Qle.
  destruct (Z.eq_dec z 0%Z) as [-> | Hne]; [vm_compute; discriminate |].
  rewrite <- (Qfloor_Z z) at 2. apply Qfloor_resp_le.
  assert (1 <= inject_Z z)
    by (change 1 with (inject_Z 1); rewrite <- Zle_Qle; lia).
  lra.
Qed.

Lemma getMinMass_integer (w : Wormhole) :
  exists z, getMinMass w = inject_Z z /\ ((0 <= baseMass w)%Z -> (0 <= z)%Z).
Proof.
  eexists. split; [reflexivity |].
  intro H. pose proof (getMinMass_nonneg w H) as Hn.
  unfold getMinMass, Math_round in Hn.
  change 0 with (inject_Z 0) in Hn. now rewrite <- Zle_Qle in Hn.
Qed.

Lemma ranges_ordered (base : Z) (s : WhState) :
  (0 <= base)%Z ->
  let d := getCurrentMassRange (mkWormhole base s) in
  let b := getStateBoundaries (mkWormhole base s) in
  min b <= max b
  /\ min d <= max d
  /\ min b <= min d /\ max d <= max b
  /\ sameRange (constrain d b) d.
Proof.
  intros Hbase d b.
  pose proof (getMinMass_nonneg (mkWormhole base s) Hbase) as Hmin0.
  pose proof (getMin_le_getMax (mkWormhole base s) Hbase) as Hle.
  destruct (getMinMass_integer (mkWormhole base s)) as (z & Ez & Hz).
  specialize (Hz Hbase).
  pose proof (Math_round_half_le z Hz) as Hhalf. rewrite <- Ez in Hhalf.
  assert (Hb : min b <= max b /\ min d <= max d
               /\ min b <= min d /\ max d <= max b).
  { unfold d, b, getCurrentMassRange, getStateBoundaries.
    destruct s; simpl;
      set (lo := getMinMass (mkWormhole base _)) in *;
      set (hi := getMaxMass (mkWormhole base _)) in *.
    - repeat split; lra.
    - repeat split; lra.
    - assert (Math_round (lo * (1 # 10)) <= Math_round (hi * (1 # 2)))
        by (apply Math_round_mono; lra).
      repeat split; lra.
    - assert (Math_round (lo * 0) <= Math_round (hi * (1 # 10)))
        by (apply Math_round_mono; lra).
      repeat split; lra.
    - repeat split; lra. }
  destruct Hb as (H1 & H2 & H3 & H4).
  repeat split; try assumption.
  - unfold constrain. simpl.
    q_max (min d) (min b); q_min (max d) (max b);
      q_min (Math_max (min d) (min b)) (Math_min (max d) (max b)); lra.
  - unfold constrain. simpl. q_min (max d) (max b); lra.
Qed.

(** X4: for every non-negative base capacity (listed or not) and every
    state, the display range and the state boundaries are ordered
    intervals, and the display range lies within the boundaries of the same
    state, so that clamping a fresh display range changes nothing. *)
Theorem boundaries_ordered_every_capacity (base : Z) (s : WhState) :
  (0 <= base)%Z ->
  let d := getCurrentMassRange (mkWormhole base s) in
  let b := getStateBoundaries (mkWormhole base s) in
  min b <= max b
  /\ min d <= max d
  /\ min b <= min d /\ max d <= max b
  /\ sameRange (constrain d b) d.
Proof. apply ranges_ordered. Qed.

Lemma boundaries_ordered_every_capacity_witness :
  min (getStateBoundaries (mkWormhole 1234 destab))
  <= max (getStateBoundaries (mkWormhole 1234 destab)).
Proof.
  apply (boundaries_ordered_every_capacity 1234 destab). lia.
Defined.

(** X5: for every non-negative base capacity the boundaries of [critical],
    [destab] and [stable] chain without a gap: every mass from 0 to the
    maximum capacity lies within the boundaries of at least one of the three
    states. *)
Theorem boundaries_cover (base : Z) (x : Q) :
  (0 <= base)%Z ->
  0 <= x -> x <= getMaxMass (mkWormhole base stable) ->
  exists s,
    (s = critical \/ s = destab \/ s = stable)
    /\ min (getStateBoundaries (mkWormhole base s)) <= x
    /\ x <= max (getStateBoundaries (mkWormhole base s)).
Proof.
  intros Hbase H0 Hmax.
  pose proof (getMinMass_nonneg (mkWormhole base stable) Hbase) as Hmin0.
  pose proof (getMin_le_getMax (mkWormhole base stable) Hbase) as Hle.
  set (lo := getMinMass (mkWormhole base stable)) in *.
  set (hi := getMaxMass (mkWormhole base stable)) in *.
  assert (H1 : Math_round (lo * (1 # 10)) <= Math_round (hi * (1 # 10)))
    by (apply Math_round_mono; lra).
  assert (H2 : Math_round (lo * (1 # 2)) <= Math_round (hi * (1 # 2)))
    by (apply Math_round_mono; lra).
  destruct (Qlt_le_dec (Math_round (hi * (1 # 10))) x) as [Hc | Hc].
  - destruct (Qlt_le_dec (Math_round (hi * (1 # 2))) x) as [Hd | Hd].
    + exists stable. split; [tauto |].
      unfold getStateBoundaries. simpl. fold lo hi. split; lra.
    + exists destab. split; [tauto |].
      unfold getStateBoundaries. simpl.
      change (getMinMass _) with lo. change (getMaxMass _) with hi.
      split; lra.
  - exists critical. split; [tauto |].
    unfold getStateBoundaries. simpl.
    change (getMinMass _) with lo. change (getMaxMass _) with hi.
    rewrite Math_round_zero. split; lra.
Qed.

Lemma boundaries_cover_witness :
  exists s,
    (s = critical \/ s = destab \/ s = stable)
    /\ min (getStateBoundaries (mkWormhole 3000 s)) <= 1500
    /\ 1500 <= max (getStateBoundaries (mkWormhole 3000 s)).
Proof.
  apply (boundaries_cover 3000 1500); [lia | ..]; vm_compute; discriminate.
Defined.

(** ** The far-side ledger *)

Lemma count_insert (far : gmap string nat) (key k : string) (v : nat) :
  count (<[key := v]> far) k = if decide (k = key) then v else count far k.
Proof.
  unfold count. destruct (decide (k = key)) as [-> | Hne].
  - now rewrite lookup_insert_eq.
  - now rewrite lookup_insert_ne by congruence.
Qed.

Lemma count_delete (far : gmap string nat) (key k : string) :
  count (delete key far) k = if decide (k = key) then 0%nat else count far k.
Proof.
  unfold count. destruct (decide (k = key)) as [-> | Hne].
  - now rewrite lookup_delete_eq.
  - now rewrite lookup_delete_ne by congruence.
Qed.

Lemma trackFarSide_count (d : Direction) (s : ShipObj)
    (far : gmap string nat) (k : string) :
  count (trackFarSide d s far) k =
  match shipKeyOf s with
  | Some key =>
      if decide (k = key) then
        match d with
        | dir_B => (count far k + 1)%nat
        | dir_A => (count far k - 1)%nat
        end
      else count far k
  | None => count far k
  end.
Proof.
  unfold trackFarSide. destruct (shipKeyOf s) as [key |]; [| reflexivity].
  destruct d.
  - destruct (far !! key) as [[| n] |] eqn:E.
    + destruct (decide (k = key)) as [-> |]; [| reflexivity].
      unfold count. now rewrite E.
    + destruct (Nat.eqb n 0) eqn:En.
      * apply Nat.eqb_eq in En. subst n. rewrite count_delete.
        destruct (decide (k = key)) as [-> |]; [| reflexivity].
        unfold count. now rewrite E.
      * rewrite count_insert.
        destruct (decide (k = key)) as [-> |]; [| reflexivity].
        unfold count. rewrite E. simpl. lia.
    + destruct (decide (k = key)) as [-> |]; [| reflexivity].
      unfold count. now rewrite E.
  - rewrite count_insert.
    destruct (decide (k = key)) as [-> |]; reflexivity.
Qed.

(** X6: on the counts (an absent key counting 0), an outgoing ship with a
    type adds one to that type, an incoming one subtracts one but never goes
    below zero, no other type changes, and a ship without a type (a custom
    mass) leaves the map as it is. *)
Theorem trackFarSide_counts (s : ShipObj) (far : gmap string nat) :
  (forall key,
      shipKeyOf s = Some key ->
      count (trackFarSide dir_B s far) key = (count far key + 1)%nat
      /\ count (trackFarSide dir_A s far) key = (count far key - 1)%nat
      /\ forall d k, k <> key -> count (trackFarSide d s far) k = count far k)
  /\ (shipKeyOf s = None -> forall d, trackFarSide d s far = far).
Proof.
  split.
  - intros key Hk. repeat split.
    + rewrite trackFarSide_count, Hk. now destruct (decide (key = key)).
    + rewrite trackFarSide_count, Hk. now destruct (decide (key = key)).
    + intros d k Hne. rewrite trackFarSide_count, Hk.
      now destruct (decide (k = key)).
  - intros Hk d. unfold trackFarSide. now rewrite Hk.
Qed.

Lemma trackFarSide_counts_witness :
  count (trackFarSide dir_A (Ship "bs" mode_hot) ∅) "bs" = 0%nat.
Proof.
  destruct (trackFarSide_counts (Ship "bs" mode_hot) ∅) as [H _].
  destruct (H "bs"%string eq_refl) as (_ & HA & _). exact HA.
Defined.

Lemma hasStrandedShips_false (far : gmap string nat) :
  hasStrandedShips far = false <-> forall k, count far k = 0%nat.
Proof.
  unfold hasStrandedShips. rewrite Nat.ltb_ge.
  apply (map_fold_weak_ind
           (fun r (m : gmap string nat) =>
              (r <= 0)%nat <-> forall k, count m k = 0%nat)).
  - split; [intros _ k; reflexivity | lia].
  - intros i x m r Hi IH. split.
    + intros Hle k. rewrite count_insert.
      destruct (decide (k = i)); [lia |]. apply IH. lia.
    + intro Hall.
      assert (Hx : x = 0%nat).
      { specialize (Hall i). rewrite count_insert in Hall.
        now destruct (decide (i = i)). }
      subst x.
      assert (r <= 0)%nat; [| lia].
      apply IH. intro k. specialize (Hall k). rewrite count_insert in Hall.
      destruct (decide (k = i)) as [-> |]; [| exact Hall].
      unfold count. now rewrite Hi.
Qed.

Lemma hasStrandedShips_true (far : gmap string nat) :
  hasStrandedShips far = true <-> exists k, (0 < count far k)%nat.
Proof.
  split.
  - intro H.
    destruct (decide (exists k v, far !! k = Some v /\ (0 < v)%nat))
      as [(k & v & Hk & Hv) | Hno].
    + exists k. unfold count. now rewrite Hk.
    + exfalso.
      assert (Hf : hasStrandedShips far = false); [| congruence].
      apply hasStrandedShips_false. intro k. unfold count.
      destruct (far !! k) as [v |] eqn:Hk; [| reflexivity].
      destruct v; [reflexivity |]. exfalso. apply Hno.
      exists k, (S v). split; [exact Hk | simpl; lia].
  - intros [k Hk].
    destruct (hasStrandedShips far) eqn:E; [reflexivity |].
    rewrite hasStrandedShips_false in E. specialize (E k). lia.
Qed.

(** X7: the verdict computed on collapse is a loss exactly when some ship
    type has a positive count on the far side; entries holding a zero do not
    count, and the verdict is a win exactly when every count is zero. *)
Theorem hasStrandedShips_iff (far : gmap string nat) :
  (hasStrandedShips far = true <-> exists k, (0 < count far k)%nat)
  /\ (hasStrandedShips far = false <-> forall k, count far k = 0%nat).
Proof.
  split; [apply hasStrandedShips_true | apply hasStrandedShips_false].
Qed.

Lemma hasStrandedShips_counts (far far' : gmap string nat) :
  (forall k, count far' k = count far k) ->
  hasStrandedShips far' = hasStrandedShips far.
Proof.
  intro H.
  destruct (hasStrandedShips far) eqn:E.
  - apply hasStrandedShips_true in E. destruct E as [k Hk].
    apply hasStrandedShips_true. exists k. now rewrite H.
  - rewrite hasStrandedShips_false in E. apply hasStrandedShips_false.
    intro k. now rewrite H.
Qed.

(** X8: a ship that goes out and comes back leaves every count, hence the
    verdict, as it was; the converse order does not (an incoming ship that
    was never counted, followed by its outgoing jump, leaves one ship on the
    far side). *)
Theorem trackFarSide_round_trip (s : ShipObj) (far : gmap string nat) :
  (forall k,
      count (trackFarSide dir_A s (trackFarSide dir_B s far)) k = count far k)
  /\ hasStrandedShips (trackFarSide dir_A s (trackFarSide dir_B s far))
     = hasStrandedShips far
  /\ (forall key,
        shipKeyOf s = Some key -> count far key = 0%nat ->
        count (trackFarSide dir_B s (trackFarSide dir_A s far)) key = 1%nat).
Proof.
  assert (H : forall k,
    count (trackFarSide dir_A s (trackFarSide dir_B s far)) k = count far k).
  { intro k. rewrite !trackFarSide_count.
    destruct (shipKeyOf s) as [key |]; [| reflexivity].
    destruct (decide (k = key)); [lia | reflexivity]. }
  split; [exact H |]. split; [now apply hasStrandedShips_counts |].
  intros key Hk H0. rewrite !trackFarSide_count, Hk.
  destruct (decide (key = key)); [lia | congruence].
Qed.

Lemma trackFarSide_round_trip_witness :
  count (trackFarSide dir_B (Ship "rbs" mode_hot)
           (trackFarSide dir_A (Ship "rbs" mode_hot) ∅)) "rbs" = 1%nat.
Proof.
  destruct (trackFarSide_round_trip (Ship "rbs" mode_hot) ∅)
    as (_ & _ & H).
  apply H; reflexivity.
Defined.

(** ** Game mode: hidden mass and state *)

(** The fields of the [GameMode] instance and the state, which the log and
    ledger updates leave alone. *)
Lemma applyOutcomeState_hidden o u :
  remainingMass (applyOutcomeState o u) = remainingMass u
  /\ initialActualMass (applyOutcomeState o u) = initialActualMass u
  /\ completion (applyOutcomeState o u) = completion u.
Proof. unfold applyOutcomeState. destruct (newState o); repeat split. Qed.

Lemma consistencyCheck_hidden o d u :
  remainingMass (consistencyCheck o d u) = remainingMass u
  /\ initialActualMass (consistencyCheck o d u) = initialActualMass u
  /\ currentWhState (consistencyCheck o d u) = currentWhState u
  /\ completion (consistencyCheck o d u) = completion u.
Proof.
  unfold consistencyCheck.
  repeat match goal with
         | |- context [if ?b then _ else _] => destruct b
         end; repeat split.
Qed.

Lemma derivedState_gone (rem orig : Q) :
  derivedState rem orig = gone <-> rem <= 0.
Proof.
  unfold derivedState. destruct (Qle_bool rem 0) eqn:E.
  - apply Qle_bool_iff in E. tauto.
  - split.
    + repeat (destruct (Qle_bool _ _)); discriminate.
    + intro H. apply Qle_bool_iff in H. congruence.
Qed.

Lemma determineOutcome_isGone (u : UI) :
  isGone (newState (determineOutcome u)) = true
  <-> derivedState (remainingMass u) (initialActualMass u) = gone.
Proof.
  rewrite determineOutcome_newState. simpl.
  destruct (derivedState (remainingMass u) (initialActualMass u)); simpl;
    try (destruct (currentWhState u); simpl); split; congruence.
Qed.

(** The mass that [handleAddAction] debits from the hidden mass. *)
Lemma resolveAction_fields TYPES u d s o :
  let shipMass := getMass TYPES s in
  let m :=
    if Qeq_bool (min shipMass) (max shipMass) then min shipMass
    else if Qlt_bool (coin o) (1 # 2) then min shipMass else max shipMass in
  let u' := resolveAction TYPES u d s o in
  remainingMass u' = remainingMass u - m
  /\ initialActualMass u' = initialActualMass u
  /\ currentWhState u'
     = derivedState (remainingMass u - m) (initialActualMass u)
  /\ completion u'
     = (if isGone (newState (determineOutcome
           (set_shipsOnFarSide (trackFarSide d s (shipsOnFarSide u))
              (set_remainingMass (remainingMass u - m) u))))
        then Some (hasStrandedShips (trackFarSide d s (shipsOnFarSide u)))
        else completion u)
  /\ exists entry,
       committedActions u' = committedActions u ++ [entry]
       /\ actions entry = [mkAction s d]
       /\ actualMassUsed entry = Some m
       /\ entry_remainingMass entry = Some (remainingMass u - m)
       /\ currentState entry = currentWhState u'
       /\ entry_shipsOnFarSide entry = trackFarSide d s (shipsOnFarSide u)
       /\ finalMass entry = Some (calculateCurrentMass u').
Proof.
  intros shipMass m. unfold resolveAction. fold shipMass. fold m.
  set (u1 := set_remainingMass _ u).
  set (u2 := set_shipsOnFarSide _ u1).
  set (out := determineOutcome u2).
  pose proof (applyOutcomeState_hidden out u2) as (Hr & Hi & Hc).
  pose proof (applyOutcomeState_ledger out u2) as (Lc & Ls & _).
  pose proof (determineOutcome_state u2) as Hst. fold out in Hst.
  set (u3 := applyOutcomeState out u2) in *.
  set (shown := if isGone (newState out) then _ else _).
  set (u4 := set_committedActions _ u3).
  set (u5 := if isGone (newState out) then _ else _).
  pose proof (consistencyCheck_hidden out shown u5) as (Kr & Ki & Ks & Kc).
  pose proof (consistencyCheck_effect out shown u5) as (Kl & _).
  simpl. rewrite Kr, Ki, Ks, Kc.
  assert (E5 : remainingMass u5 = remainingMass u - m
               /\ initialActualMass u5 = initialActualMass u
               /\ currentWhState u5 = currentWhState u3
               /\ committedActions u5 = committedActions u4
               /\ completion u5
                  = if isGone (newState out)
                    then Some (hasStrandedShips (shipsOnFarSide u3))
                    else completion u).
  { unfold u5. destruct (isGone (newState out)); simpl;
      rewrite Hr, Hi, ?Hc; repeat split. }
  destruct E5 as (E1 & E2 & E3 & E4 & E5).
  rewrite E1, E2, E3, E5, Hst, Ls.
  repeat split.
  eexists. split; [rewrite Kl, E4; unfold u4; simpl; rewrite Lc; reflexivity |].
  simpl. rewrite Hr, Ls. repeat split.
  - now rewrite Hst.
  - unfold calculateCurrentMass. rewrite Kl, E4. unfold u4. simpl.
    now rewrite fold_left_app.
Qed.


Lemma eventLoop_state TYPES o todo :
  forall i u r,
    currentWhState u = derivedState (remainingMass u) (initialActualMass u) ->
    let u' := fst (eventLoop TYPES o i todo u r) in
    currentWhState u'
    = derivedState (remainingMass u') (initialActualMass u')
    /\ initialActualMass u' = initialActualMass u
    /\ completion u' = completion u.
Proof.
  induction todo as [| eventAction rest IH]; intros i u r Hst; simpl.
  - auto.
  - destruct (WhState_eqb (currentWhState u) gone); [simpl; auto |].
    set (u1 := set_remainingMass _ u).
    pose proof (determineOutcome_state u1) as H1.
    pose proof (applyOutcomeState_hidden (determineOutcome u1) u1)
      as (Hr & Hi & Hc).
    set (u2 := applyOutcomeState (determineOutcome u1) u1) in *.
    assert (H2 : currentWhState u2
                 = derivedState (remainingMass u2) (initialActualMass u2))
      by (rewrite H1, Hr, Hi; reflexivity).
    destruct (isGone (newState (determineOutcome u1))); simpl.
    + split; [exact H2 |].
      split; [rewrite Hi | rewrite Hc]; reflexivity.
    + match goal with
      | |- context [eventLoop TYPES o (S i) rest u2 ?r'] =>
          destruct (IH (S i) u2 r' H2) as (A & B & C)
      end.
      split; [exact A |].
      split; [rewrite B, Hi | rewrite C, Hc]; reflexivity.
Qed.

Lemma processRandomEventAsAction_state TYPES u event o :
  currentWhState u = derivedState (remainingMass u) (initialActualMass u) ->
  let u' := processRandomEventAsAction TYPES u event o in
  currentWhState u' = derivedState (remainingMass u') (initialActualMass u')
  /\ initialActualMass u' = initialActualMass u
  /\ (currentWhState u' = gone ->
      completion u' = Some (hasStrandedShips (shipsOnFarSide u')))
  /\ (currentWhState u' <> gone -> completion u' = completion u).
Proof.
  intro Hst. unfold processRandomEventAsAction.
  set (u0 := set_randomEventOccurred true u).
  pose proof (eventLoop_state TYPES o (ev_actions event) 0 u0
                (mkEventRun [] 0 (calculateCurrentMass u0) false no_change)
                Hst) as (A & B & C).
  destruct (eventLoop TYPES o 0 (ev_actions event) u0 _) as [u1 r].
  simpl in A, B, C. simpl.
  destruct (WhState_eqb (currentWhState u1) gone) eqn:Eg; simpl.
  - apply WhState_eqb_eq in Eg. repeat split; auto. congruence.
  - repeat split; auto. intro E. rewrite E in Eg. discriminate Eg.
Qed.

Lemma handleAddAction_derived TYPES EVENTS u d s o :
  let u' := handleAddAction TYPES EVENTS u d s o in
  currentWhState u' = derivedState (remainingMass u') (initialActualMass u')
  /\ initialActualMass u' = initialActualMass u.
Proof.
  unfold handleAddAction.
  destruct (resolveAction_fields TYPES u d s o) as (Hr & Hi & Hs & _).
  set (v := resolveAction TYPES u d s o) in *.
  assert (Hv : currentWhState v
               = derivedState (remainingMass v) (initialActualMass v))
    by (rewrite Hs, Hr, Hi; reflexivity).
  destruct (processRandomEventsAfterAction_cases TYPES EVENTS v o)
    as [E | (_ & event & _ & E)]; rewrite E.
  - split; [exact Hv | exact Hi].
  - destruct (processRandomEventAsAction_state TYPES v event o Hv)
      as (A & B & _).
    split; [exact A | congruence].
Qed.

(** X10: after [handleAddAction], random event included, the state of the
    session is the state derived from the hidden mass that is left: [gone]
    exactly when nothing is left, [critical] up to 10 percent of the
    original capacity, [destab] up to 50 percent, [stable] above; the
    original capacity is never changed. *)
Theorem handleAddAction_state
    (TYPES : gmap string ShipData) (EVENTS : list RandomEvent)
    (u : UI) (d : Direction) (s : ShipObj) (o : Oracle) :
  0 < initialActualMass u ->
  let u' := handleAddAction TYPES EVENTS u d s o in
  currentWhState u' = derivedState (remainingMass u') (initialActualMass u')
  /\ initialActualMass u' = initialActualMass u
  /\ (currentWhState u' = gone <-> remainingMass u' <= 0).
Proof.
  intros Hpos u'.
  destruct (handleAddAction_derived TYPES EVENTS u d s o) as [H1 H2].
  fold u' in H1, H2. split; [exact H1 |]. split; [exact H2 |].
  rewrite H1. apply derivedState_gone.
Qed.

Lemma handleAddAction_state_witness :
  currentWhState
    (handleAddAction Sample.sizedShips Sample.sureEvents Sample.game3000
       dir_B (Ship "carrier" mode_hot) (Sample.draws 0))
  = derivedState
      (remainingMass
         (handleAddAction Sample.sizedShips Sample.sureEvents Sample.game3000
            dir_B (Ship "carrier" mode_hot) (Sample.draws 0)))
      (initialActualMass
         (handleAddAction Sample.sizedShips Sample.sureEvents Sample.game3000
            dir_B (Ship "carrier" mode_hot) (Sample.draws 0))).
Proof.
  apply (handleAddAction_state Sample.sizedShips Sample.sureEvents
           Sample.game3000 dir_B (Ship "carrier" mode_hot) (Sample.draws 0)).
  vm_compute; reflexivity.
Defined.

(** X11: whenever [handleAddAction] leaves the wormhole [gone], by the
    player's ship or by a random event, the verdict has been computed, from
    the far-side map as it stands at the end of the action; as long as the
    wormhole is not gone the action computes no verdict. *)
Theorem handleAddAction_verdict
    (TYPES : gmap string ShipData) (EVENTS : list RandomEvent)
    (u : UI) (d : Direction) (s : ShipObj) (o : Oracle) :
  let u' := handleAddAction TYPES EVENTS u d s o in
  (currentWhState u' = gone ->
   completion u' = Some (hasStrandedShips (shipsOnFarSide u')))
  /\ (currentWhState u' <> gone -> completion u' = completion u).
Proof.
  intro u'. unfold u', handleAddAction.
  destruct (resolveAction_fields TYPES u d s o)
    as (Hr & Hi & Hs & Hc & _).
  destruct (resolveAction_effect TYPES u d s o) as (_ & Hfar & _).
  set (v := resolveAction TYPES u d s o) in *.
  assert (Hv : currentWhState v
               = derivedState (remainingMass v) (initialActualMass v))
    by (rewrite Hs, Hr, Hi; reflexivity).
  assert (Hgone : (currentWhState v = gone ->
                   completion v = Some (hasStrandedShips (shipsOnFarSide v)))
                  /\ (currentWhState v <> gone -> completion v = completion u)).
  { rewrite Hc, Hfar, Hs.
    match goal with
    | |- context [isGone (newState (determineOutcome ?w))] =>
        pose proof (determineOutcome_isGone w) as Hg;
        destruct (isGone (newState (determineOutcome w)))
    end; simpl in Hg.
    - split; [reflexivity |]. intro H. exfalso. apply H. now apply Hg.
    - split; [| reflexivity]. intro H. apply Hg in H. discriminate H. }
  destruct (processRandomEventsAfterAction_cases TYPES EVENTS v o)
    as [E | (_ & event & _ & E)]; rewrite E; [exact Hgone |].
  destruct (processRandomEventAsAction_state TYPES v event o Hv)
    as (_ & _ & A & B).
  split; [exact A |]. intro Hn. rewrite (B Hn).
  apply Hgone.
  (* the event only runs while the hidden mass is positive *)
  intro Hg. rewrite Hv in Hg. apply derivedState_gone in Hg.
  unfold processRandomEventsAfterAction in E.
  apply Qle_bool_iff in Hg. rewrite Hg, orb_true_r in E.
  destruct (processRandomEventAsAction_effect TYPES v event o)
    as ((entry & Hlog & _) & _).
  rewrite <- E in Hlog.
  assert (Hlen : length (committedActions v)
                 = length (committedActions v ++ [entry]))
    by (rewrite <- Hlog; reflexivity).
  rewrite length_app in Hlen. simpl in Hlen. lia.
Qed.

Lemma handleAddAction_verdict_witness :
  completion
    (handleAddAction Sample.sizedShips Sample.sureEvents Sample.game3000
       dir_B (Ship "carrier" mode_hot) (Sample.draws 0))
  = completion Sample.game3000.
Proof.
  apply (handleAddAction_verdict Sample.sizedShips Sample.sureEvents
           Sample.game3000 dir_B (Ship "carrier" mode_hot) (Sample.draws 0)).
  vm_compute; discriminate.
Defined.

(** ** Game mode: the hole never recovers *)

Lemma percentRemaining_mono (r1 r2 orig : Q) :
  0 < orig -> r1 <= r2 ->
  percentRemaining r1 orig <= percentRemaining r2 orig.
Proof.
  intros Hpos Hle. unfold percentRemaining, Qdiv.
  assert (0 < / orig) by now apply Qinv_lt_0_compat.
  assert (r1 * / orig <= r2 * / orig)
    by (apply Qmult_le_compat_r; [exact Hle | lra]).
  lra.
Qed.

Lemma derivedState_antitone (r1 r2 orig : Q) :
  0 < orig -> r1 <= r2 ->
  (severity (derivedState r2 orig) <= severity (derivedState r1 orig))%nat.
Proof.
  intros Hpos Hle.
  pose proof (percentRemaining_mono r1 r2 orig Hpos Hle) as Hp.
  unfold derivedState.
  destruct (Qle_bool r1 0) eqn:A1;
    [repeat (destruct (Qle_bool _ _)); simpl; lia |].
  destruct (Qle_bool r2 0) eqn:A2.
  { apply Qle_bool_iff in A2.
    assert (r1 <= 0) by lra. apply Qle_bool_iff in H. congruence. }
  destruct (Qle_bool (percentRemaining r1 orig) 10) eqn:B1;
    [repeat (destruct (Qle_bool _ _)); simpl; lia |].
  destruct (Qle_bool (percentRemaining r2 orig) 10) eqn:B2.
  { apply Qle_bool_iff in B2.
    assert (percentRemaining r1 orig <= 10) by lra.
    apply Qle_bool_iff in H. congruence. }
  destruct (Qle_bool (percentRemaining r1 orig) 50) eqn:D1;
    [repeat (destruct (Qle_bool _ _)); simpl; lia |].
  destruct (Qle_bool (percentRemaining r2 orig) 50) eqn:D2; [| simpl; lia].
  apply Qle_bool_iff in D2.
  assert (percentRemaining r1 orig <= 50) by lra.
  apply Qle_bool_iff in H. congruence.
Qed.

Lemma eventLoop_remaining TYPES o todo :
  (forall i, 0 <= impacts o i) ->
  forall i u r,
    remainingMass (fst (eventLoop TYPES o i todo u r)) <= remainingMass u.
Proof.
  intro Himp. induction todo as [| eventAction rest IH]; intros i u r; simpl.
  - lra.
  - destruct (WhState_eqb (currentWhState u) gone); [simpl; lra |].
    set (u1 := set_remainingMass _ u).
    pose proof (applyOutcomeState_hidden (determineOutcome u1) u1)
      as (Hr & _).
    set (u2 := applyOutcomeState (determineOutcome u1) u1) in *.
    assert (H2 : remainingMass u2 <= remainingMass u).
    { rewrite Hr. unfold u1. simpl. specialize (Himp i). lra. }
    destruct (isGone (newState (determineOutcome u1))); simpl; [exact H2 |].
    match goal with
    | |- context [eventLoop TYPES o (S i) rest u2 ?r'] =>
        pose proof (IH (S i) u2 r') as H3
    end.
    lra.
Qed.

Lemma processRandomEventAsAction_remaining TYPES u event o :
  (forall i, 0 <= impacts o i) ->
  remainingMass (processRandomEventAsAction TYPES u event o)
  <= remainingMass u.
Proof.
  intro Himp. unfold processRandomEventAsAction.
  set (u0 := set_randomEventOccurred true u).
  pose proof (eventLoop_remaining TYPES o (ev_actions event) Himp 0 u0
                (mkEventRun [] 0 (calculateCurrentMass u0) false no_change))
    as H.
  destruct (eventLoop TYPES o 0 (ev_actions event) u0 _) as [u1 r].
  simpl in H. simpl.
  destruct (WhState_eqb (currentWhState u1) gone); simpl; exact H.
Qed.

(** X12: when the ship's mass and the mass impacts of the event are not
    negative, [handleAddAction] never raises the hidden mass, and the state
    it leaves is never less severe (in the progression stable, destab,
    critical, gone) than the state derived from the hidden mass before the
    action, whatever state the session showed before. *)
Theorem handleAddAction_never_recovers
    (TYPES : gmap string ShipData) (EVENTS : list RandomEvent)
    (u : UI) (d : Direction) (s : ShipObj) (o : Oracle) :
  massOK TYPES s -> (forall i, 0 <= impacts o i) ->
  0 < initialActualMass u ->
  let u' := handleAddAction TYPES EVENTS u d s o in
  remainingMass u' <= remainingMass u
  /\ (severity (derivedState (remainingMass u) (initialActualMass u))
      <= severity (currentWhState u'))%nat.
Proof.
  intros [Hlo Hord] Himp Hpos u'.
  destruct (handleAddAction_derived TYPES EVENTS u d s o) as (Hs' & Hi').
  fold u' in Hs', Hi'.
  assert (Hrem : remainingMass u' <= remainingMass u).
  { unfold u', handleAddAction.
    destruct (resolveAction_fields TYPES u d s o) as (Hr & _).
    set (v := resolveAction TYPES u d s o) in *.
    assert (Hv : remainingMass v <= remainingMass u).
    { rewrite Hr.
      destruct (Qeq_bool _ _); [lra |].
      destruct (Qlt_bool _ _); lra. }
    destruct (processRandomEventsAfterAction_cases TYPES EVENTS v o)
      as [E | (_ & event & _ & E)]; rewrite E; [exact Hv |].
    pose proof (processRandomEventAsAction_remaining TYPES v event o Himp).
    lra. }
  split; [exact Hrem |].
  rewrite Hs', Hi'. now apply derivedState_antitone.
Qed.

Lemma handleAddAction_never_recovers_witness :
  remainingMass
    (handleAddAction Sample.sizedShips Sample.sureEvents Sample.game3000
       dir_B (Ship "bs" mode_unknown) (Sample.draws 0))
  <= remainingMass Sample.game3000.
Proof.
  apply (handleAddAction_never_recovers Sample.sizedShips Sample.sureEvents
           Sample.game3000 dir_B (Ship "bs" mode_unknown) (Sample.draws 0)).
  - split; vm_compute; discriminate.
  - intro i. vm_compute; discriminate.
  - vm_compute; reflexivity.
Defined.

(** ** Game mode: the displayed interval *)

Lemma applyOutcomeState_setup o u :
  initialWhSize (applyOutcomeState o u) = initialWhSize u
  /\ initialWhState (applyOutcomeState o u) = initialWhState u
  /\ isTracking (applyOutcomeState o u) = isTracking u
  /\ stagedActions (applyOutcomeState o u) = stagedActions u.
Proof. unfold applyOutcomeState. destruct (newState o); repeat split. Qed.

Lemma consistencyCheck_setup o d u :
  initialWhSize (consistencyCheck o d u) = initialWhSize u
  /\ initialWhState (consistencyCheck o d u) = initialWhState u
  /\ isTracking (consistencyCheck o d u) = isTracking u
  /\ stagedActions (consistencyCheck o d u) = stagedActions u.
Proof.
  unfold consistencyCheck.
  repeat match goal with
         | |- context [if ?b then _ else _] => destruct b
         end; repeat split.
Qed.

Lemma calculateCurrentMass_ext u u' :
  committedActions u' = committedActions u ->
  initialWhSize u' = initialWhSize u ->
  initialWhState u' = initialWhState u ->
  calculateCurrentMass u' = calculateCurrentMass u.
Proof. intros H1 H2 H3. unfold calculateCurrentMass. now rewrite H1, H2, H3. Qed.

(** The interval shown after the player part of [handleAddAction]. *)
Lemma resolveAction_shown TYPES u d s o :
  let u' := resolveAction TYPES u d s o in
  calculateCurrentMass u'
  = (if WhState_eqb (currentWhState u') gone then mkRange 0 0
     else constrain
            (applyToMass TYPES (mkAction s d) (calculateCurrentMass u) None)
            (getStateBoundaries
               (mkWormhole (initialWhSize u) (currentWhState u'))))
  /\ initialWhSize u' = initialWhSize u
  /\ initialWhState u' = initialWhState u
  /\ isTracking u' = isTracking u
  /\ stagedActions u' = stagedActions u.
Proof.
  unfold resolveAction.
  set (u1 := set_remainingMass _ u).
  set (u2 := set_shipsOnFarSide _ u1).
  set (out := determineOutcome u2).
  pose proof (applyOutcomeState_setup out u2) as (Hz & Hi & Ht & Hq).
  pose proof (applyOutcomeState_ledger out u2) as (Lc & _).
  pose proof (determineOutcome_state u2) as Hst. fold out in Hst.
  pose proof (determineOutcome_isGone u2) as Hg. fold out in Hg.
  set (u3 := applyOutcomeState out u2) in *.
  set (shown := if isGone (newState out) then _ else _).
  set (u4 := set_committedActions _ u3).
  set (u5 := if isGone (newState out) then _ else _).
  pose proof (consistencyCheck_setup out shown u5) as (Kz & Ki & Kt & Kq).
  pose proof (consistencyCheck_hidden out shown u5) as (_ & _ & Ks & _).
  pose proof (consistencyCheck_effect out shown u5) as (Kl & _).
  assert (E5 : committedActions u5 = committedActions u4
               /\ initialWhSize u5 = initialWhSize u
               /\ initialWhState u5 = initialWhState u
               /\ isTracking u5 = isTracking u
               /\ stagedActions u5 = stagedActions u
               /\ currentWhState u5 = currentWhState u3).
  { unfold u5. destruct (isGone (newState out)); simpl;
      rewrite Hz, Hi, Ht, Hq; repeat split. }
  destruct E5 as (E1 & E2 & E3 & E4 & E6 & E7).
  simpl. rewrite Kz, Ki, Kt, Kq, Ks, E2, E3, E4, E6, E7.
  split; [| repeat split].
  unfold calculateCurrentMass at 1. rewrite Kl, E1. unfold u4. simpl.
  rewrite fold_left_app. simpl. unfold shown.
  assert (Hcalc : calculateCurrentMass u3 = calculateCurrentMass u)
    by (apply calculateCurrentMass_ext; [exact Lc | exact Hz | exact Hi]).
  rewrite Hcalc. unfold getCurrentWormhole. rewrite Hz.
  destruct (isGone (newState out)) eqn:Eg.
  - assert (Et : currentWhState u3 = gone) by (rewrite Hst; now apply Hg).
    now rewrite Et.
  - destruct (WhState_eqb (currentWhState u3) gone) eqn:Ew; [| reflexivity].
    apply WhState_eqb_eq in Ew. rewrite Hst in Ew. apply Hg in Ew.
    congruence.
Qed.

(** X13: the interval shown after a player action is always ordered; it is
    [0, 0] when the wormhole is gone and otherwise stays below the upper
    boundary of the new state; and with a non-negative ship mass its upper
    bound never exceeds the upper bound shown before. *)
Theorem resolveAction_display
    (TYPES : gmap string ShipData) (u : UI) (d : Direction) (s : ShipObj)
    (o : Oracle) :
  let u' := resolveAction TYPES u d s o in
  let shown := calculateCurrentMass u' in
  min shown <= max shown
  /\ (currentWhState u' = gone -> shown = mkRange 0 0)
  /\ (currentWhState u' <> gone ->
      max shown <= max (getStateBoundaries (getCurrentWormhole u')))
  /\ (0 <= min (getMass TYPES s) -> 0 <= max (calculateCurrentMass u) ->
      max shown <= max (calculateCurrentMass u)).
Proof.
  intros u' shown.
  destruct (resolveAction_shown TYPES u d s o) as (Hsh & Hz & _).
  fold u' in Hsh, Hz. fold shown in Hsh.
  set (raw := applyToMass TYPES (mkAction s d) (calculateCurrentMass u) None)
    in *.
  set (b := getStateBoundaries
              (mkWormhole (initialWhSize u) (currentWhState u'))) in *.
  destruct (constrain_ordered raw b) as (K1 & K2 & K3).
  destruct (WhState_eqb (currentWhState u') gone) eqn:Eg.
  - apply WhState_eqb_eq in Eg. rewrite Hsh. simpl.
    repeat split; intros; try lra; congruence.
  - rewrite Hsh. split; [exact K1 |]. split.
    { intro E. rewrite E in Eg. discriminate Eg. }
    split.
    { intros _. unfold getCurrentWormhole. rewrite Hz. exact K2. }
    intros Hlo Hmax.
    assert (Hraw : max raw <= max (calculateCurrentMass u)).
    { unfold raw.
      destruct (applyToMass_shape TYPES (mkAction s d) (calculateCurrentMass u))
        as [E | [_ E]]; rewrite E; simpl;
        q_max 0 (max (calculateCurrentMass u) - min (getMass TYPES s)); lra. }
    lra.
Qed.

Lemma resolveAction_display_witness :
  max (calculateCurrentMass
         (resolveAction SHIP_TYPES Sample.game3000 dir_B (Ship "bs" mode_hot)
            (Sample.draws 0)))
  <= max (calculateCurrentMass Sample.game3000).
Proof.
  apply (resolveAction_display SHIP_TYPES Sample.game3000 dir_B
           (Ship "bs" mode_hot) (Sample.draws 0));
    vm_compute; discriminate.
Defined.

(** X14: a player action keeps the hidden mass within the displayed
    interval whenever it was within it before and the boundaries of the
    newly derived state contain the new hidden mass: the subtraction itself
    and the clamp at zero never lose the hidden mass. *)
Theorem resolveAction_keeps_consistent
    (TYPES : gmap string ShipData) (u : UI) (d : Direction) (s : ShipObj)
    (o : Oracle) :
  consistent u -> currentWhState u <> gone ->
  min (getMass TYPES s) <= max (getMass TYPES s) ->
  let u' := resolveAction TYPES u d s o in
  min (getStateBoundaries (getCurrentWormhole u')) <= remainingMass u' ->
  remainingMass u' <= max (getStateBoundaries (getCurrentWormhole u')) ->
  consistent u'.
Proof.
  intros Hc Hng Hship u' Hbmin Hbmax Hng'.
  destruct (Hc Hng) as [Hlo Hhi].
  destruct (resolveAction_shown TYPES u d s o) as (Hsh & Hz & _).
  destruct (resolveAction_fields TYPES u d s o) as (Hr & Hi & Hs & _).
  fold u' in Hsh, Hz, Hr, Hi, Hs.
  assert (Eg : WhState_eqb (currentWhState u') gone = false).
  { destruct (WhState_eqb (currentWhState u') gone) eqn:E; [| reflexivity].
    apply WhState_eqb_eq in E. contradiction. }
  rewrite Eg in Hsh.
  assert (Hpos : 0 < remainingMass u').
  { apply Qnot_le_lt. intro Hle. apply Hng'. rewrite Hs.
    apply derivedState_gone. rewrite <- Hr. exact Hle. }
  unfold getCurrentWormhole in Hbmin, Hbmax. rewrite Hz in Hbmin, Hbmax.
  set (b := getStateBoundaries
              (mkWormhole (initialWhSize u) (currentWhState u'))) in *.
  set (cur := calculateCurrentMass u) in *.
  set (lo := min (getMass TYPES s)) in *.
  set (hi := max (getMass TYPES s)) in *.
  assert (Hraw : min (applyToMass TYPES (mkAction s d) cur None)
                 <= remainingMass u'
                 /\ remainingMass u'
                    <= max (applyToMass TYPES (mkAction s d) cur None)).
  { rewrite Hr in *. unfold applyToMass. simpl. fold lo hi.
    destruct (Qeq_bool lo hi) eqn:Eq; simpl.
    - q_max 0 (min cur - lo); q_max 0 (max cur - lo); split; lra.
    - destruct (Qlt_bool (coin o) (1 # 2));
        q_max 0 (min cur - hi); q_max 0 (max cur - lo); split; lra. }
  destruct Hraw as [R1 R2].
  set (raw := applyToMass TYPES (mkAction s d) cur None) in *.
  rewrite Hsh. unfold constrain. cbn [Logic.min Logic.max].
  q_max (min raw) (min b); q_min (max raw) (max b);
    q_min (Math_max (min raw) (min b)) (Math_min (max raw) (max b));
    split; lra.
Qed.

Lemma resolveAction_keeps_consistent_witness :
  consistent
    (resolveAction SHIP_TYPES Sample.game3000 dir_B (Ship "bs" mode_hot)
       (Sample.draws 0)).
Proof.
  apply (resolveAction_keeps_consistent SHIP_TYPES Sample.game3000 dir_B
           (Ship "bs" mode_hot) (Sample.draws 0)).
  - intros _. split; vm_compute; discriminate.
  - vm_compute; discriminate.
  - vm_compute; discriminate.
  - vm_compute; discriminate.
  - vm_compute; discriminate.
Defined.

(** ** Random events: the consolidated entry *)




(** ** Every logged interval is ordered *)

Lemma eventLoop_setup TYPES o todo :
  forall i u r,
    let u' := fst (eventLoop TYPES o i todo u r) in
    initialWhSize u' = initialWhSize u
    /\ initialWhState u' = initialWhState u
    /\ isTracking u' = isTracking u
    /\ stagedActions u' = stagedActions u.
Proof.
  induction todo as [| eventAction rest IH]; intros i u r; simpl.
  - repeat split.
  - destruct (WhState_eqb (currentWhState u) gone); [repeat split |].
    set (u1 := set_remainingMass _ u).
    pose proof (applyOutcomeState_setup (determineOutcome u1) u1)
      as (A & B & C & D).
    set (u2 := applyOutcomeState (determineOutcome u1) u1) in *.
    destruct (isGone (newState (determineOutcome u1))); simpl.
    + repeat split; assumption.
    + match goal with
      | |- context [eventLoop TYPES o (S i) rest u2 ?r'] =>
          destruct (IH (S i) u2 r') as (A' & B' & C' & D')
      end.
      unfold u1 in A, B, C, D. simpl in A, B, C, D.
      repeat split; congruence.
Qed.

Lemma eventLoop_display_ordered TYPES o todo :
  forall i u r,
    ordered (currentDisplayedMass r) ->
    ordered (currentDisplayedMass (snd (eventLoop TYPES o i todo u r))).
Proof.
  induction todo as [| eventAction rest IH]; intros i u r Hord; simpl.
  - exact Hord.
  - destruct (WhState_eqb (currentWhState u) gone); [exact Hord |].
    set (u1 := set_remainingMass _ u).
    destruct (isGone (newState (determineOutcome u1))); simpl.
    + apply constrain_ordered.
    + apply IH. simpl. apply constrain_ordered.
Qed.

Lemma calculateCurrentMass_ordered (u : UI) :
  logOrdered u ->
  ordered (getCurrentMassRange
             (mkWormhole (initialWhSize u) (initialWhState u))) ->
  ordered (calculateCurrentMass u).
Proof.
  unfold logOrdered, calculateCurrentMass.
  generalize (getCurrentMassRange
                (mkWormhole (initialWhSize u) (initialWhState u))).
  induction (committedActions u) as [| e l IH]; intros m Hl Hm; simpl.
  - exact Hm.
  - apply Forall_cons in Hl. destruct Hl as [He Hl].
    apply IH; [exact Hl |]. destruct (finalMass e); assumption.
Qed.

Lemma logOrdered_snoc u u' entry m :
  committedActions u' = committedActions u ++ [entry] ->
  finalMass entry = Some m -> ordered m ->
  logOrdered u -> logOrdered u'.
Proof.
  intros Hl Hf Hm Hu. unfold logOrdered. rewrite Hl.
  apply Forall_app. split; [exact Hu |].
  apply Forall_cons. split; [now rewrite Hf | apply Forall_nil; exact I].
Qed.

Lemma resolveAction_logOrdered TYPES u d s o :
  logOrdered u -> logOrdered (resolveAction TYPES u d s o).
Proof.
  intro Hu.
  destruct (resolveAction_fields TYPES u d s o)
    as (_ & _ & _ & _ & entry & Hl & _ & _ & _ & _ & _ & Hf).
  eapply logOrdered_snoc; eauto.
  destruct (resolveAction_shown TYPES u d s o) as (Hsh & _).
  rewrite Hsh.
  destruct (WhState_eqb _ gone); [unfold ordered; simpl; lra |].
  apply constrain_ordered.
Qed.

Lemma processRandomEventAsAction_logOrdered TYPES u event o :
  logOrdered u -> ordered (calculateCurrentMass u) ->
  let u' := processRandomEventAsAction TYPES u event o in
  logOrdered u'
  /\ initialWhSize u' = initialWhSize u
  /\ initialWhState u' = initialWhState u
  /\ isTracking u' = isTracking u
  /\ stagedActions u' = stagedActions u.
Proof.
  intros Hu Hcalc. unfold processRandomEventAsAction.
  set (u0 := set_randomEventOccurred true u).
  pose proof (eventLoop_display_ordered TYPES o (ev_actions event) 0 u0
                (mkEventRun [] 0 (calculateCurrentMass u0) false no_change)
                Hcalc) as Hd.
  pose proof (eventLoop_ledger TYPES o (ev_actions event) 0 u0
                (mkEventRun [] 0 (calculateCurrentMass u0) false no_change))
    as (Hc & _).
  pose proof (eventLoop_setup TYPES o (ev_actions event) 0 u0
                (mkEventRun [] 0 (calculateCurrentMass u0) false no_change))
    as (Hz & Hi & Ht & Hq).
  destruct (eventLoop TYPES o 0 (ev_actions event) u0 _) as [u1 r].
  simpl in Hd, Hc, Hz, Hi, Ht, Hq. simpl.
  destruct (WhState_eqb (currentWhState u1) gone); simpl;
    (split; [| repeat split; assumption]);
    (eapply logOrdered_snoc;
     [simpl; rewrite Hc; reflexivity | reflexivity | exact Hd | exact Hu]).
Qed.

Lemma handleAddAction_logOrdered TYPES EVENTS u d s o :
  logOrdered u ->
  ordered (getCurrentMassRange
             (mkWormhole (initialWhSize u) (initialWhState u))) ->
  let u' := handleAddAction TYPES EVENTS u d s o in
  logOrdered u'
  /\ initialWhSize u' = initialWhSize u
  /\ initialWhState u' = initialWhState u
  /\ isTracking u' = isTracking u
  /\ stagedActions u' = stagedActions u.
Proof.
  intros Hu Hinit. unfold handleAddAction.
  pose proof (resolveAction_logOrdered TYPES u d s o Hu) as Hv.
  destruct (resolveAction_shown TYPES u d s o) as (_ & Hz & Hi & Ht & Hq).
  set (v := resolveAction TYPES u d s o) in *.
  destruct (processRandomEventsAfterAction_cases TYPES EVENTS v o)
    as [E | (_ & event & _ & E)]; rewrite E.
  - repeat split; assumption.
  - assert (Hcalc : ordered (calculateCurrentMass v)).
    { apply calculateCurrentMass_ordered; [exact Hv |].
      now rewrite Hz, Hi. }
    destruct (processRandomEventAsAction_logOrdered TYPES v event o Hv Hcalc)
      as (A & B & C & D & F).
    repeat split; congruence.
Qed.

Lemma applyStaging_logOrdered TYPES u declared :
  logOrdered u ->
  let u' := applyStaging TYPES u declared in
  logOrdered u'
  /\ initialWhSize u' = initialWhSize u
  /\ initialWhState u' = initialWhState u
  /\ isTracking u' = isTracking u.
Proof.
  intro Hu. unfold applyStaging.
  destruct (stagedActions u) as [| a0 rest] eqn:Eq; [repeat split; exact Hu |].
  set (u1 := match declared with
             | no_change => u
             | change_to s => set_currentWhState s u
             end).
  assert (Hu1 : committedActions u1 = committedActions u
                /\ initialWhSize u1 = initialWhSize u
                /\ initialWhState u1 = initialWhState u
                /\ isTracking u1 = isTracking u)
    by (unfold u1; destruct declared; repeat split).
  destruct Hu1 as (Hc1 & Hz1 & Hi1 & Ht1).
  match goal with
  | |- context [commitStagingToLog TYPES u1 ?acts declared ?final] =>
      destruct (commitStagingToLog_effect TYPES u1 acts declared final)
        as (entry & passed & Hlog & _ & _ & Hfin & _);
      assert (Hset : initialWhSize
                       (commitStagingToLog TYPES u1 acts declared final)
                     = initialWhSize u1
                     /\ initialWhState
                          (commitStagingToLog TYPES u1 acts declared final)
                        = initialWhState u1
                     /\ isTracking
                          (commitStagingToLog TYPES u1 acts declared final)
                        = isTracking u1)
        by (unfold commitStagingToLog;
            destruct (fold_left (commitStep TYPES) _ _); repeat split);
      assert (Hfo : ordered final) by apply constrain_ordered;
      set (u2 := commitStagingToLog TYPES u1 acts declared final) in *
  end.
  destruct Hset as (S1 & S2 & S3).
  assert (H2 : logOrdered u2).
  { eapply logOrdered_snoc; [rewrite Hlog, Hc1; reflexivity | exact Hfin
                            | exact Hfo | exact Hu]. }
  destruct (isGone declared); simpl;
    (split; [exact H2 | repeat split; congruence]).
Qed.

Lemma execute_logOrdered TYPES EVENTS u c :
  logOrdered u ->
  ordered (getCurrentMassRange
             (mkWormhole (initialWhSize u) (initialWhState u))) ->
  let u' := execute TYPES EVENTS u c in
  logOrdered u'
  /\ initialWhSize u' = initialWhSize u
  /\ initialWhState u' = initialWhState u.
Proof.
  intros Hu Hinit. unfold execute.
  destruct (isTracking u); [| repeat split; exact Hu].
  destruct c as [d s o | declared].
  - unfold stageAction.
    match goal with
    | |- context [if ?b then _ else _] => destruct b
    end; [| repeat split; exact Hu].
    destruct (currentMode u).
    + unfold trackerAddAction. repeat split; exact Hu.
    + destruct (handleAddAction_logOrdered TYPES EVENTS u d s o Hu Hinit)
        as (A & B & C & _).
      repeat split; assumption.
  - destruct (applyStaging_logOrdered TYPES u declared Hu) as (A & B & C & _).
    repeat split; assumption.
Qed.

Lemma run_logOrdered TYPES EVENTS commands :
  forall u,
    logOrdered u ->
    ordered (getCurrentMassRange
               (mkWormhole (initialWhSize u) (initialWhState u))) ->
    logOrdered (run TYPES EVENTS u commands)
    /\ ordered (calculateCurrentMass (run TYPES EVENTS u commands)).
Proof.
  induction commands as [| c rest IH]; intros u Hu Hinit; simpl.
  - split; [exact Hu | now apply calculateCurrentMass_ordered].
  - destruct (execute_logOrdered TYPES EVENTS u c Hu Hinit) as (A & B & C).
    apply IH; [exact A |]. now rewrite B, C.
Qed.

(** X16: in a session of either mode started on a wormhole of non-negative
    base capacity, whatever the ships staged, the states declared and the
    draws, every interval written to the log has [min <= max], and so has
    the interval currently shown. *)
Theorem session_intervals_ordered
    (TYPES : gmap string ShipData) (EVENTS : list RandomEvent)
    (mode : Mode) (fleet : gmap string nat) (whSize : Z) (whState : WhState)
    (whRestriction : Z) (r1 r2 : Q) (commands : list Command) :
  (0 <= whSize)%Z ->
  let u :=
    run TYPES EVENTS
      (startTracking (newUI mode fleet) whSize whState whRestriction r1 r2)
      commands in
  logOrdered u /\ ordered (calculateCurrentMass u).
Proof.
  intros Hsize u. unfold u.
  set (u0 := startTracking (newUI mode fleet) whSize whState whRestriction
               r1 r2).
  assert (H0 : committedActions u0 = [] /\ initialWhSize u0 = whSize
               /\ initialWhState u0 = whState).
  { unfold u0, startTracking. simpl.
    destruct (Mode_eqb mode gameMode); repeat split. }
  destruct H0 as (Hl & Hz & Hi).
  apply run_logOrdered.
  - unfold logOrdered. rewrite Hl. apply Forall_nil. exact I.
  - rewrite Hz, Hi.
    apply (ranges_ordered whSize whState Hsize).
Qed.

Lemma session_intervals_ordered_witness :
  ordered
    (calculateCurrentMass
       (run Sample.sizedShips Sample.sureEvents
          (startTracking (newUI gameMode ∅) 3000 fresh 3 (1 # 2) 0)
          [cmd_stage dir_B (Ship "carrier" mode_unknown) (Sample.draws 0)])).
Proof.
  apply (session_intervals_ordered Sample.sizedShips Sample.sureEvents
           gameMode ∅ 3000 fresh 3 (1 # 2) 0
           [cmd_stage dir_B (Ship "carrier" mode_unknown) (Sample.draws 0)]).
  lia.
Defined.

(** ** Tracker mode: what a commit leaves behind *)

Lemma applyToMass_nonneg TYPES a cur :
  0 <= min (applyToMass TYPES a cur None)
  /\ 0 <= max (applyToMass TYPES a cur None).
Proof.
  destruct (applyToMass_shape TYPES a cur) as [E | [_ E]]; rewrite E; simpl.
  - q_max 0 (min cur - max (getMass TYPES (ship a)));
    q_max 0 (max cur - min (getMass TYPES (ship a))); split; lra.
  - q_max 0 (min cur - min (getMass TYPES (ship a)));
    q_max 0 (max cur - min (getMass TYPES (ship a))); split; lra.
Qed.

Lemma raw_fold_nonneg TYPES (l : list Action) (m : MassRange) :
  l <> [] ->
  0 <= min (fold_left (fun m a => applyToMass TYPES a m None) l m)
  /\ 0 <= max (fold_left (fun m a => applyToMass TYPES a m None) l m).
Proof.
  intro Hne. destruct (exists_last Hne) as (l' & a & ->).
  rewrite fold_left_app. simpl. apply applyToMass_nonneg.
Qed.

Lemma raw_fold_max TYPES (l : list Action) :
  Forall (fun a => 0 <= min (getMass TYPES (ship a))) l ->
  forall m,
    0 <= max m ->
    max (fold_left (fun m a => applyToMass TYPES a m None) l m) <= max m.
Proof.
  induction l as [| a rest IH]; intros Hl m Hm; [simpl; lra |].
  cbn [fold_left].
  apply Forall_cons in Hl. destruct Hl as [Ha Hl].
  destruct (applyToMass_nonneg TYPES a m) as [_ Hn].
  specialize (IH Hl (applyToMass TYPES a m None) Hn).
  assert (max (applyToMass TYPES a m None) <= max m).
  { destruct (applyToMass_shape TYPES a m) as [E | [_ E]]; rewrite E; simpl;
      q_max 0 (max m - min (getMass TYPES (ship a))); lra. }
  lra.
Qed.

Lemma passed_fold (l : list Entry) :
  forall acc,
    fold_left (fun total entry => total + default 0 (passedMass entry)) l acc
    == acc + Qsum (map (fun e => default 0 (passedMass e)) l).
Proof.
  induction l as [| e rest IH]; intro acc; simpl; [ring |].
  rewrite IH. ring.
Qed.

Lemma commitStep_far TYPES (l : list Action) :
  forall acc far,
    snd (fold_left (commitStep TYPES) l (acc, far))
    = fold_left (fun far a => trackFarSide (direction a) (ship a) far) l far.
Proof.
  induction l as [| a rest IH]; intros acc far; simpl; [reflexivity |].
  unfold commitStep at 2. simpl. apply IH.
Qed.

Lemma commitStagingToLog_full TYPES u acts sc final :
  let u' := commitStagingToLog TYPES u acts sc final in
  let far' :=
    fold_left (fun far a => trackFarSide (direction a) (ship a) far)
              acts (shipsOnFarSide u) in
  exists entry passed total,
    committedActions u' = committedActions u ++ [entry]
    /\ finalMass entry = Some final
    /\ passedMass entry = Some passed
    /\ totalPassedMass entry = Some total
    /\ total
       == Qsum (map (fun e => default 0 (passedMass e)) (committedActions u))
          + passed
    /\ shipsOnFarSide u' = far'
    /\ entry_shipsOnFarSide entry = far'
    /\ currentWhState u' = currentWhState u
    /\ completion u' = completion u
    /\ initialWhSize u' = initialWhSize u
    /\ initialWhState u' = initialWhState u.
Proof.
  intros u' far'. unfold u', commitStagingToLog.
  pose proof (commitStep_far TYPES acts 0 (shipsOnFarSide u)) as Hfar.
  pose proof (passed_fold (committedActions u) 0) as Hsum.
  destruct (fold_left (commitStep TYPES) acts (0, shipsOnFarSide u))
    as [entryPassedMass far].
  simpl in Hfar. fold far' in Hfar. subst far.
  eexists. exists entryPassedMass. eexists.
  split; [reflexivity |]. simpl.
  repeat split. rewrite Hsum. ring.
Qed.

(** Everything a commit of a non-empty queue writes. *)
Lemma applyStaging_entry TYPES u declared :
  stagedActions u <> [] ->
  let u' := applyStaging TYPES u declared in
  let raw :=
    fold_left (fun m a => applyToMass TYPES a m None) (stagedActions u)
              (calculateCurrentMass u) in
  let b :=
    getStateBoundaries
      (mkWormhole (initialWhSize u) (declaredState u declared)) in
  let far' :=
    fold_left (fun far a => trackFarSide (direction a) (ship a) far)
              (stagedActions u) (shipsOnFarSide u) in
  exists entry passed total,
    committedActions u' = committedActions u ++ [entry]
    /\ finalMass entry = Some (constrain raw b)
    /\ calculateCurrentMass u' = constrain raw b
    /\ passedMass entry = Some passed
    /\ totalPassedMass entry = Some total
    /\ total
       == Qsum (map (fun e => default 0 (passedMass e)) (committedActions u))
          + passed
    /\ shipsOnFarSide u' = far'
    /\ entry_shipsOnFarSide entry = far'
    /\ currentWhState u' = declaredState u declared
    /\ completion u'
       = if isGone declared then Some (hasStrandedShips far')
         else completion u.
Proof.
  intros Hne u' raw b far'. unfold u', applyStaging.
  destruct (stagedActions u) as [| a0 rest] eqn:Eq; [congruence |].
  set (u1 := match declared with
             | no_change => u
             | change_to s => set_currentWhState s u
             end).
  assert (Hu1 : committedActions u1 = committedActions u
                /\ initialWhSize u1 = initialWhSize u
                /\ initialWhState u1 = initialWhState u
                /\ shipsOnFarSide u1 = shipsOnFarSide u
                /\ completion u1 = completion u
                /\ currentWhState u1 = declaredState u declared)
    by (unfold u1; destruct declared; repeat split).
  destruct Hu1 as (Hc1 & Hz1 & Hi1 & Hf1 & Hk1 & Hd1).
  rewrite Hz1. fold raw. change (getStateBoundaries _) with b.
  destruct (commitStagingToLog_full TYPES u1 (a0 :: rest) declared
              (constrain raw b))
    as (entry & passed & total & Hlog & Hfin & Hp & Ht & Hsum & Hfar & Hsnap
        & Hst & Hcompl & Hz & Hi).
  set (u2 := commitStagingToLog TYPES u1 (a0 :: rest) declared
               (constrain raw b)) in *.
  rewrite Hf1 in Hfar, Hsnap. fold far' in Hfar, Hsnap.
  rewrite Hc1 in Hlog, Hsum.
  assert (Hcalc : calculateCurrentMass u2 = constrain raw b)
    by (eapply calculateCurrentMass_snoc; eauto).
  exists entry, passed, total.
  destruct (isGone declared); simpl; rewrite ?Hfar;
    repeat split; solve [assumption | congruence].
Qed.

(** X17: committing a non-empty queue with the state [gone] always logs the
    interval [0, 0], whatever was staged; the session state becomes [gone]
    and the verdict is computed from the far-side map after the staged
    jumps have been counted in queue order. *)
Theorem commit_gone
    (TYPES : gmap string ShipData) (u : UI) :
  stagedActions u <> [] ->
  let u' := applyStaging TYPES u (change_to gone) in
  sameRange (calculateCurrentMass u') (mkRange 0 0)
  /\ currentWhState u' = gone
  /\ shipsOnFarSide u'
     = fold_left (fun far a => trackFarSide (direction a) (ship a) far)
                 (stagedActions u) (shipsOnFarSide u)
  /\ completion u' = Some (hasStrandedShips (shipsOnFarSide u')).
Proof.
  intros Hne u'.
  destruct (applyStaging_entry TYPES u (change_to gone) Hne)
    as (entry & passed & total & _ & _ & Hcalc & _ & _ & _ & Hfar & _ & Hst
        & Hcompl).
  fold u' in Hcalc, Hfar, Hst, Hcompl.
  destruct (raw_fold_nonneg TYPES (stagedActions u) (calculateCurrentMass u)
              Hne) as [R1 R2].
  set (raw := fold_left (fun m a => applyToMass TYPES a m None)
                (stagedActions u) (calculateCurrentMass u)) in *.
  split; [| split; [exact Hst | split; [exact Hfar |]]].
  - rewrite Hcalc. unfold sameRange, constrain.
    cbn [Logic.min Logic.max getStateBoundaries state declaredState].
    q_max (min raw) (-5000); q_min (max raw) 0;
      q_min (Math_max (min raw) (-5000)) (Math_min (max raw) 0);
      split; lra.
  - rewrite Hcompl, Hfar. reflexivity.
Qed.

Lemma commit_gone_witness :
  sameRange
    (calculateCurrentMass
       (applyStaging SHIP_TYPES
          (trackerAddAction
             (startTracking (newUI trackerMode ∅) 1000 fresh 3 0 0)
             dir_B (CustomMass 1200))
          (change_to gone)))
    (mkRange 0 0).
Proof.
  apply (commit_gone SHIP_TYPES
           (trackerAddAction
              (startTracking (newUI trackerMode ∅) 1000 fresh 3 0 0)
              dir_B (CustomMass 1200))).
  vm_compute; discriminate.
Defined.



(** X19: when no staged ship has a negative mass, a commit never raises the
    upper bound of the interval, whichever state is declared. *)
Theorem commit_never_raises_max
    (TYPES : gmap string ShipData) (u : UI) (declared : StateChange) :
  stagedActions u <> [] ->
  Forall (fun a => 0 <= min (getMass TYPES (ship a))) (stagedActions u) ->
  0 <= max (calculateCurrentMass u) ->
  max (calculateCurrentMass (applyStaging TYPES u declared))
  <= max (calculateCurrentMass u).
Proof.
  intros Hne Hall Hmax.
  destruct (applyStaging_entry TYPES u declared Hne)
    as (entry & passed & total & _ & _ & Hcalc & _).
  rewrite Hcalc.
  pose proof (raw_fold_max TYPES (stagedActions u) Hall
                (calculateCurrentMass u) Hmax) as Hraw.
  match goal with
  | |- max (constrain ?r ?b) <= _ =>
      destruct (constrain_ordered r b) as (_ & _ & H3)
  end.
  lra.
Qed.

Lemma commit_never_raises_max_witness :
  max (calculateCurrentMass
         (applyStaging SHIP_TYPES
            (trackerAddAction
               (startTracking (newUI trackerMode ∅) 3000 fresh 3 0 0)
               dir_B (Ship "bs" mode_unknown))
            (change_to destab)))
  <= max (calculateCurrentMass
            (trackerAddAction
               (startTracking (newUI trackerMode ∅) 3000 fresh 3 0 0)
               dir_B (Ship "bs" mode_unknown))).
Proof.
  apply (commit_never_raises_max SHIP_TYPES
           (trackerAddAction
              (startTracking (newUI trackerMode ∅) 3000 fresh 3 0 0)
              dir_B (Ship "bs" mode_unknown)) (change_to destab)).
  - vm_compute; discriminate.
  - apply Forall_cons. split; [vm_compute; discriminate |].
    apply Forall_nil. exact I.
  - vm_compute; discriminate.
Defined.

(** X20: of the three state buttons, those left enabled by
    [updateApplyButtonStates] are exactly the ones declaring a state
    strictly more severe than the current one; so a commit made through an
    enabled button (the no-change button included) never makes the state
    less severe. *)
Theorem buttons_follow_severity
    (TYPES : gmap string ShipData) (u : UI) :
  (forall s,
      s = destab \/ s = critical \/ s = gone ->
      (buttonEnabled u (change_to s) = true
       <-> (severity (currentWhState u) < severity s)%nat))
  /\ buttonEnabled u no_change = true
  /\ (forall declared,
        declared = no_change
        \/ declared = change_to destab \/ declared = change_to critical
        \/ declared = change_to gone ->
        buttonEnabled u declared = true ->
        (severity (currentWhState u)
         <= severity (currentWhState (applyStaging TYPES u declared)))%nat).
Proof.
  assert (H1 : forall s,
      s = destab \/ s = critical \/ s = gone ->
      (buttonEnabled u (change_to s) = true
       <-> (severity (currentWhState u) < severity s)%nat)).
  { intros s [-> | [-> | ->]]; unfold buttonEnabled, updateApplyButtonStates;
      destruct (currentWhState u); simpl; split; intro H;
      first [reflexivity | discriminate | lia]. }
  split; [exact H1 |]. split; [reflexivity |].
  intros declared Hd He.
  destruct (stagedActions u) as [| a0 rest] eqn:Eq.
  { unfold applyStaging. rewrite Eq. lia. }
  assert (Hne : stagedActions u <> []) by (rewrite Eq; discriminate).
  destruct (applyStaging_entry TYPES u declared Hne)
    as (entry & passed & total & _ & _ & _ & _ & _ & _ & _ & _ & Hst & _).
  rewrite Hst.
  destruct Hd as [-> | [-> | [-> | ->]]]; simpl; [lia | | |];
    (apply H1 in He; [simpl in He; lia | tauto]).
Qed.

Lemma buttons_follow_severity_witness :
  buttonEnabled
    (startTracking (newUI trackerMode ∅) 3000 critical 3 0 0)
    (change_to destab) = false.
Proof.
  destruct (buttons_follow_severity SHIP_TYPES
              (startTracking (newUI trackerMode ∅) 3000 critical 3 0 0))
    as (H & _).
  destruct (buttonEnabled _ _) eqn:E; [| reflexivity].
  apply (H destab) in E; [vm_compute in E; lia | now left].
Defined.

(** ** Game mode: the start of a game *)

Lemma Math_floor_bounds (x : Q) : Math_floor x <= x /\ x < Math_floor x + 1.
Proof.
  unfold Math_floor. split; [apply Qfloor_le |].
  pose proof (Qlt_floor x) as H. rewrite inject_Z_plus in H. exact H.
Qed.

Lemma Math_floor_mono (x y : Q) : x <= y -> Math_floor x <= Math_floor y.
Proof.
  intro H. unfold Math_floor. rewrite <- Zle_Qle. now apply Qfloor_resp_le.
Qed.

Lemma Math_floor_int (z : Z) : Math_floor (inject_Z z) = inject_Z z.
Proof. unfold Math_floor. now rewrite Qfloor_Z. Qed.

(** An integer that is below an integer bound plus one is at most the
    bound. *)
Lemma Math_floor_lt_int (x : Q) (k : Z) :
  x < inject_Z k + 1 -> Math_floor x <= inject_Z k.
Proof.
  intro H. unfold Math_floor. rewrite <- Zle_Qle.
  pose proof (Qfloor_le x) as Hf.
  assert (Hlt : inject_Z (Qfloor x) < inject_Z (k + 1))
    by (rewrite inject_Z_plus; change (inject_Z 1) with 1; lra).
  rewrite <- Zlt_Qlt in Hlt. lia.
Qed.

Lemma initializeGame_fields (u : UI) (r1 r2 : Q) :
  let w := mkWormhole (initialWhSize u) (initialWhState u) in
  let orig :=
    Math_floor (r1 * (getMaxMass w - getMinMass w + 1)) + getMinMass w in
  let pct :=
    match initialWhState u with
    | fresh => 1
    | stable => (1 # 2) + r2 * (1 # 2)
    | destab => (1 # 10) + r2 * (4 # 10)
    | critical => r2 * (1 # 10)
    | gone => 1
    end in
  initialActualMass (initializeGame u r1 r2) = orig
  /\ remainingMass (initializeGame u r1 r2) = Math_floor (orig * pct)
  /\ randomEventOccurred (initializeGame u r1 r2) = false
  /\ committedActions (initializeGame u r1 r2) = committedActions u
  /\ currentWhState (initializeGame u r1 r2) = currentWhState u
  /\ initialWhSize (initializeGame u r1 r2) = initialWhSize u
  /\ initialWhState (initializeGame u r1 r2) = initialWhState u.
Proof. repeat split. Qed.

Lemma original_in_band (base : Z) (s : WhState) (r1 : Q) :
  (0 <= base)%Z -> 0 <= r1 -> r1 < 1 ->
  let w := mkWormhole base s in
  let orig :=
    Math_floor (r1 * (getMaxMass w - getMinMass w + 1)) + getMinMass w in
  getMinMass w <= orig /\ orig <= getMaxMass w
  /\ exists z, orig == inject_Z z.
Proof.
  intros Hbase H0 H1 w orig.
  pose proof (getMin_le_getMax w Hbase) as Hle.
  set (lo := getMinMass w) in *. set (hi := getMaxMass w) in *.
  assert (Hint : exists zl zh, lo = inject_Z zl /\ hi = inject_Z zh)
    by (do 2 eexists; split; reflexivity).
  destruct Hint as (zl & zh & El & Eh).
  set (x := r1 * (hi - lo + 1)) in *.
  assert (Hx0 : 0 <= x) by (unfold x; apply Qmult_le_0_compat; lra).
  assert (Hx1 : x < hi - lo + 1).
  { unfold x.
    assert (r1 * (hi - lo + 1) < 1 * (hi - lo + 1))
      by (apply Qmult_lt_compat_r; lra).
    lra. }
  assert (Hf0 : 0 <= Math_floor x).
  { pose proof (Math_floor_mono 0 x Hx0) as Hm.
    assert (E : Math_floor 0 = 0) by reflexivity.
    now rewrite E in Hm. }
  assert (Hf1 : Math_floor x <= inject_Z (zh - zl)).
  { apply Math_floor_lt_int.
    unfold Zminus. rewrite inject_Z_plus, inject_Z_opp, <- El, <- Eh. lra. }
  unfold Zminus in Hf1. rewrite inject_Z_plus, inject_Z_opp, <- El, <- Eh in Hf1.
  unfold orig. fold x. split; [lra |]. split; [lra |].
  exists (Qfloor x + zl)%Z. rewrite inject_Z_plus, El. reflexivity.
Qed.

Lemma initializeGame_band (u : UI) (r1 r2 : Q) :
  (0 <= initialWhSize u)%Z ->
  0 <= r1 -> r1 < 1 -> 0 <= r2 -> r2 < 1 ->
  let w := mkWormhole (initialWhSize u) (initialWhState u) in
  let u' := initializeGame u r1 r2 in
  let orig := initialActualMass u' in
  let rem := remainingMass u' in
  getMinMass w <= orig /\ orig <= getMaxMass w
  /\ (exists z, orig == inject_Z z)
  /\ 0 <= rem /\ rem <= orig
  /\ match initialWhState u with
     | fresh | gone => rem == orig
     | stable => orig * (1 # 2) - 1 < rem
     | destab => orig * (1 # 10) - 1 < rem /\ rem <= orig * (1 # 2)
     | critical => rem <= orig * (1 # 10)
     end
  /\ randomEventOccurred u' = false.
Proof.
  intros Hbase H0 H1 H2 H3 w u' orig rem.
  destruct (initializeGame_fields u r1 r2) as (Eo & Er & Ef & _).
  pose proof (original_in_band (initialWhSize u) (initialWhState u) r1
                Hbase H0 H1) as Hband.
  cbv zeta in Hband. destruct Hband as (Hlo & Hhi & z & Ez).
  pose proof (getMinMass_nonneg w Hbase) as Hmin0.
  subst orig rem u'. cbv zeta in Eo, Er. rewrite Eo, Er, Ef. clear Eo Er Ef.
  fold w. fold w in Hlo, Hhi, Ez.
  set (orig := Math_floor (r1 * (getMaxMass w - getMinMass w + 1))
               + getMinMass w) in *.
  set (lo := getMinMass w) in *. set (hi := getMaxMass w) in *.
  clearbody orig lo hi. clear w.
  assert (Ho : 0 <= orig) by lra.
  split; [exact Hlo |]. split; [exact Hhi |].
  split; [exists z; exact Ez |].
  assert (Hpct : forall p, 0 <= p -> p <= 1 ->
            0 <= Math_floor (orig * p) /\ Math_floor (orig * p) <= orig).
  { intros p Hp0 Hp1.
    assert (0 <= orig * p) by (apply Qmult_le_0_compat; lra).
    assert (orig * p <= orig) by nra.
    pose proof (Math_floor_bounds (orig * p)) as [Hb _].
    split; [| lra].
    pose proof (Math_floor_mono 0 (orig * p) H) as Hm.
    assert (E : Math_floor 0 = 0) by reflexivity.
    now rewrite E in Hm. }
  assert (E1 : Math_floor (orig * 1) == orig).
  { assert (E : orig * 1 == inject_Z z) by (rewrite Ez; ring).
    unfold Math_floor. rewrite (Qfloor_comp _ _ E), Qfloor_Z.
    now rewrite Ez. }
  destruct (initialWhState u).
  - repeat split; lra.
  - destruct (Hpct ((1 # 2) + r2 * (1 # 2))) as [A B]; try lra.
    pose proof (Math_floor_bounds (orig * ((1 # 2) + r2 * (1 # 2))))
      as [_ Hu].
    repeat split; try lra. nra.
  - destruct (Hpct ((1 # 10) + r2 * (4 # 10))) as [A B]; try lra.
    pose proof (Math_floor_bounds (orig * ((1 # 10) + r2 * (4 # 10))))
      as [Hl Hu].
    repeat split; try lra; nra.
  - destruct (Hpct (r2 * (1 # 10))) as [A B]; try lra.
    pose proof (Math_floor_bounds (orig * (r2 * (1 # 10)))) as [Hl Hu].
    repeat split; try lra; nra.
  - repeat split; lra.
Qed.


Lemma derivedState_severity (rem orig : Q) :
  0 < orig ->
  (rem <= orig * (1 # 2) -> (1 <= severity (derivedState rem orig))%nat)
  /\ (rem <= orig * (1 # 10) -> (2 <= severity (derivedState rem orig))%nat).
Proof.
  intro Hpos.
  assert (Hpct : forall c, rem <= orig * c ->
                           percentRemaining rem orig <= c * 100).
  { intros c Hc. unfold percentRemaining.
    assert (rem / orig <= c) by (apply Qle_shift_div_r; [exact Hpos | lra]).
    lra. }
  unfold derivedState.
  destruct (Qle_bool rem 0); [split; intros; simpl; lia |].
  destruct (Qle_bool (percentRemaining rem orig) 10) eqn:E1;
    [split; intros; simpl; lia |].
  assert (H1 : ~ percentRemaining rem orig <= 10)
    by (intro H; apply Qle_bool_iff in H; congruence).
  destruct (Qle_bool (percentRemaining rem orig) 50) eqn:E2.
  - split; intro H; [simpl; lia |]. apply Hpct in H. exfalso. lra.
  - assert (H2 : ~ percentRemaining rem orig <= 50)
      by (intro H; apply Qle_bool_iff in H; congruence).
    split; intro H; apply Hpct in H; exfalso; lra.
Qed.

(** X21: [initializeGame], for draws in [0, 1) and a non-negative base
    capacity, hides an integer original capacity within the variance band
    [round (0.9 base), round (1.1 base)] and a remaining mass between 0 and
    that capacity: all of it for a fresh hole, more than half of it less one
    for a stable one, between a tenth less one and a half for a destabilised
    one, at most a tenth for a critical one.  The hidden mass can thus lie
    at or just below the 50 or 10 percent mark: the state derived from it
    is never less severe than the initial state chosen (fresh counting as
    stable, and [gone] not being offered), but it can be more severe.
    Random events are allowed again. *)
Theorem initializeGame_bounds (u : UI) (r1 r2 : Q) :
  (0 <= initialWhSize u)%Z ->
  0 <= r1 -> r1 < 1 -> 0 <= r2 -> r2 < 1 ->
  let w := mkWormhole (initialWhSize u) (initialWhState u) in
  let u' := initializeGame u r1 r2 in
  let orig := initialActualMass u' in
  let rem := remainingMass u' in
  getMinMass w <= orig /\ orig <= getMaxMass w
  /\ (exists z, orig == inject_Z z)
  /\ 0 <= rem /\ rem <= orig
  /\ match initialWhState u with
     | fresh | gone => rem == orig
     | stable => orig * (1 # 2) - 1 < rem
     | destab => orig * (1 # 10) - 1 < rem /\ rem <= orig * (1 # 2)
     | critical => rem <= orig * (1 # 10)
     end
  /\ randomEventOccurred u' = false
  /\ (initialWhState u <> gone ->
      (severity (initialWhState u) <= severity (derivedState rem orig))%nat).
Proof.
  intros Hbase H0 H1 H2 H3 w u' orig rem.
  pose proof (initializeGame_band u r1 r2 Hbase H0 H1 H2 H3) as H.
  cbv zeta in H. fold u' in H. fold orig rem in H. fold w in H.
  destruct H as (A & B & C & D & E & F & G).
  repeat (split; [assumption |]).
  intro Hne.
  destruct (Qlt_le_dec 0 orig) as [Hpos | Hz].
  - destruct (derivedState_severity rem orig Hpos) as [S1 S2].
    destruct (initialWhState u); simpl severity; try lia.
    + apply S1. tauto.
    + now apply S2.
    + congruence.
  - assert (Hg : derivedState rem orig = gone)
      by (apply derivedState_gone; lra).
    rewrite Hg. destruct (initialWhState u); simpl; lia.
Qed.

Lemma initializeGame_bounds_witness :
  remainingMass
    (initializeGame (set_currentWhState destab Sample.game3000) (1 # 3) (1 # 3))
  <= initialActualMass
       (initializeGame (set_currentWhState destab Sample.game3000)
          (1 # 3) (1 # 3)).
Proof.
  apply (initializeGame_bounds (set_currentWhState destab Sample.game3000)
           (1 # 3) (1 # 3)); vm_compute; first [discriminate | reflexivity].
Defined.

(** X22: a game started on a fresh or on a critical wormhole (non-negative
    base capacity, draws in [0, 1)) is consistent at the start: the hidden
    mass lies within the interval shown.  (A start in [stable] or in
    [destab] gives no such guarantee.) *)
Theorem game_start_consistent
    (fleet : gmap string nat) (whSize : Z) (whState : WhState)
    (whRestriction : Z) (r1 r2 : Q) :
  (0 <= whSize)%Z -> 0 <= r1 -> r1 < 1 -> 0 <= r2 -> r2 < 1 ->
  whState = fresh \/ whState = critical ->
  let u := startTracking (newUI gameMode fleet) whSize whState whRestriction
             r1 r2 in
  min (calculateCurrentMass u) <= remainingMass u
  /\ remainingMass u <= max (calculateCurrentMass u)
  /\ consistent u.
Proof.
  intros Hbase H0 H1 H2 H3 Hst u.
  assert (H : min (calculateCurrentMass u) <= remainingMass u
              /\ remainingMass u <= max (calculateCurrentMass u));
    [| destruct H; repeat split; intros; assumption].
  pose proof (original_in_band whSize whState r1 Hbase H0 H1) as Hband.
  cbv zeta in Hband. destruct Hband as (Hlo & Hhi & z & Ez).
  pose proof (getMinMass_nonneg (mkWormhole whSize whState) Hbase) as Hmin0.
  unfold u, startTracking, calculateCurrentMass. simpl.
  unfold getCurrentMassRange. simpl.
  change (Math_round (inject_Z whSize * (1 - (1 # 10))))
    with (getMinMass (mkWormhole whSize whState)).
  change (Math_round (inject_Z whSize * (1 + (1 # 10))))
    with (getMaxMass (mkWormhole whSize whState)).
  set (lo := getMinMass (mkWormhole whSize whState)) in *.
  set (hi := getMaxMass (mkWormhole whSize whState)) in *.
  set (orig := Math_floor (r1 * (hi - lo + 1)) + lo) in *.
  clearbody orig lo hi.
  destruct Hst as [-> | ->]; simpl.
  - assert (E1 : Math_floor (orig * 1) == orig).
    { assert (E : orig * 1 == inject_Z z) by (rewrite Ez; ring).
      unfold Math_floor. rewrite (Qfloor_comp _ _ E), Qfloor_Z.
      now rewrite Ez. }
    split; lra.
  - rewrite Math_round_zero.
    assert (Hx : 0 <= orig * (r2 * (1 # 10)))
      by (apply Qmult_le_0_compat; lra).
    assert (Hy : orig * (r2 * (1 # 10)) <= hi * (1 # 10) + (1 # 2)) by nra.
    split.
    + pose proof (Math_floor_mono 0 _ Hx) as Hm.
      assert (E : Math_floor 0 = 0) by reflexivity.
      now rewrite E in Hm.
    + apply (Math_floor_mono _ _ Hy).
Qed.

Lemma game_start_consistent_witness :
  consistent (startTracking (newUI gameMode ∅) 750 critical 3 0 (1 # 2)).
Proof.
  apply (game_start_consistent ∅ 750 critical 3 0 (1 # 2));
    first [lia | lra | now right].
Defined.

(** ** Random events: ships and triggers *)

(** X23: for an event that passed the restriction filter, the ship object
    built for each sub-action weighs exactly what an unknown-mode ship of
    that type weighs (the cruiser fallback is never used), so its jump moves
    the displayed interval like an unknown-mode jump of that ship. *)
Theorem createEventShip_mass
    (TYPES : gmap string ShipData) (restriction : Z) (event : RandomEvent) :
  eventFits TYPES restriction event = true ->
  forall a, In a (ev_actions event) ->
    getMass TYPES (createEventShip TYPES a)
    = getMass TYPES (Ship (shipType a) mode_unknown)
    /\ forall d cur,
         applyToMass TYPES (mkAction (createEventShip TYPES a) d) cur None
         = applyToMass TYPES (mkAction (Ship (shipType a) mode_unknown) d)
             cur None.
Proof.
  intros Hfit a Ha.
  apply eventFits_spec in Hfit. destruct (Hfit a Ha) as (sd & sz & Hd & _).
  assert (E : getMass TYPES (createEventShip TYPES a)
              = getMass TYPES (Ship (shipType a) mode_unknown))
    by (unfold createEventShip; simpl; now rewrite Hd).
  split; [exact E |].
  intros d cur. unfold applyToMass. simpl ship. now rewrite E.
Qed.

Lemma createEventShip_mass_witness :
  getMass Sample.sizedShips
    (createEventShip Sample.sizedShips (mkEventAction "cruiser" "outgoing"))
  = getMass Sample.sizedShips (Ship "cruiser" mode_unknown).
Proof.
  apply (createEventShip_mass Sample.sizedShips 3 Sample.cruiserJump).
  - vm_compute; reflexivity.
  - simpl. tauto.
Defined.

Lemma triggeredFrom_spec (o : Oracle) (events : list RandomEvent) :
  forall i e,
    In e (triggeredFrom o i events)
    <-> exists j, events !! j = Some e
                  /\ rolls o (i + j) < probability e.
Proof.
  induction events as [| ev rest IH]; intros i e; simpl.
  - split; [tauto | intros (j & Hj & _); discriminate].
  - destruct (Qlt_bool (rolls o i) (probability ev)) eqn:Et.
    + apply Qlt_bool_iff in Et. simpl. rewrite IH. split.
      * intros [<- | (j & Hj & Hr)].
        -- exists 0%nat. rewrite Nat.add_0_r. auto.
        -- exists (S j). rewrite Nat.add_succ_r. auto.
      * intros ([| j] & Hj & Hr); simpl in Hj.
        -- left. congruence.
        -- right. exists j. rewrite Nat.add_succ_r in Hr. auto.
    + rewrite IH. split.
      * intros (j & Hj & Hr). exists (S j). rewrite Nat.add_succ_r. auto.
      * intros ([| j] & Hj & Hr); simpl in Hj.
        -- injection Hj as <-. rewrite Nat.add_0_r in Hr.
           apply Qlt_bool_iff in Hr. congruence.
        -- exists j. rewrite Nat.add_succ_r in Hr. auto.
Qed.

(** X24: in game mode and before any event has occurred, the events
    returned by [checkForRandomEvents] are exactly the entries of
    [RANDOM_EVENTS] whose own draw is below their probability; hence, for
    draws in [0, 1), an entry of probability 1 or more always triggers and
    one of probability 0 or less never does.  In tracker mode nothing ever
    triggers. *)
Theorem checkForRandomEvents_spec
    (EVENTS : list RandomEvent) (u : UI) (o : Oracle) :
  (currentMode u = gameMode -> randomEventOccurred u = false ->
   (forall e,
       In e (checkForRandomEvents EVENTS u o)
       <-> exists i, EVENTS !! i = Some e /\ rolls o i < probability e)
   /\ ((forall i, 0 <= rolls o i /\ rolls o i < 1) ->
       forall e,
         In e EVENTS ->
         (1 <= probability e -> In e (checkForRandomEvents EVENTS u o))
         /\ (probability e <= 0 ->
             ~ In e (checkForRandomEvents EVENTS u o))))
  /\ (currentMode u = trackerMode -> checkForRandomEvents EVENTS u o = []).
Proof.
  split.
  - intros Hm Hf.
    assert (Hspec : forall e,
       In e (checkForRandomEvents EVENTS u o)
       <-> exists i, EVENTS !! i = Some e /\ rolls o i < probability e).
    { intro e. unfold checkForRandomEvents. rewrite Hm, Hf. simpl.
      apply (triggeredFrom_spec o EVENTS 0 e). }
    split; [exact Hspec |].
    intros Hr e He. split.
    + intro Hp. apply Hspec.
      apply list_elem_of_In in He.
      apply list_elem_of_lookup in He. destruct He as [i Hi].
      exists i. split; [exact Hi |]. destruct (Hr i). lra.
    + intros Hp Hin. apply Hspec in Hin.
      destruct Hin as (i & Hi & Hlt). destruct (Hr i). lra.
  - intro Hm. unfold checkForRandomEvents. now rewrite Hm.
Qed.

Lemma checkForRandomEvents_spec_witness :
  In Sample.carrierJump
    (checkForRandomEvents Sample.sureEvents Sample.game3000 (Sample.draws 0)).
Proof.
  destruct (checkForRandomEvents_spec Sample.sureEvents Sample.game3000
              (Sample.draws 0)) as [H _].
  destruct (H eq_refl eq_refl) as [_ Hall].
  assert (Hr : forall i : nat,
             0 <= rolls (Sample.draws 0) i /\ rolls (Sample.draws 0) i < 1)
    by (intro i; simpl; split; lra).
  apply (Hall Hr Sample.carrierJump).
  - simpl. tauto.
  - simpl. lra.
Defined.

(** ** The set-up panel *)

(** X25: the random far-side fleet gives every ship type of [SHIP_TYPES] a
    count between 0 and 5 (amount draws in [0, 1)); a type whose size
    exceeds the restriction level, or has none, or whose roll is not above
    0.75, gets 0, the others get at least 1; counts of keys outside
    [SHIP_TYPES] are left as they were. *)
Theorem randomizeFarSideFleet_counts
    (TYPES : gmap string ShipData) (fleet : gmap string nat)
    (restrictionLevel : Z) (roll amount : string -> Q) (k : string) :
  0 <= amount k -> amount k < 1 ->
  let fleet' := randomizeFarSideFleet TYPES fleet restrictionLevel roll amount in
  (forall ship,
      TYPES !! k = Some ship ->
      (count fleet' k <= 5)%nat
      /\ (sizeFits ship restrictionLevel = false -> count fleet' k = 0%nat)
      /\ (roll k <= 3 # 4 -> count fleet' k = 0%nat)
      /\ (sizeFits ship restrictionLevel = true -> 3 # 4 < roll k ->
          (1 <= count fleet' k)%nat))
  /\ (TYPES !! k = None -> fleet' !! k = fleet !! k).
Proof.
  intros H0 H1 fleet'. unfold fleet', randomizeFarSideFleet, count.
  split.
  - intros ship Hk.
    rewrite lookup_union_l'
      by (rewrite map_lookup_imap, Hk; simpl; eauto).
    rewrite map_lookup_imap, Hk. cbn -[Qfloor].
    assert (Hamt : (1 <= Z.to_nat (Qfloor (amount k * 5) + 1) <= 5)%nat).
    { assert (Hf0 : (0 <= Qfloor (amount k * 5))%Z).
      { change 0%Z with (Qfloor 0). apply Qfloor_resp_le. lra. }
      assert (Hf5 : (Qfloor (amount k * 5) < 5)%Z).
      { rewrite Zlt_Qlt. pose proof (Qfloor_le (amount k * 5)).
        change (inject_Z 5) with 5. lra. }
      lia. }
    set (amt := Z.to_nat (Qfloor (amount k * 5) + 1)) in *. clearbody amt.
    destruct (sizeFits ship restrictionLevel); simpl.
    + destruct (Qlt_bool (3 # 4) (roll k)) eqn:Er.
      * apply Qlt_bool_iff in Er.
        repeat split; intros;
          first [lia | congruence | exfalso; lra].
      * assert (Hn : ~ 3 # 4 < roll k)
          by (intro X; apply Qlt_bool_iff in X; congruence).
        repeat split; intros; first [lia | contradiction].
    + repeat split; intros; first [lia | congruence].
  - intro Hk. apply lookup_union_r. now rewrite map_lookup_imap, Hk.
Qed.

Lemma randomizeFarSideFleet_counts_witness :
  count (randomizeFarSideFleet Sample.sizedShips ∅ 3
           (fun _ => 9 # 10) (fun _ => 1 # 2)) "carrier" = 0%nat.
Proof.
  destruct (randomizeFarSideFleet_counts Sample.sizedShips ∅ 3
              (fun _ => 9 # 10) (fun _ => 1 # 2) "carrier"%string)
    as [H _]; [lra | lra |].
  assert (Hk : Sample.sizedShips !! "carrier"%string
               = Some (mkShipData "Carrier" 1250 1750 (Some 5%Z)))
    by (vm_compute; reflexivity).
  destruct (H _ Hk) as (_ & Hsz & _). apply Hsz. reflexivity.
Defined.

(** X26: a [Ship] whose type is not a key of [SHIP_TYPES] weighs nothing in
    every mode, so that applying it changes no ordered non-negative
    interval and, with a boundary state, only clamps it; but it cannot be
    displayed: [getDisplayName] throws, unless the type is a name inherited
    from [Object.prototype], whereas every type of the table has a display
    name. *)
Theorem unknown_ship_type
    (TYPES : gmap string ShipData) (k : string) (mode : ShipMode) :
  TYPES !! k = None ->
  getMass TYPES (Ship k mode) = mkRange 0 0
  /\ (forall d cur,
        0 <= min cur -> min cur <= max cur ->
        sameRange (applyToMass TYPES (mkAction (Ship k mode) d) cur None) cur)
  /\ (forall d cur w,
        0 <= min cur -> min cur <= max cur ->
        sameRange
          (applyToMass TYPES (mkAction (Ship k mode) d) cur (Some w))
          (constrain cur (getStateBoundaries w)))
  /\ (Display.getDisplayName TYPES k mode = None <-> Js.inherited k = false)
  /\ (forall k' mode', Display.getDisplayName TYPES k' mode' = None ->
                       TYPES !! k' = None).
Proof.
  intro Hk.
  assert (Hm : getMass TYPES (Ship k mode) = mkRange 0 0)
    by (simpl; now rewrite Hk).
  assert (Hraw : forall d cur,
             0 <= min cur -> min cur <= max cur ->
             sameRange (applyToMass TYPES (mkAction (Ship k mode) d) cur None)
                       cur).
  { intros d cur H0 Hord. unfold sameRange, applyToMass. simpl ship.
    rewrite Hm. simpl.
    q_max 0 (min cur - 0); q_max 0 (max cur - 0); split; lra. }
  split; [exact Hm |]. split; [exact Hraw |]. split; [| split].
  - intros d cur w H0 Hord.
    change (applyToMass TYPES (mkAction (Ship k mode) d) cur (Some w))
      with (constrain (applyToMass TYPES (mkAction (Ship k mode) d) cur None)
              (getStateBoundaries w)).
    apply constrain_comp. now apply Hraw.
  - unfold Display.getDisplayName. rewrite Hk.
    destruct (Js.inherited k); split; congruence.
  - intros k' mode'. unfold Display.getDisplayName.
    destruct (TYPES !! k'); [discriminate | reflexivity].
Qed.

Lemma unknown_ship_type_witness :
  Display.getDisplayName SHIP_TYPES "dictor" mode_hot = None.
Proof.
  destruct (unknown_ship_type SHIP_TYPES "dictor" mode_hot)
    as (_ & _ & _ & H & _); [vm_compute; reflexivity |].
  apply H. vm_compute; reflexivity.
Defined.

(** ** The wormhole catalogue ([wormhole-data.js]) *)

Lemma getProp_In {A} (l : list (string * A)) k v :
  Data.getProp l k = Some v -> In (k, v) l.
Proof.
  induction l as [| [k' v'] rest IH]; simpl; [discriminate |].
  destruct (String.eqb k' k) eqn:E.
  - apply String.eqb_eq in E. intros [= <-]. left. now subst.
  - intro H. right. now apply IH.
Qed.

Lemma In_getProp {A} (l : list (string * A)) k v :
  NoDup (map fst l) -> In (k, v) l -> Data.getProp l k = Some v.
Proof.
  induction l as [| [k' v'] rest IH]; simpl; [tauto |].
  intros Hnd [H | H].
  - injection H as -> ->. now rewrite String.eqb_refl.
  - apply NoDup_cons in Hnd. destruct Hnd as [Hk Hrest].
    destruct (String.eqb k' k) eqn:E; [| now apply IH].
    apply String.eqb_eq in E. subst k'. exfalso. apply Hk.
    apply list_elem_of_In. apply in_map_iff. now exists (k, v).
Qed.

Lemma filter_keys {A} (l : list (string * A)) (p : string * A -> bool) c :
  NoDup (map fst l) ->
  In c (map fst (List.filter p l))
  <-> exists d, Data.getProp l c = Some d /\ p (c, d) = true.
Proof.
  intro Hnd. rewrite in_map_iff. split.
  - intros ([k d] & Hk & Hin). simpl in Hk. subst k.
    apply filter_In in Hin. destruct Hin as [Hin Hp].
    exists d. split; [now apply In_getProp | exact Hp].
  - intros (d & Hg & Hp). exists (c, d). split; [reflexivity |].
    apply filter_In. split; [now apply getProp_In | exact Hp].
Qed.

Lemma WORMHOLE_DATA_keys : NoDup (map fst Data.WORMHOLE_DATA).
Proof. apply (bool_decide_unpack _). vm_compute. reflexivity. Qed.

Lemma WORMHOLE_DATA_wellformed :
  forall c d,
    Data.getProp Data.WORMHOLE_DATA c = Some d ->
    In (Data.totalMass d) WORMHOLE_MASS_TYPES
    /\ (1 <= Data.restriction d <= 5)%Z
    /\ Data.special d = None
    /\ Data.getProp Data.SPECIAL_WORMHOLES c = None.
Proof.
  assert (Hall :
    forallb
      (fun e : string * Data.WhData =>
         existsb (Z.eqb (Data.totalMass (snd e))) WORMHOLE_MASS_TYPES
         && Z.leb 1 (Data.restriction (snd e))
         && Z.leb (Data.restriction (snd e)) 5
         && match Data.special (snd e) with None => true | Some _ => false end
         && match Data.getProp Data.SPECIAL_WORMHOLES (fst e) with
            | None => true
            | Some _ => false
            end)
      Data.WORMHOLE_DATA = true) by (vm_compute; reflexivity).
  intros c d Hg. apply getProp_In in Hg.
  rewrite forallb_forall in Hall. specialize (Hall (c, d) Hg). cbn [fst snd] in Hall.
  repeat (apply andb_prop in Hall; destruct Hall as [Hall ?]).
  split; [| split; [| split]].
  - apply existsb_exists in Hall. destruct Hall as (x & Hx & Ex).
    apply Z.eqb_eq in Ex. now rewrite Ex.
  - split; now apply Z.leb_le.
  - now destruct (Data.special d).
  - now destruct (Data.getProp Data.SPECIAL_WORMHOLES c).
Qed.

Lemma getMember_None {A} (obj : list (string * A)) (key : string) :
  Data.getMember obj key = None
  <-> Data.getProp obj key = None /\ Js.inherited key = false.
Proof.
  unfold Data.getMember.
  destruct (Data.getProp obj key); [split; [discriminate | intros [? _]; discriminate] |].
  destruct (Js.inherited key); split;
    first [discriminate | tauto | intros [_ ?]; discriminate].
Qed.

(** X27: [getWormholeInfo] returns [null] exactly for a code that is a key
    of neither table and not a name inherited from [Object.prototype], and
    otherwise an object carrying that code.  For every catalogued wormhole
    the object carries the entry's own mass, restriction and destination;
    the mass is one of the selectable [WORMHOLE_MASS_TYPES], the
    restriction is between 1 and 5 so that the restriction text is one of
    [RESTRICTION_LEVELS] and never ['Variable'], and [special] is [null].
    For an inherited name such as ['constructor'] the object has the text
    ['Variable'] and no mass, restriction or destination. *)
Theorem getWormholeInfo_spec (c : string) :
  (Data.getWormholeInfo c = None
   <-> Data.getProp Data.WORMHOLE_DATA c = None
       /\ Data.getProp Data.SPECIAL_WORMHOLES c = None
       /\ Js.inherited c = false)
  /\ (forall info, Data.getWormholeInfo c = Some info -> Data.code info = c)
  /\ (forall d,
        In (c, d) Data.WORMHOLE_DATA ->
        exists info,
          Data.getWormholeInfo c = Some info
          /\ Data.info_totalMass info = Some (Data.totalMass d)
          /\ Data.info_restriction info = Some (Data.restriction d)
          /\ Data.info_destination info = Some (Data.destination d)
          /\ Data.info_special info = None
          /\ In (Data.totalMass d) WORMHOLE_MASS_TYPES
          /\ (1 <= Data.restriction d <= 5)%Z
          /\ Data.getLevel Data.RESTRICTION_LEVELS (Data.restriction d)
             = Some (Data.restrictionText info)
          /\ Data.restrictionText info <> "Variable"%string)
  /\ (Js.inherited c = true ->
      Data.getWormholeInfo c
      = Some (Data.mkWhInfo c None None "Variable" None None)).
Proof.
  assert (Hown : Js.inherited c = true ->
                 Data.getProp Data.WORMHOLE_DATA c = None
                 /\ Data.getProp Data.SPECIAL_WORMHOLES c = None).
  { intro Hi. unfold Js.inherited in Hi. apply existsb_exists in Hi.
    destruct Hi as (k & Hk & E). apply String.eqb_eq in E. subst k.
    unfold Js.OBJECT_PROTOTYPE in Hk. simpl in Hk.
    repeat (destruct Hk as [<- | Hk]; [split; vm_compute; reflexivity |]).
    destruct Hk. }
  split; [| split; [| split]].
  - unfold Data.getWormholeInfo.
    destruct (Data.getMember Data.WORMHOLE_DATA c) as [v |] eqn:E1.
    + split; [destruct v; discriminate |].
      intros (A & _ & B). exfalso.
      assert (Data.getMember Data.WORMHOLE_DATA c = None)
        by (apply getMember_None; tauto).
      congruence.
    + apply getMember_None in E1. destruct E1 as [A B].
      destruct (Data.getMember Data.SPECIAL_WORMHOLES c) as [v |] eqn:E2.
      * split; [destruct v; discriminate |].
        intros (_ & C & _). exfalso.
        assert (Data.getMember Data.SPECIAL_WORMHOLES c = None)
          by (apply getMember_None; tauto).
        congruence.
      * apply getMember_None in E2. tauto.
  - intro info. unfold Data.getWormholeInfo.
    destruct (Data.getMember Data.WORMHOLE_DATA c) as [[v |] |];
      [intros [= <-]; reflexivity | intros [= <-]; reflexivity |].
    destruct (Data.getMember Data.SPECIAL_WORMHOLES c) as [[v |] |];
      [intros [= <-]; reflexivity | intros [= <-]; reflexivity
      | discriminate].
  - intros d Hin.
    pose proof (In_getProp _ _ _ WORMHOLE_DATA_keys Hin) as Hg.
    destruct (WORMHOLE_DATA_wellformed c d Hg) as (Hm & Hr & Hs & _).
    assert (Hlev : exists t,
              Data.getLevel Data.RESTRICTION_LEVELS (Data.restriction d)
              = Some t /\ t <> "Variable"%string).
    { assert (Hcases : Data.restriction d = 1%Z \/ Data.restriction d = 2%Z
                       \/ Data.restriction d = 3%Z \/ Data.restriction d = 4%Z
                       \/ Data.restriction d = 5%Z) by lia.
      destruct Hcases as [E | [E | [E | [E | E]]]]; rewrite E;
        eexists; (split; [reflexivity | discriminate]). }
    destruct Hlev as (t & Et & Hne).
    unfold Data.getWormholeInfo, Data.getMember. rewrite Hg.
    cbv beta iota zeta.
    rewrite Et, Hs. eexists. split; [reflexivity |].
    cbn [Data.info_totalMass Data.info_restriction Data.info_destination
         Data.info_special Data.restrictionText Data.specialOrNull
         default from_option id].
    repeat split; auto; lia.
  - intro Hi. destruct (Hown Hi) as [A B].
    unfold Data.getWormholeInfo, Data.getMember. now rewrite A, Hi.
Qed.

Lemma getWormholeInfo_spec_witness :
  Data.getWormholeInfo "constructor"
  = Some (Data.mkWhInfo "constructor" None None "Variable" None None).
Proof.
  destruct (getWormholeInfo_spec "constructor") as (_ & _ & _ & H).
  apply H. vm_compute; reflexivity.
Defined.

(** X28: each of the three catalogue filters returns exactly the catalogued
    codes whose entry satisfies its test: the restriction level, the
    destination, or a total mass within the closed range; special wormholes
    are never returned. *)
Theorem wormhole_filters (c : string) :
  (forall r,
      In c (Data.getWormholesByRestriction r)
      <-> exists d, Data.getProp Data.WORMHOLE_DATA c = Some d
                    /\ Data.restriction d = r)
  /\ (forall dest,
        In c (Data.getWormholesByDestination dest)
        <-> exists d, Data.getProp Data.WORMHOLE_DATA c = Some d
                      /\ Data.destination d = dest)
  /\ (forall minMass maxMass,
        In c (Data.getWormholesByMassRange minMass maxMass)
        <-> exists d, Data.getProp Data.WORMHOLE_DATA c = Some d
                      /\ minMass <= inject_Z (Data.totalMass d)
                      /\ inject_Z (Data.totalMass d) <= maxMass)
  /\ (Data.getProp Data.SPECIAL_WORMHOLES c <> None ->
      forall r dest minMass maxMass,
        ~ In c (Data.getWormholesByRestriction r)
        /\ ~ In c (Data.getWormholesByDestination dest)
        /\ ~ In c (Data.getWormholesByMassRange minMass maxMass)).
Proof.
  assert (H1 : forall r,
      In c (Data.getWormholesByRestriction r)
      <-> exists d, Data.getProp Data.WORMHOLE_DATA c = Some d
                    /\ Data.restriction d = r).
  { intro r. unfold Data.getWormholesByRestriction.
    rewrite (filter_keys _ _ _ WORMHOLE_DATA_keys). simpl.
    split; intros (d & Hg & Hp); exists d; split; auto;
      now apply Z.eqb_eq. }
  assert (H2 : forall dest,
      In c (Data.getWormholesByDestination dest)
      <-> exists d, Data.getProp Data.WORMHOLE_DATA c = Some d
                    /\ Data.destination d = dest).
  { intro dest. unfold Data.getWormholesByDestination.
    rewrite (filter_keys _ _ _ WORMHOLE_DATA_keys). simpl.
    split; intros (d & Hg & Hp); exists d; split; auto;
      now apply String.eqb_eq. }
  assert (H3 : forall minMass maxMass,
      In c (Data.getWormholesByMassRange minMass maxMass)
      <-> exists d, Data.getProp Data.WORMHOLE_DATA c = Some d
                    /\ minMass <= inject_Z (Data.totalMass d)
                    /\ inject_Z (Data.totalMass d) <= maxMass).
  { intros lo hi. unfold Data.getWormholesByMassRange.
    rewrite (filter_keys _ _ _ WORMHOLE_DATA_keys). simpl.
    split; intros (d & Hg & Hp); exists d; (split; [exact Hg |]).
    - apply andb_prop in Hp. destruct Hp as [A B].
      split; now apply Qle_bool_iff.
    - destruct Hp as [A B]. apply andb_true_intro.
      split; now apply Qle_bool_iff. }
  split; [exact H1 |]. split; [exact H2 |]. split; [exact H3 |].
  intros Hsp r dest lo hi.
  assert (Hno : Data.getProp Data.WORMHOLE_DATA c = None).
  { destruct (Data.getProp Data.WORMHOLE_DATA c) as [d |] eqn:E;
      [| reflexivity].
    destruct (WORMHOLE_DATA_wellformed c d E) as (_ & _ & _ & Hn).
    contradiction. }
  repeat split; intro Hin;
    [apply H1 in Hin | apply H2 in Hin | apply H3 in Hin];
    destruct Hin as (d & Hg & _); congruence.
Qed.

Lemma wormhole_filters_witness :
  ~ In "K162"%string (Data.getWormholesByRestriction 0).
Proof.
  assert (Hsp : Data.getProp Data.SPECIAL_WORMHOLES "K162" <> None)
    by (vm_compute; discriminate).
  destruct (wormhole_filters "K162") as (_ & _ & _ & H).
  destruct (H Hsp 0%Z ""%string 0 0) as [H1 _]. exact H1.
Defined.

Lemma singleton_NoDup {A} (l : list A) (c : A) :
  NoDup l -> (l = [c] <-> In c l /\ forall x, In x l -> x = c).
Proof.
  intro Hnd. split.
  - intros ->. split; [now left |]. intros x [<- | []]. reflexivity.
  - intros [Hin Hall]. destruct l as [| x [| y rest]]; [destruct Hin | |].
    + f_equal. apply Hall. now left.
    + exfalso. assert (x = c) by (apply Hall; now left).
      assert (y = c) by (apply Hall; right; now left). subst.
      apply NoDup_cons in Hnd. destruct Hnd as [Hk _]. apply Hk.
      apply list_elem_of_In. now left.
Qed.

Lemma matchingWormholes_NoDup m r : NoDup (matchingWormholes m r).
Proof.
  unfold matchingWormholes.
  assert (H : forall (l : list (string * Data.WhData)) p,
             NoDup (map fst l) -> NoDup (map fst (List.filter p l))).
  { induction l as [| [k d] rest IH]; intros p Hnd; simpl;
      [apply NoDup_nil; exact I |].
    apply NoDup_cons in Hnd. destruct Hnd as [Hk Hrest].
    destruct (p (k, d)); simpl; [| now apply IH].
    apply NoDup_cons. split; [| now apply IH].
    intro Hin. apply Hk. apply list_elem_of_In in Hin.
    apply list_elem_of_In. apply in_map_iff in Hin.
    destruct Hin as (e & He & Hf). apply filter_In in Hf.
    apply in_map_iff. exists e. tauto. }
  apply H. exact WORMHOLE_DATA_keys.
Qed.

(** X29: [autoSelectWormholeType] selects a code exactly when it is the one
    and only catalogued wormhole with the chosen mass and restriction;
    with no match, or with several, nothing is selected. *)
Theorem autoSelectWormholeType_unique
    (currentMass currentRestriction : Z) (c : string) :
  autoSelectWormholeType currentMass currentRestriction = Some c
  <-> (exists d, Data.getProp Data.WORMHOLE_DATA c = Some d
                 /\ Data.totalMass d = currentMass
                 /\ Data.restriction d = currentRestriction)
      /\ (forall c' d',
            Data.getProp Data.WORMHOLE_DATA c' = Some d' ->
            Data.totalMass d' = currentMass ->
            Data.restriction d' = currentRestriction -> c' = c).
Proof.
  assert (Hin : forall x,
      In x (matchingWormholes currentMass currentRestriction)
      <-> exists d, Data.getProp Data.WORMHOLE_DATA x = Some d
                    /\ Data.totalMass d = currentMass
                    /\ Data.restriction d = currentRestriction).
  { intro x. unfold matchingWormholes.
    rewrite (filter_keys _ _ _ WORMHOLE_DATA_keys). simpl.
    split; intros (d & Hg & Hp); exists d; (split; [exact Hg |]).
    - apply andb_prop in Hp. destruct Hp. split; now apply Z.eqb_eq.
    - destruct Hp. apply andb_true_intro. split; now apply Z.eqb_eq. }
  assert (Hsel : autoSelectWormholeType currentMass currentRestriction = Some c
                 <-> matchingWormholes currentMass currentRestriction = [c]).
  { unfold autoSelectWormholeType.
    destruct (matchingWormholes currentMass currentRestriction)
      as [| x [| y rest]]; split; intro H; congruence. }
  rewrite Hsel,
    (singleton_NoDup _ c (matchingWormholes_NoDup currentMass
                            currentRestriction)).
  rewrite Hin. split; intros [H1 H2]; (split; [exact H1 |]).
  - intros c' d' Hg Hm Hr. apply H2. apply Hin. eauto.
  - intros x Hx. apply Hin in Hx. destruct Hx as (d & Hg & Hm & Hr). eauto.
Qed.

Lemma autoSelectWormholeType_unique_witness :
  exists d, Data.getProp Data.WORMHOLE_DATA "D845" = Some d
            /\ Data.totalMass d = 5000%Z /\ Data.restriction d = 3%Z.
Proof.
  apply (autoSelectWormholeType_unique 5000 3 "D845").
  vm_compute; reflexivity.
Defined.

(** X30: for draws in [0, 1), [randomizeSetup] always picks a catalogued
    wormhole, never a special one, for which [getWormholeInfo] returns an
    object, and an initial state other than [gone]. *)
Theorem randomizeSetup_valid (r1 r2 : Q) :
  0 <= r1 -> r1 < 1 -> 0 <= r2 -> r2 < 1 ->
  exists c st d,
    randomizeSetup r1 r2 = (Some c, Some st)
    /\ Data.getProp Data.WORMHOLE_DATA c = Some d
    /\ Data.getProp Data.SPECIAL_WORMHOLES c = None
    /\ Data.getWormholeInfo c <> None
    /\ st <> gone.
Proof.
  intros H0 H1 H2 H3. unfold randomizeSetup.
  set (codes := map fst Data.WORMHOLE_DATA).
  set (states := [fresh; stable; destab; critical]).
  assert (Hc : (0 < length codes)%nat) by (vm_compute; lia).
  assert (Hs : (0 < length states)%nat) by (simpl; lia).
  destruct (randomIndex_spec (mkOracle 0 (fun _ => 0) r1 (fun _ => 0))
              (length codes) Hc H0 H1) as [Hi1 _].
  destruct (randomIndex_spec (mkOracle 0 (fun _ => 0) r2 (fun _ => 0))
              (length states) Hs H2 H3) as [Hi2 _].
  unfold randomIndex in Hi1, Hi2. simpl pick in Hi1, Hi2.
  destruct (lookup_lt_is_Some_2 codes _ Hi1) as [c Ec].
  destruct (lookup_lt_is_Some_2 states _ Hi2) as [st Est].
  assert (Hin : In c codes).
  { apply list_elem_of_In. eapply list_elem_of_lookup_2. exact Ec. }
  unfold codes in Hin. apply in_map_iff in Hin.
  destruct Hin as ([k d] & Hk & Hin). simpl in Hk. subst k.
  pose proof (In_getProp _ _ _ WORMHOLE_DATA_keys Hin) as Hg.
  destruct (WORMHOLE_DATA_wellformed c d Hg) as (_ & _ & _ & Hsp).
  exists c, st, d. rewrite Ec, Est.
  split; [reflexivity |]. split; [exact Hg |]. split; [exact Hsp |]. split.
  - unfold Data.getWormholeInfo, Data.getMember. rewrite Hg. discriminate.
  - assert (Hst : In st states)
      by (apply list_elem_of_In; eapply list_elem_of_lookup_2; exact Est).
    simpl in Hst. intuition congruence.
Qed.

Lemma randomizeSetup_valid_witness :
  exists c st d,
    randomizeSetup (1 # 2) (3 # 4) = (Some c, Some st)
    /\ Data.getProp Data.WORMHOLE_DATA c = Some d
    /\ Data.getProp Data.SPECIAL_WORMHOLES c = None
    /\ Data.getWormholeInfo c <> None
    /\ st <> gone.
Proof.
  apply (randomizeSetup_valid (1 # 2) (3 # 4)); lra.
Defined.
